(** * Droid-keyusage-go: the fetch-and-aggregate engine

    A shallow embedding of [internal/services] (worker pool, batch
    coordinator, API-key service), [internal/storage] and
    [internal/models], followed by the properties of the specification
    that concern them.

    Conventions.
    - Go [int], [int64] and [time.Duration] are [Z]; arithmetic that can
      leave the 64-bit range goes through [go.wrap64].
    - Go [string] is [string] (a sequence of bytes); [len] is
      [String.length].
    - [float64] is the primitive binary64 type [float].
    - A pointer that may be [nil] is an [option]; an [error] is an
      [option] of its message.
    - [time.Time] is a number of nanoseconds since the Unix epoch
      (unbounded: a [Time] stores seconds and nanoseconds apart).
    - Everything the process does not decide (clock readings, the
      scheduling of the worker goroutines, the remote endpoint, the
      outcome of a Redis command) is an explicit argument. *)

From Stdlib Require Import ZArith String Ascii List Floats Lia Bool.
From stdpp Require Import gmap strings list pretty.

Local Open Scope Z_scope.

(** ** Go primitives *)

Module go.

Definition error : Type := string.

(** What a call leaves behind: a return value, or a run-time panic. *)
Inductive outcome (A : Type) : Type :=
| Returned (a : A)
| Panicked (msg : string).
Arguments Returned {A} a.
Arguments Panicked {A} msg.

Definition MaxInt64 : Z := 2 ^ 63 - 1.
Definition MinInt64 : Z := - 2 ^ 63.

(** Two's-complement reduction to 64 bits. *)
Definition wrap64 (z : Z) : Z := (z + 2 ^ 63) mod 2 ^ 64 - 2 ^ 63.

Definition add64 (a b : Z) : Z := wrap64 (a + b).
Definition mul64 (a b : Z) : Z := wrap64 (a * b).

(** [a / b] on [int]: truncated quotient, panic on a zero divisor. *)
Definition div64 (a b : Z) : option Z :=
  if b =? 0 then None else Some (wrap64 (Z.quot a b)).

Definition len (s : string) : Z := Z.of_nat (String.length s).

(** [s[lo:hi]], used only where [0 <= lo <= hi <= len s]. *)
Definition slice (s : string) (lo hi : Z) : string :=
  String.substring (Z.to_nat lo) (Z.to_nat (hi - lo)) s.

(** [fmt.Sprintf("%s...%s", a, b)]. *)
Definition Sprintf_s_dots_s (a b : string) : string :=
  String.append a (String.append "..." b).

(** *** package time *)

Definition Duration : Type := Z.
Definition Time : Type := Z.

Definition Nanosecond : Duration := 1.
Definition Microsecond : Duration := 1000 * Nanosecond.
Definition Millisecond : Duration := 1000 * Microsecond.
Definition Second : Duration := 1000 * Millisecond.
Definition Minute : Duration := 60 * Second.

(** The zero [time.Time]: 1 January of year 1, 00:00 UTC. *)
Definition zeroTime : Time := -62135596800 * Second.

(** [t.Sub(u)]: the difference, saturated to the range of a Duration. *)
Definition Time_Sub (t u : Time) : Duration :=
  Z.max MinInt64 (Z.min MaxInt64 (t - u)).

(** [time.Since(t)] at the instant [now]. *)
Definition Since (now t : Time) : Duration := Time_Sub now t.

(** *** strings.TrimSpace

    The byte sequences that are the UTF-8 encodings of the code points
    for which [unicode.IsSpace] holds: U+0009..U+000D, U+0020, U+0085,
    U+00A0, U+1680, U+2000..U+200A, U+2028, U+2029, U+202F, U+205F and
    U+3000. *)
Definition byte (n : nat) : ascii := ascii_of_nat n.

Definition space_runes : list (list ascii) :=
  map (map byte)
    [ [9]; [10]; [11]; [12]; [13]; [32];
      [194; 133]; [194; 160];
      [225; 154; 128];
      [226; 128; 128]; [226; 128; 129]; [226; 128; 130]; [226; 128; 131];
      [226; 128; 132]; [226; 128; 133]; [226; 128; 134]; [226; 128; 135];
      [226; 128; 136]; [226; 128; 137]; [226; 128; 138];
      [226; 128; 168]; [226; 128; 169]; [226; 128; 175];
      [226; 129; 159];
      [227; 128; 128] ]%nat.

(** [l] without the leading [p], when [p] is a prefix of [l]. *)
Fixpoint strip_prefix (p l : list ascii) : option (list ascii) :=
  match p, l with
  | [], _ => Some l
  | a :: p', b :: l' =>
      if Ascii.eqb a b then strip_prefix p' l' else None
  | _ :: _, [] => None
  end.

(** The first of [runes] that starts [l], removed. *)
Fixpoint strip_rune (runes : list (list ascii)) (l : list ascii)
  : option (list ascii) :=
  match runes with
  | [] => None
  | r :: rs =>
      match strip_prefix r l with
      | Some l' => Some l'
      | None => strip_rune rs l
      end
  end.

(** Remove leading runes of [runes] as long as there is one. *)
Fixpoint trim_runes (fuel : nat) (runes : list (list ascii))
    (l : list ascii) : list ascii :=
  match fuel with
  | O => l
  | S fuel' =>
      match strip_rune runes l with
      | Some l' => trim_runes fuel' runes l'
      | None => l
      end
  end.

Definition TrimLeftSpace (l : list ascii) : list ascii :=
  trim_runes (length l) space_runes l.

(** Trailing runes are leading runes of the reversed string, each
    spelt backwards. *)
Definition TrimRightSpace (l : list ascii) : list ascii :=
  rev (trim_runes (length l) (map (@rev ascii) space_runes) (rev l)).

Definition TrimSpace (s : string) : string :=
  string_of_list_ascii
    (TrimRightSpace (TrimLeftSpace (list_ascii_of_string s))).

End go.

Import go.

(** ** package models *)

Module models.

Module APIKeyMasked.
Record t : Type := mk
  { ID : string; Name : string; Masked : string; CreatedAt : Time }.
End APIKeyMasked.

Module Usage.
Record t : Type := mk
  { ID : string;
    Key : string;
    StartDate : string;
    EndDate : string;
    TotalAllowance : float;
    OrgTotalUsed : float;
    Remaining : float;
    UsedRatio : float;
    LastUpdated : Time;
    Error : string }.

(** [&models.Usage{ID: id, Error: msg}]: the other fields are zero
    values. *)
Definition failed (id msg : string) : t :=
  mk id "" "" "" 0%float 0%float 0%float 0%float zeroTime msg.
End Usage.

(** The decoded body of the metering endpoint: [Usage.StartDate],
    [Usage.EndDate] and the fields of [Usage.Standard]. *)
Module FactoryAPIResponse.
Record t : Type := mk
  { StartDate : Z;
    EndDate : Z;
    OrgTotalTokensUsed : float;
    TotalAllowance : float;
    UsedRatio : float }.
End FactoryAPIResponse.

Module Totals.
Record t : Type := mk
  { TotalOrgTotalTokensUsed : float; TotalAllowance : float }.
End Totals.

Module AggregatedData.
Record t : Type := mk
  { UpdateTime : string;
    TotalCount : Z;
    Totals : Totals.t;
    Data : list Usage.t }.
End AggregatedData.

Module ImportResult.
Record t : Type := mk { Success : Z; Failed : Z; Duplicates : Z }.
End ImportResult.

End models.

(** ** package storage

    The Redis data set as the service sees it: the keys listed in
    [keys:list] with their [key:<id>] hashes, and the usage records
    under [key:<id>:usage].  Whether a command reaches the server is the
    caller's [Reply] argument.  Expiry runs on the server's clock; a
    record that has expired is an absent one. *)

Module storage.

Inductive Reply : Type :=
| Done
| Failure (err : error).

Module APIKey.
Record t : Type := mk
  { ID : string; Key : string; Name : string; CreatedAt : Time }.
End APIKey.

Module Usage.
Record t : Type := mk
  { ID : string;
    StartDate : string;
    EndDate : string;
    TotalAllowance : float;
    OrgTotalUsed : float;
    Remaining : float;
    UsedRatio : float;
    LastUpdated : Time;
    Error : string }.
End Usage.

Record Storage : Type := mkStorage
  { keys : list APIKey.t;
    usage : gmap string Usage.t }.

(** [HSet key:<id> data] and [SAdd keys:list id] in one pipeline. *)
Definition SaveAPIKey (s : Storage) (key : APIKey.t) (r : Reply)
  : Storage * option error :=
  match r with
  | Failure err => (s, Some err)
  | Done =>
      (mkStorage
         (filter (fun k => APIKey.ID k <> APIKey.ID key) (keys s) ++ [key])
         (usage s),
       None)
  end.

Definition GetAllAPIKeys (s : Storage) (r : Reply)
  : list APIKey.t * option error :=
  match r with
  | Failure err => ([], Some err)
  | Done => (keys s, None)
  end.

(** [redis.Nil] is not an error: [(nil, nil)]. *)
Definition GetUsage (s : Storage) (id : string) (r : Reply)
  : option Usage.t * option error :=
  match r with
  | Failure err => (None, Some err)
  | Done => (usage s !! id, None)
  end.

(** [json.Marshal] refuses a NaN or an infinity, and a time whose year
    is outside 0..9999. *)
Definition marshals (u : Usage.t) : bool :=
  PrimFloat.is_finite (Usage.TotalAllowance u)
  && PrimFloat.is_finite (Usage.OrgTotalUsed u)
  && PrimFloat.is_finite (Usage.Remaining u)
  && PrimFloat.is_finite (Usage.UsedRatio u)
  && (-62167219200 * Second <=? Usage.LastUpdated u)
  && (Usage.LastUpdated u <? 253402300800 * Second).

(** The pipeline of [BatchSaveUsage]: one [Set] per record that
    marshals.  [applied i] tells whether the command queued for the
    record at position [i] took effect; [Exec] reports an error as
    soon as one did not. *)
Fixpoint pipeline_set (applied : nat -> bool) (i : nat)
    (usages : list Usage.t) (m : gmap string Usage.t)
  : gmap string Usage.t * bool :=
  match usages with
  | [] => (m, true)
  | u :: rest =>
      if marshals u then
        if applied i then pipeline_set applied (S i) rest (<[Usage.ID u := u]> m)
        else (fst (pipeline_set applied (S i) rest m), false)
      else pipeline_set applied (S i) rest m
  end.

Definition BatchSaveUsage (s : Storage) (usages : list Usage.t)
    (ttl : Duration) (applied : nat -> bool) : Storage * option error :=
  let '(m, ok) := pipeline_set applied 0 usages (usage s) in
  (mkStorage (keys s) m,
   if ok then None else Some "redis: pipeline failed"%string).


(** *** Single keys and records *)

(** [HGet key:<id> data]; a missing hash is [(nil, nil)]. *)
Definition GetAPIKey (s : Storage) (id : string) (r : Reply)
  : option APIKey.t * option error :=
  match r with
  | Failure err => (None, Some err)
  | Done => (List.find (fun k => String.eqb (APIKey.ID k) id) (keys s), None)
  end.

(** The run of a pipeline of [Del] and [SRem] commands.  The server
    runs the commands in the order they were queued; [ran] is how many it
    ran before the connection broke, with the error [broken], if it did.
    A command it ran has its effect and no error. *)
Record Pipeline : Type := mkPipeline { ran : nat; broken : error }.

(** [cmds[i].Err()]. *)
Definition cmd_Err (x : Pipeline) (i : nat) : option error :=
  if (i <? ran x)%nat then None else Some (broken x).

(** The error of [pipe.Exec] for [n] queued commands: that of the first
    command that failed. *)
Definition Exec_err (x : Pipeline) (n : nat) : option error :=
  if (n <=? ran x)%nat then None else Some (broken x).

(** [redis.Nil]. *)
Definition redis_Nil : error := "redis: nil".

(** The names of the keys of the store: [fmt.Sprintf("key:%s", id)]
    holds the hash of a key, [fmt.Sprintf("key:%s:usage", id)] its cached
    record. *)
Definition key_name (id : string) : string := String.append "key:" id.

Definition usage_name (id : string) : string :=
  String.append "key:" (String.append id ":usage").

(** [Del name], on the cached records: [Del] does not look at what a
    name holds, the record kept under the name goes away. *)
Definition Del_usage (name : string) (m : gmap string Usage.t)
  : gmap string Usage.t :=
  filter (fun entry => usage_name (fst entry) <> name) m.

(** The three commands queued for one identifier, the first of them at
    position [c] of the pipeline: [Del key:<id>], [Del key:<id>:usage],
    [SRem keys:list id].  A key whose hash is gone is no longer listed
    nor found.  The two kinds of names overlap: [key:<id>] is the name of
    the cached record of [K] when [id] is [K:usage], and the first command
    removes that record.  The hashes are those of the listed keys, which
    are made under the identifiers [key-<hex>-<seconds>], without a
    colon: the second command meets none of them. *)
Definition delete_cmds (x : Pipeline) (c : nat) (id : string) (s : Storage)
  : Storage :=
  mkStorage
    (if (c <? ran x)%nat
     then filter (fun k => APIKey.ID k <> id) (keys s) else keys s)
    (let m :=
       if (c <? ran x)%nat then Del_usage (key_name id) (usage s)
       else usage s in
     if (S c <? ran x)%nat then Del_usage (usage_name id) m else m).

Definition DeleteAPIKey (s : Storage) (id : string) (x : Pipeline)
  : Storage * option error :=
  (delete_cmds x 0 id s, Exec_err x 3).

Fixpoint batch_delete_cmds (x : Pipeline) (i : nat) (ids : list string)
    (s : Storage) : Storage :=
  match ids with
  | [] => s
  | id :: rest => batch_delete_cmds x (S i) rest (delete_cmds x (3 * i) id s)
  end.

(** The counting loop of [BatchDeleteAPIKeys], from [i] on, for [n]
    identifiers left and [ncmds] commands. *)
Fixpoint count_deleted (x : Pipeline) (ncmds i n : nat) (success failed : Z)
  : Z * Z :=
  match n with
  | O => (success, failed)
  | S n' =>
      if (i * 3 <? ncmds)%nat
         && match cmd_Err x (i * 3) with None => true | Some _ => false end
      then count_deleted x ncmds (S i) n' (success + 1) failed
      else count_deleted x ncmds (S i) n' success (failed + 1)
  end.

Definition BatchDeleteAPIKeys (s : Storage) (ids : list string) (x : Pipeline)
  : Storage * (Z * Z) :=
  let s' := batch_delete_cmds x 0 ids s in
  let ncmds := (3 * length ids)%nat in
  match Exec_err x ncmds with
  | Some err =>
      if negb (String.eqb err redis_Nil)
      then (s', (0, Z.of_nat (length ids)))
      else (s', count_deleted x ncmds 0 (length ids) 0 0)
  | None => (s', count_deleted x ncmds 0 (length ids) 0 0)
  end.

(** The text of the error of [json.Marshal] is not used anywhere. *)
Definition marshal_error : error := "json: unsupported value".


(** *** Sessions

    The keys [session:<id>]: a session and, when the key was set with a
    positive time to live, the instant of the server's clock at which it
    goes away. *)

Module Session.
Record t : Type := mk { ID : string; CreatedAt : Time; ExpiresAt : Time }.
End Session.

Definition time_marshals (t : Time) : bool :=
  (-62167219200 * Second <=? t) && (t <? 253402300800 * Second).

(** [Set(key, data, ttl)] at the instant [at_server] of the server. *)
Definition SaveSession (ss : gmap string (Session.t * option Time))
    (session : Session.t) (ttl : Duration) (at_server : Time) (r : Reply)
  : gmap string (Session.t * option Time) * option error :=
  if time_marshals (Session.CreatedAt session)
     && time_marshals (Session.ExpiresAt session)
  then
    match r with
    | Failure err => (ss, Some err)
    | Done =>
        (<[Session.ID session :=
             (session, if 0 <? ttl then Some (at_server + ttl) else None)]> ss,
         None)
    end
  else (ss, Some marshal_error).

Definition GetSession (ss : gmap string (Session.t * option Time))
    (id : string) (at_server : Time) (r : Reply)
  : option Session.t * option error :=
  match r with
  | Failure err => (None, Some err)
  | Done =>
      match ss !! id with
      | Some (session, Some gone) =>
          if at_server <? gone then (Some session, None) else (None, None)
      | Some (session, None) => (Some session, None)
      | None => (None, None)
      end
  end.

Definition DeleteSession (ss : gmap string (Session.t * option Time))
    (id : string) (r : Reply)
  : gmap string (Session.t * option Time) * option error :=
  match r with
  | Failure err => (ss, Some err)
  | Done => (delete id ss, None)
  end.

(** *** Metrics

    The keys [metrics:<name>], each an integer.  [Incr] refuses to go
    past the largest 64-bit integer. *)

Definition IncrementMetric (ms : gmap string Z) (metric : string) (r : Reply)
  : gmap string Z * option error :=
  match r with
  | Failure err => (ms, Some err)
  | Done =>
      let v := default 0 (ms !! metric) in
      if v <? MaxInt64 then (<[metric := v + 1]> ms, None)
      else (ms, Some "ERR increment or decrement would overflow"%string)
  end.

Definition GetMetric (ms : gmap string Z) (metric : string) (r : Reply)
  : Z * option error :=
  match r with
  | Failure err => (0, Some err)
  | Done => (default 0 (ms !! metric), None)
  end.
End storage.

(** ** package services: the worker pool *)

Module services.

Module Task.
Record t : Type := mk { ID : string; APIKey : string }.
End Task.

Module Result.
Record t : Type := mk
  { ID : string; Usage : option models.Usage.t; Error : option error }.
End Result.

(** The state of the channel [taskQueue]: the tasks in its buffer, the
    number of workers blocked on a receive, and (for the record) the
    tasks workers have received from it so far. *)
Record TaskQueue : Type := mkQueue
  { buffered : list Task.t; parked : nat; taken : list Task.t }.

Record WorkerPool : Type := mkPool
  { maxWorkers : Z; queueSize : Z; taskQueue : TaskQueue }.

(** What the worker goroutines do to [taskQueue] while the coordinator
    is busy elsewhere: a worker receives the task at the head of the
    buffer, or finds the buffer empty and blocks. *)
Inductive worker_step : Type := Take | Park.

Definition worker_run (q : TaskQueue) (w : worker_step) : TaskQueue :=
  match w, buffered q with
  | Take, task :: rest => mkQueue rest (parked q) (taken q ++ [task])
  | Park, [] => mkQueue [] (S (parked q)) (taken q)
  | _, _ => q
  end.

Definition workers_run (ws : list worker_step) (q : TaskQueue) : TaskQueue :=
  fold_left worker_run ws q.

(** [select { case wp.taskQueue <- task: ...; default: ... }]: the send
    goes through when a worker is blocked on the receive or the buffer
    has room; otherwise the default branch runs ([None]). *)
Definition try_send (cap : Z) (task : Task.t) (q : TaskQueue)
  : option TaskQueue :=
  match parked q with
  | S n => Some (mkQueue (buffered q) n (taken q ++ [task]))
  | O =>
      if Z.of_nat (length (buffered q)) <? cap
      then Some (mkQueue (buffered q ++ [task]) O (taken q))
      else None
  end.

(** One round trip to the metering endpoint, as the fetcher sees it. *)
Inductive HTTPExchange : Type :=
| NewRequestFailed (err : error)
| DoFailed (err : error)
| Response (StatusCode : Z)
    (body : error + models.FactoryAPIResponse.t) (now : Time).

Definition StatusOK : Z := 200.

Definition min (a b : Z) : Z := if a <? b then a else b.
Definition max (a b : Z) : Z := if a >? b then a else b.

Section Formatting.

(** [t.Format(layout)] in the zone of the process. *)
Variable time_Format : string -> Time -> string.

Definition formatDate (timestamp : Z) : string :=
  if timestamp =? 0 then "N/A"%string
  else time_Format "2006-01-02" (Z.quot timestamp 1000 * Second).

Definition fetchUsageFromAPI (id apiKey : string) (x : HTTPExchange)
  : option models.Usage.t * option error :=
  match x with
  | NewRequestFailed err => (None, Some err)
  | DoFailed err =>
      (None, Some (String.append "API request failed: " err))
  | Response StatusCode body now =>
      if negb (StatusCode =? StatusOK) then
        (Some (models.Usage.failed id
                 (String.append "HTTP " (pretty StatusCode))), None)
      else
        match body with
        | inl err =>
            (None, Some (String.append "failed to decode response: " err))
        | inr apiResp =>
            let maskedKey :=
              Sprintf_s_dots_s
                (slice apiKey 0 (min 4 (len apiKey)))
                (slice apiKey (max 0 (len apiKey - 4)) (len apiKey)) in
            (Some
               (models.Usage.mk id maskedKey
                  (formatDate (models.FactoryAPIResponse.StartDate apiResp))
                  (formatDate (models.FactoryAPIResponse.EndDate apiResp))
                  (models.FactoryAPIResponse.TotalAllowance apiResp)
                  (models.FactoryAPIResponse.OrgTotalTokensUsed apiResp)
                  (models.FactoryAPIResponse.TotalAllowance apiResp
                   - models.FactoryAPIResponse.OrgTotalTokensUsed apiResp)%float
                  (models.FactoryAPIResponse.UsedRatio apiResp)
                  now ""),
             None)
        end
  end.

Definition processTask (task : Task.t) (x : HTTPExchange) : Result.t :=
  let '(usage, err) := fetchUsageFromAPI (Task.ID task) (Task.APIKey task) x in
  Result.mk (Task.ID task) usage err.

(** *** BatchProcess *)

(** [30s + (len(keys)/maxWorkers) * 2s], at most five minutes; [n] is
    [len(keys)].  A zero [maxWorkers] makes the division panic. *)
Definition batchTimeout (maxWorkers n : Z) : option Duration :=
  match div64 n maxWorkers with
  | None => None
  | Some q =>
      let timeoutDuration :=
        add64 (30 * Second) (mul64 (mul64 q 2) Second) in
      Some (if timeoutDuration >? 5 * Minute then 5 * Minute
            else timeoutDuration)
  end.

(** What the submission loop does, in order. *)
Inductive event : Type :=
| EvSend (i : nat) (task : Task.t) (sent : bool)
| EvSleep (d : Duration)
| EvQueueFull (i : nat) (r : Result.t).

(** The case that a round of the [select] in the collection loop runs. *)
Inductive selected : Type :=
| Arrived (task : Task.t) (x : HTTPExchange)
| Ticked
| Expired.

(** The part of a run of [BatchProcess] that the coordinator does not
    decide: what the workers do to the task queue before the first
    attempt for the key at position [i] and during the pause before the
    second, and the cases that the rounds of the collection loop run, one
    after the other.  A result that arrives on [resultQueue] is that of a
    worker for some task, after some exchange with the endpoint.  Once
    the list is used up, all that is left to happen is the deadline. *)
Record Schedule : Type := mkSchedule
  { before_send : nat -> list worker_step;
    during_sleep : nat -> list worker_step;
    wakeups : list selected }.

Record submit_state : Type := mkSubmit
  { queue : TaskQueue;
    resultChan : list Result.t;
    submitted : Z;
    log : list event }.

Definition queue_full_result (key : storage.APIKey.t) : Result.t :=
  Result.mk (storage.APIKey.ID key) None (Some "task queue full"%string).

(** The body of the submission loop for the key at position [i]. *)
Definition submit_one (cap : Z) (sched : Schedule) (i : nat)
    (key : storage.APIKey.t) (st : submit_state) : submit_state :=
  let task := Task.mk (storage.APIKey.ID key) (storage.APIKey.Key key) in
  let q := workers_run (before_send sched i) (queue st) in
  match try_send cap task q with
  | Some q' =>
      mkSubmit q' (resultChan st) (submitted st + 1)
        (log st ++ [EvSend i task true])
  | None =>
      let q := workers_run (during_sleep sched i) q in
      match try_send cap task q with
      | Some q' =>
          mkSubmit q' (resultChan st) (submitted st + 1)
            (log st ++ [EvSend i task false; EvSleep (10 * Millisecond);
                        EvSend i task true])
      | None =>
          mkSubmit q (resultChan st ++ [queue_full_result key]) (submitted st)
            (log st ++ [EvSend i task false; EvSleep (10 * Millisecond);
                        EvSend i task false;
                        EvQueueFull i (queue_full_result key)])
      end
  end.

Fixpoint submit_loop (cap : Z) (sched : Schedule) (i : nat)
    (keys : list storage.APIKey.t) (st : submit_state) : submit_state :=
  match keys with
  | [] => st
  | key :: rest => submit_loop cap sched (S i) rest (submit_one cap sched i key st)
  end.

Definition submit_all (wp : WorkerPool) (sched : Schedule)
    (keys : list storage.APIKey.t) : submit_state :=
  submit_loop (queueSize wp) sched 0 keys (mkSubmit (taskQueue wp) [] 0 []).

(** The collection loop, [for received < len(keys) { select ... }]:
    the results it forwards to [resultChan], and [received] at its end. *)
Fixpoint collectLoop (n received : Z) (rounds : list selected)
  : list Result.t * Z :=
  match rounds with
  | [] => ([], received)
  | round :: rest =>
      if received <? n then
        match round with
        | Arrived task x =>
            let '(results, received') := collectLoop n (received + 1) rest in
            (processTask task x :: results, received')
        | Ticked => collectLoop n received rest
        | Expired => ([], received)
        end
      else ([], received)
  end.

Definition forwarded (sched : Schedule) (keys : list storage.APIKey.t)
  : list Result.t :=
  fst (collectLoop (Z.of_nat (length keys)) 0 (wakeups sched)).

(** Everything sent on [resultChan], in order: first the queue-full
    results of the submission loop, then the forwarded ones. *)
Definition recorded (wp : WorkerPool) (sched : Schedule)
    (keys : list storage.APIKey.t) : list Result.t :=
  resultChan (submit_all wp sched keys) ++ forwarded sched keys.

(** The body of the collector goroutine. *)
Definition collect (resultMap : gmap string (option models.Usage.t))
    (result : Result.t) : gmap string (option models.Usage.t) :=
  match Result.Error result with
  | Some err =>
      <[Result.ID result :=
          Some (models.Usage.failed (Result.ID result) err)]> resultMap
  | None => <[Result.ID result := Result.Usage result]> resultMap
  end.

(** The final pass over the keys. *)
Definition ordered (resultMap : gmap string (option models.Usage.t))
    (keys : list storage.APIKey.t) : list (option models.Usage.t) :=
  map (fun key =>
         match resultMap !! storage.APIKey.ID key with
         | Some usage => usage
         | None =>
             Some (models.Usage.failed (storage.APIKey.ID key)
                     "Processing timeout")
         end) keys.

Definition BatchProcess (wp : WorkerPool) (keys : list storage.APIKey.t)
    (sched : Schedule)
  : outcome (list (option models.Usage.t) * option error) :=
  if Z.of_nat (length keys) =? 0 then Returned ([], None)
  else
    match batchTimeout (maxWorkers wp) (Z.of_nat (length keys)) with
    | None => Panicked "runtime error: integer divide by zero"
    | Some timeoutDuration =>
        let resultMap := fold_left collect (recorded wp sched keys) ∅ in
        Returned (ordered resultMap keys, None)
    end.

(** *** The API-key service *)

Record APIKeyService : Type := mkService
  { workerPool : WorkerPool; cacheTTL : Duration }.

Definition NewAPIKeyService (workerPool : WorkerPool) : APIKeyService :=
  mkService workerPool (5 * Minute).

Definition maskKey (key : string) : string :=
  if len key <=? 8 then key
  else Sprintf_s_dots_s (slice key 0 4) (slice key (len key - 4) (len key)).

Definition GetAllKeys (store : storage.Storage) (r : storage.Reply)
  : option (list models.APIKeyMasked.t) * option error :=
  match storage.GetAllAPIKeys store r with
  | (_, Some err) => (None, Some err)
  | (keys, None) =>
      (Some
         (map (fun key =>
                 models.APIKeyMasked.mk (storage.APIKey.ID key)
                   (storage.APIKey.Name key)
                   (maskKey (storage.APIKey.Key key))
                   (storage.APIKey.CreatedAt key)) keys),
       None)
  end.

(** **** ImportKeys *)

(** What a run of [ImportKeys] does not decide, by position of the
    entry: the first eight characters of the fresh UUID, the two clock
    readings, and the reply of the store to the save. *)
Record Import : Type := mkImport
  { listed : storage.Reply;
    uuid8 : nat -> string;
    id_clock : nat -> Time;
    created_clock : nat -> Time;
    saved : nat -> storage.Reply }.

Record import_state : Type := mkImportState
  { result : models.ImportResult.t;
    existingMap : gmap string bool;
    store_now : storage.Storage }.

(** [existingMap[keyStr]]: [false] for a missing entry. *)
Definition known (m : gmap string bool) (keyStr : string) : bool :=
  default false (m !! keyStr).

Definition new_id (env : Import) (i : nat) : string :=
  String.append "key-"
    (String.append (uuid8 env i)
       (String.append "-" (pretty (id_clock env i / Second)))).

(** The body of the loop for the entry at position [i]. *)
Definition import_one (env : Import) (i : nat) (keyStr : string)
    (st : import_state) : import_state :=
  let keyStr := TrimSpace keyStr in
  let r := result st in
  if String.eqb keyStr "" then st
  else if known (existingMap st) keyStr then
    mkImportState
      (models.ImportResult.mk (models.ImportResult.Success r)
         (models.ImportResult.Failed r)
         (models.ImportResult.Duplicates r + 1))
      (existingMap st) (store_now st)
  else
    let id := new_id env i in
    let apiKey :=
      storage.APIKey.mk id keyStr (String.append "Key " id)
        (created_clock env i) in
    match storage.SaveAPIKey (store_now st) apiKey (saved env i) with
    | (store', Some _) =>
        mkImportState
          (models.ImportResult.mk (models.ImportResult.Success r)
             (models.ImportResult.Failed r + 1)
             (models.ImportResult.Duplicates r))
          (existingMap st) store'
    | (store', None) =>
        mkImportState
          (models.ImportResult.mk (models.ImportResult.Success r + 1)
             (models.ImportResult.Failed r)
             (models.ImportResult.Duplicates r))
          (<[keyStr := true]> (existingMap st)) store'
    end.

Fixpoint import_loop (env : Import) (i : nat) (keys : list string)
    (st : import_state) : import_state :=
  match keys with
  | [] => st
  | keyStr :: rest => import_loop env (S i) rest (import_one env i keyStr st)
  end.

Definition import_start (store : storage.Storage)
    (existingKeys : list storage.APIKey.t) : import_state :=
  mkImportState (models.ImportResult.mk 0 0 0)
    (fold_left (fun m k => <[storage.APIKey.Key k := true]> m) existingKeys ∅)
    store.

Definition ImportKeys (store : storage.Storage) (keys : list string)
    (env : Import)
  : (models.ImportResult.t * option error) * storage.Storage :=
  match storage.GetAllAPIKeys store (listed env) with
  | (_, Some err) => ((models.ImportResult.mk 0 0 0, Some err), store)
  | (existingKeys, None) =>
      let st := import_loop env 0 keys (import_start store existingKeys) in
      ((result st, None), store_now st)
  end.

(** **** GetAggregatedData *)

(** What a run of [GetAggregatedData] does not decide: the replies of
    the store, the clock reading at the freshness check of the key at
    position [i], the run of [BatchProcess], which commands of the batched
    write took effect, and the clock reading that stamps the report. *)
Record Run : Type := mkRun
  { listing : storage.Reply;
    lookup : nat -> storage.Reply;
    clock : nat -> Time;
    schedule : Schedule;
    applied : nat -> bool;
    stamp : Time }.

(** What the call leaves behind besides its return value: the store,
    and the key lists handed to [BatchProcess]. *)
Record Effects : Type := mkEffects
  { store_after : storage.Storage;
    fetched : list (list storage.APIKey.t) }.

(** A cached record as an element of [cachedResults]: the two [Usage]
    structs have the same fields, but for [Key]. *)
Definition of_cache (u : storage.Usage.t) : models.Usage.t :=
  models.Usage.mk (storage.Usage.ID u) ""
    (storage.Usage.StartDate u) (storage.Usage.EndDate u)
    (storage.Usage.TotalAllowance u) (storage.Usage.OrgTotalUsed u)
    (storage.Usage.Remaining u) (storage.Usage.UsedRatio u)
    (storage.Usage.LastUpdated u) (storage.Usage.Error u).

Definition to_cache (usage : models.Usage.t) : storage.Usage.t :=
  storage.Usage.mk (models.Usage.ID usage)
    (models.Usage.StartDate usage) (models.Usage.EndDate usage)
    (models.Usage.TotalAllowance usage) (models.Usage.OrgTotalUsed usage)
    (models.Usage.Remaining usage) (models.Usage.UsedRatio usage)
    (models.Usage.LastUpdated usage) "".

(** The cache check for the key at position [i]: the record to accept,
    if there is one and it is fresh. *)
Definition cache_hit (s : APIKeyService) (store : storage.Storage)
    (env : Run) (i : nat) (key : storage.APIKey.t)
  : option storage.Usage.t :=
  match storage.GetUsage store (storage.APIKey.ID key) (lookup env i) with
  | (Some usage, None) =>
      if Since (clock env i) (storage.Usage.LastUpdated usage) <? cacheTTL s
      then Some usage else None
  | _ => None
  end.

(** The loop that fills [cachedResults] and [uncachedKeys]. *)
Fixpoint partition_loop (s : APIKeyService) (store : storage.Storage)
    (env : Run) (i : nat) (keys : list storage.APIKey.t)
    (cachedResults : list models.Usage.t)
    (uncachedKeys : list storage.APIKey.t)
  : list models.Usage.t * list storage.APIKey.t :=
  match keys with
  | [] => (cachedResults, uncachedKeys)
  | key :: rest =>
      match cache_hit s store env i key with
      | Some usage =>
          partition_loop s store env (S i) rest
            (cachedResults ++ [of_cache usage]) uncachedKeys
      | None =>
          partition_loop s store env (S i) rest
            cachedResults (uncachedKeys ++ [key])
      end
  end.

(** The records of [freshResults] that go into the batched write. *)
Definition validResults (freshResults : list models.Usage.t)
  : list storage.Usage.t :=
  map to_cache
    (filter (fun usage => models.Usage.Error usage = ""%string) freshResults).

Definition add_totals (totals : models.Totals.t) (usage : models.Usage.t)
  : models.Totals.t :=
  if String.eqb (models.Usage.Error usage) "" then
    models.Totals.mk
      (models.Totals.TotalOrgTotalTokensUsed totals
       + models.Usage.OrgTotalUsed usage)%float
      (models.Totals.TotalAllowance totals
       + models.Usage.TotalAllowance usage)%float
  else totals.

Definition calc_totals (allResults : list models.Usage.t) : models.Totals.t :=
  fold_left add_totals allResults (models.Totals.mk 0%float 0%float).

Definition report (env : Run) (keys : list storage.APIKey.t)
    (allResults : list models.Usage.t) : models.AggregatedData.t :=
  models.AggregatedData.mk
    (time_Format "2006-01-02 15:04:05" (stamp env))
    (Z.of_nat (length keys))
    (calc_totals allResults)
    allResults.

(** The progress lines on standard output are left out. *)
Definition GetAggregatedData (s : APIKeyService) (store : storage.Storage)
    (env : Run)
  : outcome ((option models.AggregatedData.t * option error) * Effects) :=
  match storage.GetAllAPIKeys store (listing env) with
  | (_, Some err) =>
      Returned
        ((None, Some (String.append "failed to get API keys: " err)),
         mkEffects store [])
  | (keys, None) =>
      if Z.of_nat (length keys) =? 0 then
        Returned
          ((Some
              (models.AggregatedData.mk
                 (time_Format "2006-01-02 15:04:05" (stamp env)) 0
                 (models.Totals.mk 0%float 0%float) []),
            None),
           mkEffects store [])
      else
        let '(cachedResults, uncachedKeys) :=
          partition_loop s store env 0 keys [] [] in
        if Z.of_nat (length uncachedKeys) >? 0 then
          match BatchProcess (workerPool s) uncachedKeys (schedule env) with
          | Panicked msg => Panicked msg
          | Returned (_, Some err) =>
              Returned
                ((None, Some (String.append "failed to process keys: " err)),
                 mkEffects store [uncachedKeys])
          | Returned (results, None) =>
              match mapM (fun usage : option models.Usage.t => usage) results with
              | None =>
                  Panicked
                    "runtime error: invalid memory address or nil pointer dereference"
              | Some freshResults =>
                  let valid := validResults freshResults in
                  let store' :=
                    if Z.of_nat (length valid) >? 0
                    then fst (storage.BatchSaveUsage store valid (cacheTTL s)
                                (applied env))
                    else store in
                  Returned
                    ((Some (report env keys (cachedResults ++ freshResults)),
                      None),
                     mkEffects store' [uncachedKeys])
              end
          end
        else
          Returned
            ((Some (report env keys (cachedResults ++ [])), None),
             mkEffects store [])
  end.

End Formatting.


(** *** NewWorkerPool

    [make(chan Task, queueSize)] panics on a negative size.  The HTTP
    client is the endpoint's side of an [HTTPExchange]. *)
Definition NewWorkerPool (maxWorkers queueSize : Z) : outcome WorkerPool :=
  if queueSize <? 0 then Panicked "makechan: size out of range"
  else Returned (mkPool maxWorkers queueSize (mkQueue [] 0 [])).

(** *** SubmitTask

    [select { case wp.taskQueue <- task: ...; case <-time.After(5s): ... }]:
    the send waits; [ws] is what the workers do to the task queue during
    the five seconds, step by step, and the send goes through at the first
    moment a worker waits or the buffer has room. *)
Fixpoint SubmitTask (cap : Z) (task : Task.t) (ws : list worker_step)
    (q : TaskQueue) : TaskQueue * option error :=
  match ws with
  | [] =>
      match try_send cap task q with
      | Some q' => (q', None)
      | None => (q, Some "task queue is full"%string)
      end
  | w :: rest =>
      match try_send cap task q with
      | Some q' => (q', None)
      | None => SubmitTask cap task rest (worker_run q w)
      end
  end.

(** *** The authentication service *)

Record AuthService : Type := mkAuth
  { adminPassword : string; jwtSecret : string }.

Definition NewAuthService (adminPassword : string) : AuthService :=
  mkAuth adminPassword "your-secret-key-change-this-in-production".

Definition ValidatePassword (s : AuthService) (password : string) : bool :=
  if String.eqb (adminPassword s) "" then true
  else String.eqb password (adminPassword s).

Definition Hour : Duration := 60 * Minute.

(** What [CreateSession] does not decide: the fresh UUID, the two clock
    readings, the clock of the server when it sets the key, and its
    reply. *)
Record Creation : Type := mkCreation
  { new_uuid : string;
    created_now : Time;
    expires_now : Time;
    set_at : Time;
    set_reply : storage.Reply }.

Definition CreateSession (ss : gmap string (storage.Session.t * option Time))
    (env : Creation)
  : (string * option error) * gmap string (storage.Session.t * option Time) :=
  let sessionID := new_uuid env in
  let session :=
    storage.Session.mk sessionID (created_now env)
      (expires_now env + 7 * 24 * Hour) in
  match storage.SaveSession ss session (7 * 24 * Hour) (set_at env)
          (set_reply env) with
  | (ss', Some err) => ((""%string, Some err), ss')
  | (ss', None) => ((sessionID, None), ss')
  end.

(** What [ValidateSession] does not decide: the reply to the lookup and
    the clock of the server at that moment, the clock of the process at
    the expiry check, and the reply to the deletion of an expired
    session. *)
Record Validation : Type := mkValidation
  { get_at : Time;
    get_reply : storage.Reply;
    checked_now : Time;
    del_reply : storage.Reply }.

Definition ValidateSession (s : AuthService)
    (ss : gmap string (storage.Session.t * option Time))
    (sessionID : string) (env : Validation)
  : bool * gmap string (storage.Session.t * option Time) :=
  if String.eqb (adminPassword s) "" then (true, ss)
  else if String.eqb sessionID "" then (false, ss)
  else
    match storage.GetSession ss sessionID (get_at env) (get_reply env) with
    | (Some session, None) =>
        if checked_now env >? storage.Session.ExpiresAt session then
          (false, fst (storage.DeleteSession ss sessionID (del_reply env)))
        else (true, ss)
    | _ => (false, ss)
    end.

Definition DeleteSession
    (ss : gmap string (storage.Session.t * option Time))
    (sessionID : string) (r : storage.Reply)
  : gmap string (storage.Session.t * option Time) * option error :=
  storage.DeleteSession ss sessionID r.

Definition IsAuthRequired (s : AuthService) : bool :=
  negb (String.eqb (adminPassword s) "").

(** [parsed] tells whether [jwt.Parse] accepts the token under the
    secret of the service. *)
Definition ValidateJWT (s : AuthService) (tokenString : string)
    (parsed : string -> string -> bool) : bool :=
  if String.eqb (adminPassword s) "" then true
  else parsed (jwtSecret s) tokenString.

(** *** Keys by identifier *)

Definition GetFullKey (store : storage.Storage) (id : string)
    (r : storage.Reply) : option storage.APIKey.t * option error :=
  storage.GetAPIKey store id r.

(** Nothing is ever put into [localCache]; deleting from it changes
    nothing, and its error is dropped. *)
Definition DeleteKey (store : storage.Storage) (id : string)
    (x : storage.Pipeline) : storage.Storage * option error :=
  storage.DeleteAPIKey store id x.

(** *** The earlier BatchProcess

    The version of [BatchProcess] that submits with [SubmitTask] and
    collects under [time.After(30s)].  In its collection loop a [break]
    leaves the [select], not the [for]. *)

Module earlier.

(** The case that a round of the [select] runs: a result received, the
    result queue found closed, the timer. *)
Inductive selected : Type :=
| Arrived (task : Task.t) (x : HTTPExchange)
| Closed
| TimedOut.

(** What the workers do to the task queue while the key at position [i]
    is submitted, and the rounds of the collection loop for as long as
    they are known. *)
Record Schedule : Type := mkSchedule
  { during_submit : nat -> list worker_step;
    rounds : list selected }.

(** The submission loop: the error of [SubmitTask] is dropped. *)
Fixpoint submit_loop (cap : Z) (sched : Schedule) (i : nat)
    (keys : list storage.APIKey.t) (q : TaskQueue) : TaskQueue :=
  match keys with
  | [] => q
  | key :: rest =>
      let task := Task.mk (storage.APIKey.ID key) (storage.APIKey.Key key) in
      submit_loop cap sched (S i) rest
        (fst (SubmitTask cap task (during_submit sched i) q))
  end.

Section Formatting.

Variable time_Format : string -> Time -> string.

(** [for received < len(keys) { select ... }]: the map at the end of the
    loop, or nothing when the rounds are used up and the loop is still
    going. *)
Fixpoint collectLoop (n received : Z) (rs : list selected)
    (resultMap : gmap string (option models.Usage.t))
  : option (gmap string (option models.Usage.t)) :=
  match rs with
  | [] => if received <? n then None else Some resultMap
  | r :: rest =>
      if received <? n then
        match r with
        | Arrived task x =>
            collectLoop n (received + 1) rest
              (collect resultMap (processTask time_Format task x))
        | Closed => collectLoop n received rest resultMap
        | TimedOut => collectLoop n received rest resultMap
        end
      else Some resultMap
  end.

(** The task queue after the submission loop, and the return value, or
    nothing as long as the call has not returned. *)
Definition BatchProcess (wp : WorkerPool) (keys : list storage.APIKey.t)
    (sched : Schedule)
  : TaskQueue * option (list (option models.Usage.t) * option error) :=
  let q := submit_loop (queueSize wp) sched 0 keys (taskQueue wp) in
  match collectLoop (Z.of_nat (length keys)) 0 (rounds sched) ∅ with
  | None => (q, None)
  | Some resultMap => (q, Some (ordered resultMap keys, None))
  end.

End Formatting.

End earlier.
End services.

(** ** package config *)

Module config.

Record Config : Type := mkConfig
  { Port : string;
    Env : string;
    RedisURL : string;
    RedisPassword : string;
    RedisDB : Z;
    AdminPassword : string;
    SessionTTL : Duration;
    MaxWorkers : Z;
    QueueSize : Z;
    HTTPTimeout : Duration;
    MaxRetries : Z;
    CacheTTL : Duration;
    LocalCacheSize : Z;
    RateLimit : Z;
    RateLimitBurst : Z }.

(** [os.Getenv]: the empty string for a variable that is not set. *)
Definition Getenv (environ : gmap string string) (key : string) : string :=
  default ""%string (environ !! key).

Definition getEnv (environ : gmap string string) (key defaultValue : string)
  : string :=
  let value := Getenv environ key in
  if negb (String.eqb value "") then value else defaultValue.

(** *** strconv.Atoi

    An optional sign, then at least one decimal digit and nothing else;
    the number has to fit 64 bits. *)
Definition digit (c : ascii) : option Z :=
  let n := Z.of_nat (nat_of_ascii c) in
  if (48 <=? n) && (n <=? 57) then Some (n - 48) else None.

Fixpoint digits (acc : Z) (l : list ascii) : option Z :=
  match l with
  | [] => Some acc
  | c :: rest =>
      match digit c with
      | Some d => digits (acc * 10 + d) rest
      | None => None
      end
  end.

Definition magnitude (l : list ascii) : option Z :=
  match l with
  | [] => None
  | _ :: _ => digits 0 l
  end.

Definition Atoi (s : string) : option Z :=
  let signed :=
    match list_ascii_of_string s with
    | "-"%char :: rest => option_map Z.opp (magnitude rest)
    | "+"%char :: rest => magnitude rest
    | l => magnitude l
    end in
  match signed with
  | Some v => if (MinInt64 <=? v) && (v <=? MaxInt64) then Some v else None
  | None => None
  end.

Definition getEnvAsInt (environ : gmap string string) (key : string)
    (defaultValue : Z) : Z :=
  let valueStr := getEnv environ key "" in
  match Atoi valueStr with
  | Some value => value
  | None => defaultValue
  end.

Section Durations.

(** [time.ParseDuration]. *)
Variable ParseDuration : string -> option Duration.

Definition getEnvAsDuration (environ : gmap string string) (key : string)
    (defaultValue : Duration) : Duration :=
  let valueStr := getEnv environ key "" in
  match ParseDuration valueStr with
  | Some value => value
  | None => defaultValue
  end.

Definition Load (environ : gmap string string) : Config :=
  mkConfig
    (getEnv environ "PORT" "8080")
    (getEnv environ "ENV" "development")
    (getEnv environ "REDIS_URL" "redis://localhost:6379/0")
    (getEnv environ "REDIS_PASSWORD" "")
    (getEnvAsInt environ "REDIS_DB" 0)
    (getEnv environ "ADMIN_PASSWORD" "")
    (getEnvAsDuration environ "SESSION_TTL" (7 * 24 * services.Hour))
    (getEnvAsInt environ "MAX_WORKERS" 100)
    (getEnvAsInt environ "QUEUE_SIZE" 10000)
    (getEnvAsDuration environ "HTTP_TIMEOUT" (30 * Second))
    (getEnvAsInt environ "MAX_RETRIES" 3)
    (getEnvAsDuration environ "CACHE_TTL" (5 * Minute))
    (getEnvAsInt environ "LOCAL_CACHE_SIZE" 1000)
    (getEnvAsInt environ "RATE_LIMIT" 100)
    (getEnvAsInt environ "RATE_LIMIT_BURST" 200).

End Durations.

End config.

(** ** package api *)

Module api.

Inductive Body : Type :=
| ErrorResponse (Error : string)
| SuccessResponse (Success : bool) (Message : string)
| ImportResult (result : models.ImportResult.t)
| FullKey (id key : string)
| Text (message : string).

Record Cookie : Type := mkCookie
  { Name : string;
    Value : string;
    Expires : Time;
    HTTPOnly : bool;
    Secure : bool;
    SameSite : string }.

Record Response : Type := mkResponse
  { Status : Z; body : Body; SetCookie : option Cookie }.

(** *** The authentication middleware *)

(** What the middleware reads of a request. *)
Record Request : Type := mkRequest
  { Path : string; session_cookie : string; Authorization : string }.

Inductive verdict : Type :=
| Next
| Unauthorized
| Redirect (location : string).

Definition AuthMiddleware (authService : services.AuthService)
    (ss : gmap string (storage.Session.t * option Time))
    (c : Request) (env : services.Validation)
    (parsed : string -> string -> bool)
  : verdict * gmap string (storage.Session.t * option Time) :=
  let path := Path c in
  if String.eqb path "/health" || String.eqb path "/api/login" then (Next, ss)
  else if negb (services.IsAuthRequired authService) then (Next, ss)
  else
    let sessionID := session_cookie c in
    let '(valid, ss') :=
      if negb (String.eqb sessionID "")
      then services.ValidateSession authService ss sessionID env
      else (false, ss) in
    if valid then (Next, ss')
    else
      let authHeader := Authorization c in
      if negb (String.eqb authHeader "")
         && (len authHeader >? 7)
         && String.eqb (slice authHeader 0 7) "Bearer "
         && services.ValidateJWT authService
              (slice authHeader 7 (len authHeader)) parsed
      then (Next, ss')
      else if (len path >? 4) && String.eqb (slice path 0 4) "/api"
      then (Unauthorized, ss')
      else (Redirect "/login", ss').

(** *** The error handler *)

Inductive handler_error : Type :=
| FiberError (Code : Z) (Message : string)
| OtherError (message : string).

Definition StatusInternalServerError : Z := 500.

(** [c.Path()[:4]] panics on a path of fewer than four bytes. *)
Definition ErrorHandler (path : string) (err : handler_error)
  : outcome Response :=
  let '(code, message) :=
    match err with
    | FiberError Code Message => (Code, Message)
    | OtherError _ =>
        (StatusInternalServerError, "Internal Server Error"%string)
    end in
  if len path <? 4 then
    Panicked
      (String.append "runtime error: slice bounds out of range [:4] with length "
         (pretty (len path)))
  else if String.eqb (slice path 0 4) "/api" then
    Returned (mkResponse code (ErrorResponse message) None)
  else Returned (mkResponse code (Text message) None).

(** *** Handlers

    A handler gets what [BodyParser] or [Params] made of the request;
    [None] is a body that does not parse. *)

Definition Login (authService : services.AuthService)
    (ss : gmap string (storage.Session.t * option Time))
    (req : option string) (env : services.Creation) (cookie_now : Time)
  : Response * gmap string (storage.Session.t * option Time) :=
  match req with
  | None => (mkResponse 400 (ErrorResponse "Invalid request") None, ss)
  | Some Password =>
      if negb (services.ValidatePassword authService Password) then
        (mkResponse 401 (ErrorResponse "Invalid password") None, ss)
      else
        match services.CreateSession ss env with
        | ((_, Some _), ss') =>
            (mkResponse 500 (ErrorResponse "Failed to create session") None,
             ss')
        | ((sessionID, None), ss') =>
            (mkResponse 200 (SuccessResponse true "")
               (Some (mkCookie "session" sessionID
                        (cookie_now + 7 * 24 * services.Hour)
                        true true "Lax")),
             ss')
        end
  end.

Definition Logout (ss : gmap string (storage.Session.t * option Time))
    (sessionID : string) (r : storage.Reply) (cookie_now : Time)
  : Response * gmap string (storage.Session.t * option Time) :=
  let ss' :=
    if negb (String.eqb sessionID "")
    then fst (services.DeleteSession ss sessionID r) else ss in
  (mkResponse 200 (SuccessResponse true "")
     (Some (mkCookie "session" "" (cookie_now - services.Hour)
              true true "Lax")),
   ss').

Definition GetFullKey (store : storage.Storage) (id : string)
    (r : storage.Reply) : Response :=
  if String.eqb id "" then mkResponse 400 (ErrorResponse "Key ID required") None
  else
    match services.GetFullKey store id r with
    | (_, Some err) => mkResponse 500 (ErrorResponse err) None
    | (None, None) => mkResponse 404 (ErrorResponse "Key not found") None
    | (Some key, None) =>
        mkResponse 200
          (FullKey (storage.APIKey.ID key) (storage.APIKey.Key key)) None
    end.

Definition ImportKeys (store : storage.Storage) (req : option (list string))
    (env : services.Import) : Response * storage.Storage :=
  match req with
  | None => (mkResponse 400 (ErrorResponse "Invalid request") None, store)
  | Some Keys =>
      if Z.of_nat (length Keys) =? 0 then
        (mkResponse 400 (ErrorResponse "No keys provided") None, store)
      else
        match services.ImportKeys store Keys env with
        | ((_, Some err), store') =>
            (mkResponse 500 (ErrorResponse err) None, store')
        | ((result, None), store') =>
            (mkResponse 200 (ImportResult result) None, store')
        end
  end.

Definition DeleteKey (store : storage.Storage) (id : string)
    (x : storage.Pipeline) : Response * storage.Storage :=
  if String.eqb id "" then
    (mkResponse 400 (ErrorResponse "Key ID required") None, store)
  else
    match services.DeleteKey store id x with
    | (store', Some err) => (mkResponse 500 (ErrorResponse err) None, store')
    | (store', None) => (mkResponse 200 (SuccessResponse true "") None, store')
    end.

(** The body is a key and a name. *)
Definition AddKey (store : storage.Storage) (req : option (string * string))
    (env : services.Import) : Response * storage.Storage :=
  match req with
  | None => (mkResponse 400 (ErrorResponse "Invalid request") None, store)
  | Some (Key, Name) =>
      if String.eqb Key "" then
        (mkResponse 400 (ErrorResponse "Key is required") None, store)
      else
        match services.ImportKeys store [Key] env with
        | ((_, Some err), store') =>
            (mkResponse 500 (ErrorResponse err) None, store')
        | ((result, None), store') =>
            if models.ImportResult.Success result >? 0 then
              (mkResponse 200 (SuccessResponse true "Key added successfully")
                 None, store')
            else if models.ImportResult.Duplicates result >? 0 then
              (mkResponse 400 (ErrorResponse "Key already exists") None,
               store')
            else
              (mkResponse 500 (ErrorResponse "Failed to add key") None, store')
        end
  end.

End api.

Import services.

(** ** Sample data for the examples below *)

(** A stand-in for [t.Format(layout)]: the layout itself. *)
Definition layout_only (layout : string) (t : Time) : string := layout.

Definition sample_import : Import :=
  mkImport storage.Done (fun _ => "1a2b3c4d"%string)
    (fun _ => 1700000000 * Second) (fun _ => 1700000000 * Second)
    (fun _ => storage.Done).

(** A store that holds the one credential ["A"]. *)
Definition store_with_A : storage.Storage :=
  storage.mkStorage
    [storage.APIKey.mk "key-0" "A" "Key key-0" (1600000000 * Second)] ∅.

Definition key_1 : storage.APIKey.t :=
  storage.APIKey.mk "key-1" "fk-0123456789abcdef" "Key key-1"
    (1600000000 * Second).
Definition key_2 : storage.APIKey.t :=
  storage.APIKey.mk "key-2" "fk-aaaabbbbccccdddd" "Key key-2"
    (1600000001 * Second).
Definition key_3 : storage.APIKey.t :=
  storage.APIKey.mk "key-3" "fk-eeeeffff00001111" "Key key-3"
    (1600000002 * Second).

(** Two workers, room for one task, nothing queued. *)
Definition sample_pool : WorkerPool := mkPool 2 1 (mkQueue [] 0 []).

(** A worker takes the first task before the second is sent and no
    worker comes back for more; the collection loop sees a tick, the
    result of the fetch for [key_1], which failed in transport, another
    tick and the deadline. *)
Definition sample_sched : Schedule :=
  mkSchedule (fun i => if Nat.eqb i 1 then [Take] else []) (fun _ => [])
    [Ticked; Arrived (Task.mk "key-1" "fk-0123456789abcdef")
               (DoFailed "i/o timeout");
     Ticked; Expired].

(** The record cached for [key_2]. *)
Definition usage_2 : storage.Usage.t :=
  storage.Usage.mk "key-2" "2025-01-01" "2025-02-01" 1000 375 625 0.375
    (1700000000 * Second) "".

(** Two keys; only the second has a cached record. *)
Definition sample_store : storage.Storage :=
  storage.mkStorage [key_1; key_2] {[ "key-2"%string := usage_2 ]}.

Definition sample_service : APIKeyService := NewAPIKeyService sample_pool.

(** A run one minute after [usage_2] was written: every command reaches
    the store, and the fetch for [key_1] is answered with status 200. *)
Definition sample_run : Run :=
  mkRun storage.Done (fun _ => storage.Done)
    (fun _ => 1700000060 * Second)
    (mkSchedule (fun _ => []) (fun _ => [])
       [Arrived (Task.mk "key-1" "fk-0123456789abcdef")
          (Response StatusOK
             (inr (models.FactoryAPIResponse.mk 1735689600000 1738368000000
                     250 2000 0.125))
             (1700000061 * Second))])
    (fun _ => true)
    (1700000062 * Second).

(** An authentication service with a password, and a login at a known
    instant whose session the store accepts. *)
Definition sample_auth : AuthService := NewAuthService "s3cret".

Definition sample_creation : Creation :=
  mkCreation "0b5cfa32-7d0e-4d3a-9a51-1c2f6f0e8a77"
    (1700000000 * Second) (1700000000 * Second) (1700000000 * Second)
    storage.Done.

(** A check one hour later that reaches the store. *)
Definition sample_validation : Validation :=
  mkValidation (1700003600 * Second) storage.Done (1700003600 * Second)
    storage.Done.

(** * Properties *)

(** ** Arithmetic on 64-bit integers *)

Lemma wrap64_small (z : Z) : MinInt64 <= z <= MaxInt64 -> wrap64 z = z.
Proof.
  unfold wrap64, MinInt64, MaxInt64. intros H.
  rewrite Z.mod_small; lia.
Qed.

(** Wrapping an operand first does not change the wrapped result. *)
Lemma wrap64_mul_l (a b : Z) : wrap64 (wrap64 a * b) = wrap64 (a * b).
Proof.
  unfold wrap64.
  replace (((a + 2 ^ 63) mod 2 ^ 64 - 2 ^ 63) * b + 2 ^ 63)
    with ((a + 2 ^ 63) mod 2 ^ 64 * b + (2 ^ 63 - 2 ^ 63 * b)) by ring.
  replace (a * b + 2 ^ 63) with ((a + 2 ^ 63) * b + (2 ^ 63 - 2 ^ 63 * b))
    by ring.
  rewrite <- (Z.add_mod_idemp_l ((a + 2 ^ 63) mod 2 ^ 64 * b)) by lia.
  rewrite Z.mul_mod_idemp_l by lia.
  rewrite Z.add_mod_idemp_l by lia. reflexivity.
Qed.

Lemma wrap64_add_r (a b : Z) : wrap64 (a + wrap64 b) = wrap64 (a + b).
Proof.
  unfold wrap64.
  replace (a + ((b + 2 ^ 63) mod 2 ^ 64 - 2 ^ 63) + 2 ^ 63)
    with (a + (b + 2 ^ 63) mod 2 ^ 64) by ring.
  rewrite Z.add_mod_idemp_r by lia. f_equal. f_equal. ring.
Qed.


(** ** The deadline of a batch *)

(** The deadline before the cap, whatever the operands: the exact sum,
    reduced to 64 bits once. *)
Lemma batchTimeout_wrapped (w n : Z) :
  w <> 0 ->
  batchTimeout w n
  = Some (let t := wrap64 (30 * Second + Z.quot n w * (2 * Second)) in
          if t >? 5 * Minute then 5 * Minute else t).
Proof.
  intros Hw. unfold batchTimeout, div64.
  destruct (Z.eqb_spec w 0); [contradiction|].
  cbv beta iota zeta. unfold add64, mul64.
  rewrite wrap64_mul_l.
  replace (wrap64 (Z.quot n w) * 2 * Second)
    with (wrap64 (Z.quot n w) * (2 * Second)) by ring.
  rewrite wrap64_mul_l, wrap64_add_r. reflexivity.
Qed.

(** C4 (as amended).  For a pool whose worker count is not zero and a
    batch of [n] keys, as long as [30s + (n / w) * 2s] fits a Duration
    (the division truncates), the deadline is [30s + (n / w) * 2s] capped
    at five minutes.  It is at most five minutes, and at least thirty
    seconds when the quotient is not negative: for every pool with at
    least one worker. *)
Theorem batchTimeout_spec (w n : Z) :
  w <> 0 ->
  MinInt64 <= 30 * Second + Z.quot n w * (2 * Second) <= MaxInt64 ->
  exists d,
    batchTimeout w n = Some d
    /\ d = Z.min (30 * Second + Z.quot n w * (2 * Second)) (5 * Minute)
    /\ d <= 5 * Minute
    /\ (0 <= Z.quot n w -> 30 * Second <= d)
    /\ (1 <= w -> 0 <= n -> Z.quot n w = n / w /\ 30 * Second <= d).
Proof.
  intros Hw Hfit. rewrite batchTimeout_wrapped by assumption.
  rewrite wrap64_small by assumption. cbv zeta.
  assert (Hq : 1 <= w -> 0 <= n -> Z.quot n w = n / w /\ 0 <= Z.quot n w).
  { intros H1 H0. rewrite Z.quot_div_nonneg by lia.
    split; [reflexivity | apply Z.div_pos; lia]. }
  revert Hfit Hq. generalize (Z.quot n w). intros q Hfit Hq.
  assert (Hs : Second = 1000000000) by reflexivity.
  assert (Hm : Minute = 60000000000) by reflexivity.
  eexists. split; [reflexivity|].
  destruct (Z.gtb_spec (30 * Second + q * (2 * Second)) (5 * Minute)).
  - split; [lia|]. split; [lia|]. split; [lia|].
    intros H1 H0. destruct (Hq H1 H0). split; [assumption | lia].
  - split; [lia|]. split; [lia|]. split; [lia|].
    intros H1 H0. destruct (Hq H1 H0). split; [assumption | lia].
Qed.

Lemma batchTimeout_spec_witness :
  exists d,
    batchTimeout 100 5000 = Some d
    /\ d = Z.min (30 * Second + Z.quot 5000 100 * (2 * Second)) (5 * Minute)
    /\ d <= 5 * Minute
    /\ (0 <= Z.quot 5000 100 -> 30 * Second <= d)
    /\ (1 <= 100 -> 0 <= 5000 ->
        Z.quot 5000 100 = 5000 / 100 /\ 30 * Second <= d).
Proof.
  apply (batchTimeout_spec 100 5000); [lia|].
  vm_compute. split; discriminate.
Defined.

(** C4 (as stated) fails outside that range: with a negative worker
    count the deadline is below thirty seconds, with none there is no
    deadline at all, and a quotient beyond 4611686003 wraps around. *)
Lemma batchTimeout_counterexample :
  batchTimeout (-1) 100 = Some (-170 * Second)
  /\ ~ (30 * Second <= -170 * Second)
  /\ batchTimeout 0 100 = None
  /\ batchTimeout 1 4611686004 = Some (-9223372035709551616)
  /\ ~ (30 * Second <= -9223372035709551616).
Proof.
  repeat split; try reflexivity; vm_compute; intros H; apply H; reflexivity.
Qed.

(** ** Masking *)

Local Open Scope string_scope.

Lemma append_nil_l (s : string) : "" ++ s = s.
Proof. reflexivity. Qed.

Lemma append_cons (a : ascii) (s t : string) :
  String a s ++ t = String a (s ++ t).
Proof. reflexivity. Qed.

Lemma append_nil_r (s : string) : s ++ "" = s.
Proof.
  induction s as [|a s IH]; [reflexivity|].
  rewrite append_cons. now f_equal.
Qed.

Lemma substring_all (s : string) : substring 0 (String.length s) s = s.
Proof. induction s as [|a s IH]; simpl; [reflexivity | now f_equal]. Qed.

Lemma substring_none (n : nat) (s : string) : substring n 0 s = "".
Proof.
  revert s. induction n as [|n IH]; intros [|a s]; simpl; auto.
Qed.

Lemma substring_split (n : nat) (s : string) :
  (n <= String.length s)%nat ->
  s = substring 0 n s ++ substring n (String.length s - n) s
  /\ String.length (substring 0 n s) = n.
Proof.
  revert s. induction n as [|n IH]; intros s Hn.
  - rewrite substring_none, append_nil_l, Nat.sub_0_r, substring_all.
    split; reflexivity.
  - destruct s as [|a s]; simpl in Hn; [lia|].
    destruct (IH s ltac:(lia)) as [Hs Hl]. simpl.
    rewrite append_cons. split.
    + f_equal. exact Hs.
    + now f_equal.
Qed.

Lemma substring_tail (n m : nat) (s : string) :
  (n + m <= String.length s)%nat ->
  substring n (String.length s - n) s
  = substring n m s ++ substring (n + m) (String.length s - (n + m)) s
  /\ String.length (substring n m s) = m.
Proof.
  revert s. induction n as [|n IH]; intros s Hn.
  - simpl (0 + m)%nat. destruct (substring_split m s Hn) as [Hs Hl].
    split; [|exact Hl]. rewrite Nat.sub_0_r, substring_all. exact Hs.
  - destruct s as [|a s]; simpl in Hn; [lia|]. simpl.
    apply IH. lia.
Qed.

Lemma length_append (a b : string) :
  String.length (a ++ b) = (String.length a + String.length b)%nat.
Proof.
  induction a as [|c a IH]; [reflexivity|].
  rewrite append_cons. simpl. now f_equal.
Qed.

(** A long credential is its first four characters, a middle and its
    last four characters; [maskKey] replaces the middle by three dots. *)
Lemma maskKey_long (key : string) :
  9 <= len key ->
  exists a mid b,
    key = a ++ mid ++ b
    /\ String.length a = 4%nat /\ String.length b = 4%nat
    /\ maskKey key = a ++ "..." ++ b
    /\ slice key 0 4 = a /\ slice key (len key - 4) (len key) = b.
Proof.
  unfold len. intros Hlen.
  destruct (substring_split 4 key ltac:(lia)) as [H1 Ha].
  destruct (substring_tail 4 (String.length key - 8) key ltac:(lia)) as [H2 _].
  replace (4 + (String.length key - 8))%nat with (String.length key - 4)%nat
    in H2 by lia.
  replace (String.length key - (String.length key - 4))%nat with 4%nat
    in H2 by lia.
  destruct (substring_tail (String.length key - 4) 4 key ltac:(lia)) as [_ Hb].
  exists (substring 0 4 key), (substring 4 (String.length key - 8) key),
    (substring (String.length key - 4) 4 key).
  assert (Hs1 : slice key 0 4 = substring 0 4 key) by reflexivity.
  assert (Hs2 : slice key (len key - 4) (len key)
                = substring (String.length key - 4) 4 key).
  { unfold slice, len. f_equal; lia. }
  repeat split; auto.
  - rewrite <- H2. exact H1.
  - unfold maskKey, len.
    destruct (Z.leb_spec (Z.of_nat (String.length key)) 8); [lia|].
    unfold Sprintf_s_dots_s. fold (len key). now rewrite Hs1, Hs2.
Qed.

Lemma maskKey_short (key : string) : len key <= 8 -> maskKey key = key.
Proof.
  intros H. unfold maskKey.
  destruct (Z.leb_spec (len key) 8); [reflexivity | lia].
Qed.

(** The [Key] field of a fetched record. *)
Lemma fetched_Key fmt (id apiKey : string) resp now usage :
  fetchUsageFromAPI fmt id apiKey (Response StatusOK (inr resp) now)
    = (Some usage, None) ->
  models.Usage.Key usage
  = slice apiKey 0 (services.min 4 (len apiKey)) ++ "..."
    ++ slice apiKey (services.max 0 (len apiKey - 4)) (len apiKey).
Proof.
  simpl. intros H. injection H as <-. reflexivity.
Qed.

Lemma min_is_Zmin (a b : Z) : services.min a b = Z.min a b.
Proof. unfold services.min. destruct (Z.ltb_spec a b); lia. Qed.

Lemma max_is_Zmax (a b : Z) : services.max a b = Z.max a b.
Proof.
  unfold services.max. destruct (Z.gtb_spec a b); lia.
Qed.

(** The two slices taken by the fetcher never leave the credential: they
    are its first and its last [min 4 (len apiKey)] characters. *)
Lemma fetch_slices (apiKey : string) :
  exists a rest front b,
    apiKey = a ++ rest /\ apiKey = front ++ b
    /\ slice apiKey 0 (services.min 4 (len apiKey)) = a
    /\ slice apiKey (services.max 0 (len apiKey - 4)) (len apiKey) = b
    /\ len a = Z.min 4 (len apiKey) /\ len b = Z.min 4 (len apiKey).
Proof.
  rewrite min_is_Zmin, max_is_Zmax. unfold len, slice.
  set (n := String.length apiKey).
  destruct (substring_split (Z.to_nat (Z.min 4 (Z.of_nat n))) apiKey
              ltac:(fold n; lia)) as [Ha Hla].
  destruct (substring_split (Z.to_nat (Z.max 0 (Z.of_nat n - 4))) apiKey
              ltac:(fold n; lia)) as [Hb Hlb].
  fold n in Ha, Hb.
  replace (Z.to_nat (Z.min 4 (Z.of_nat n) - 0))
    with (Z.to_nat (Z.min 4 (Z.of_nat n))) by lia.
  replace (Z.to_nat (Z.of_nat n - Z.max 0 (Z.of_nat n - 4)))
    with (n - Z.to_nat (Z.max 0 (Z.of_nat n - 4)))%nat by lia.
  do 4 eexists. split; [exact Ha|]. split; [exact Hb|].
  split; [reflexivity|]. split; [reflexivity|]. split; [lia|].
  assert (Hn : String.length apiKey = n) by reflexivity.
  rewrite Hb in Hn at 1. rewrite length_append, Hlb in Hn. lia.
Qed.

(** C2 (as amended).  [maskKey], which fills the [Masked] field of the
    key listing, returns a credential of at most eight characters
    unchanged and shows a longer one as its first four characters, three
    dots and its last four characters.  The [Key] field of a freshly
    fetched record is always the first [min 4 n] characters, three dots
    and the last [min 4 n] characters of the credential of length [n]: the
    same text as [maskKey] from nine characters on, and for a credential
    of at most eight characters never the credential itself. *)
Theorem masking_spec fmt (id key : string) resp now :
  (len key <= 8 -> maskKey key = key)
  /\ (9 <= len key ->
      exists a mid b usage,
        key = a ++ mid ++ b
        /\ len a = 4 /\ len b = 4
        /\ maskKey key = a ++ "..." ++ b
        /\ fetchUsageFromAPI fmt id key (Response StatusOK (inr resp) now)
           = (Some usage, None)
        /\ models.Usage.Key usage = a ++ "..." ++ b)
  /\ (exists a rest front b usage,
        key = a ++ rest /\ key = front ++ b
        /\ len a = Z.min 4 (len key) /\ len b = Z.min 4 (len key)
        /\ fetchUsageFromAPI fmt id key (Response StatusOK (inr resp) now)
           = (Some usage, None)
        /\ models.Usage.Key usage = a ++ "..." ++ b)
  /\ (forall store listed,
        GetAllKeys store storage.Done = (Some listed, None) ->
        map models.APIKeyMasked.Masked listed
        = map (fun k => maskKey (storage.APIKey.Key k)) (storage.keys store))
  /\ (len key <= 8 ->
      forall usage,
        fetchUsageFromAPI fmt id key (Response StatusOK (inr resp) now)
        = (Some usage, None) ->
        models.Usage.Key usage <> key).
Proof.
  split; [apply maskKey_short|]. split; [|split; [|split]].
  - intros Hlen.
    destruct (maskKey_long key Hlen) as (a & mid & b & Hk & Ha & Hb & Hm & Hsa & Hsb).
    exists a, mid, b. eexists. split; [exact Hk|].
    unfold len. split; [lia|]. split; [lia|]. split; [exact Hm|].
    split; [reflexivity|]. simpl.
    rewrite min_is_Zmin, max_is_Zmax.
    replace (Z.min 4 (len key)) with 4 by lia.
    replace (Z.max 0 (len key - 4)) with (len key - 4) by lia.
    now rewrite Hsa, Hsb.
  - destruct (fetch_slices key) as (a & rest & front & b & H1 & H2 & H3 & H4 & H5 & H6).
    exists a, rest, front, b. eexists.
    split; [exact H1|]. split; [exact H2|]. split; [exact H5|].
    split; [exact H6|]. split; [reflexivity|]. simpl. now rewrite H3, H4.
  - intros store listed H. unfold GetAllKeys in H. simpl in H.
    injection H as <-. rewrite map_map. reflexivity.
  - intros Hlen usage Hf Heq.
    destruct (fetch_slices key) as (a & rest & front & b & _ & _ & H3 & H4 & H5 & H6).
    simpl in Hf. injection Hf as <-. simpl in Heq. rewrite H3, H4 in Heq.
    apply (f_equal String.length) in Heq.
    unfold Sprintf_s_dots_s in Heq. rewrite !length_append in Heq.
    unfold len in *. simpl in Heq. lia.
Qed.

Lemma masking_spec_witness :
  maskKey "fk-short" = "fk-short"
  /\ exists a mid b usage,
       "fk-0123456789abcdef" = a ++ mid ++ b
       /\ len a = 4 /\ len b = 4
       /\ maskKey "fk-0123456789abcdef" = a ++ "..." ++ b
       /\ fetchUsageFromAPI layout_only "key-1" "fk-0123456789abcdef"
            (Response StatusOK
               (inr (models.FactoryAPIResponse.mk 0 0 1 2 0.5)) 0)
          = (Some usage, None)
       /\ models.Usage.Key usage = a ++ "..." ++ b.
Proof.
  split.
  - apply (masking_spec layout_only "key-1" "fk-short"
             (models.FactoryAPIResponse.mk 0 0 1 2 0.5) 0).
    vm_compute. discriminate.
  - apply (masking_spec layout_only "key-1" "fk-0123456789abcdef"
             (models.FactoryAPIResponse.mk 0 0 1 2 0.5) 0).
    vm_compute. discriminate.
Defined.

(** C2 (as stated) fails for the record of a fetch: a credential of six
    characters is not returned unchanged, its two ends overlap. *)
Lemma masking_counterexample :
  len "abcdef" <= 8
  /\ exists usage,
       fetchUsageFromAPI layout_only "key-1" "abcdef"
         (Response StatusOK
            (inr (models.FactoryAPIResponse.mk 0 0 1 2 0.5)) 0)
       = (Some usage, None)
       /\ models.Usage.Key usage = "abcd...cdef"
       /\ models.Usage.Key usage <> "abcdef".
Proof.
  split; [vm_compute; discriminate|].
  eexists. split; [reflexivity|]. split; [reflexivity|]. discriminate.
Qed.

Local Close Scope string_scope.

(** ** strings.TrimSpace is idempotent *)

Lemma strip_prefix_app (p : list ascii) : forall l l',
  strip_prefix p l = Some l' -> l = (p ++ l')%list.
Proof.
  induction p as [|a p IH]; intros l l' H; simpl in H.
  - now injection H as ->.
  - destruct l as [|b l]; [discriminate|].
    destruct (Ascii.eqb_spec a b) as [->|]; [|discriminate].
    simpl. f_equal. now apply IH.
Qed.

Lemma strip_prefix_more (p : list ascii) : forall l l' t,
  strip_prefix p l = Some l' -> strip_prefix p (l ++ t) = Some (l' ++ t)%list.
Proof.
  induction p as [|a p IH]; intros l l' t H; simpl in H.
  - now injection H as ->.
  - destruct l as [|b l]; [discriminate|]. simpl.
    destruct (Ascii.eqb a b); [|discriminate]. now apply IH.
Qed.

Lemma strip_rune_shorter (runes : list (list ascii)) :
  Forall (fun r => r <> []) runes ->
  forall l l', strip_rune runes l = Some l' ->
    (length l' < length l)%nat /\ exists r, l = (r ++ l')%list.
Proof.
  induction 1 as [|r runes Hr _ IH]; intros l l' H; simpl in H; [discriminate|].
  destruct (strip_prefix r l) as [l0|] eqn:Hp; [|now apply IH].
  injection H as ->. apply strip_prefix_app in Hp. subst l.
  split; [|now exists r]. rewrite length_app.
  destruct r; [contradiction|]. simpl. lia.
Qed.

Lemma strip_rune_more (runes : list (list ascii)) : forall l t,
  strip_rune runes (l ++ t) = None -> strip_rune runes l = None.
Proof.
  induction runes as [|r runes IH]; intros l t H; simpl in *; [reflexivity|].
  destruct (strip_prefix r l) as [l0|] eqn:Hp.
  - now rewrite (strip_prefix_more _ _ _ t Hp) in H.
  - destruct (strip_prefix r (l ++ t)); [discriminate|]. now apply IH in H.
Qed.

Lemma trim_runes_done (runes : list (list ascii)) :
  Forall (fun r => r <> []) runes ->
  forall fuel l, (length l <= fuel)%nat ->
    strip_rune runes (trim_runes fuel runes l) = None
    /\ exists p, l = (p ++ trim_runes fuel runes l)%list.
Proof.
  intros Hne. induction fuel as [|fuel IH]; intros l Hl.
  - destruct l; [|simpl in Hl; lia]. simpl. split; [|now exists []].
    destruct (strip_rune runes []) as [l'|] eqn:E; [|reflexivity].
    apply (strip_rune_shorter _ Hne) in E as [E _]. simpl in E. lia.
  - simpl. destruct (strip_rune runes l) as [l'|] eqn:E.
    + destruct (strip_rune_shorter _ Hne _ _ E) as [Hlt [r ->]].
      destruct (IH l' ltac:(lia)) as [Hnone [p Hp]].
      split; [assumption|]. exists (r ++ p)%list.
      rewrite <- app_assoc. now rewrite <- Hp.
    + split; [assumption | now exists []].
Qed.

Lemma trim_runes_fixed (runes : list (list ascii)) fuel l :
  strip_rune runes l = None -> trim_runes fuel runes l = l.
Proof. intros H. destruct fuel; simpl; [reflexivity | now rewrite H]. Qed.

Lemma space_runes_nonempty : Forall (fun r => r <> []) space_runes.
Proof. unfold space_runes. simpl. repeat constructor; discriminate. Qed.

Lemma rev_space_runes_nonempty :
  Forall (fun r => r <> []) (map (@rev ascii) space_runes).
Proof. unfold space_runes. simpl. repeat constructor; discriminate. Qed.

Lemma TrimLeftSpace_fixed (l : list ascii) :
  strip_rune space_runes l = None -> TrimLeftSpace l = l.
Proof. apply trim_runes_fixed. Qed.

Lemma TrimRight_Left_fixed (l : list ascii) :
  let t := TrimRightSpace (TrimLeftSpace l) in
  TrimLeftSpace t = t /\ TrimRightSpace t = t.
Proof.
  intros t. subst t. set (y := TrimLeftSpace l).
  destruct (trim_runes_done _ space_runes_nonempty (length l) l (le_n _))
    as [Hy _]. fold (TrimLeftSpace l) in Hy. fold y in Hy.
  destruct (trim_runes_done _ rev_space_runes_nonempty (length y) (rev y))
    as [Hz [p Hp]]; [now rewrite length_rev|].
  unfold TrimRightSpace at 2 4.
  set (z := trim_runes (length y) (map (@rev ascii) space_runes) (rev y)) in *.
  split.
  - apply TrimLeftSpace_fixed.
    apply (strip_rune_more _ _ (rev p)).
    rewrite <- rev_app_distr, <- Hp, rev_involutive. exact Hy.
  - unfold TrimRightSpace. rewrite rev_involutive.
    now rewrite trim_runes_fixed.
Qed.

Lemma TrimSpace_idempotent (s : string) : TrimSpace (TrimSpace s) = TrimSpace s.
Proof.
  unfold TrimSpace. rewrite list_ascii_of_string_of_list_ascii.
  destruct (TrimRight_Left_fixed (list_ascii_of_string s)) as [H1 H2].
  now rewrite H1, H2.
Qed.

(** [ImportKeys] only ever stores trimmed, non-blank credentials. *)
Lemma import_one_keeps_trimmed env i e st :
  (forall k, k ∈ storage.keys (store_now st) ->
     TrimSpace (storage.APIKey.Key k) = storage.APIKey.Key k
     /\ storage.APIKey.Key k <> ""%string) ->
  forall k, k ∈ storage.keys (store_now (import_one env i e st)) ->
    TrimSpace (storage.APIKey.Key k) = storage.APIKey.Key k
    /\ storage.APIKey.Key k <> ""%string.
Proof.
  intros Hwf k. unfold import_one.
  destruct (String.eqb_spec (TrimSpace e) "") as [|Hne]; [apply Hwf|].
  destruct (known _ _); [apply Hwf|].
  destruct (saved env i); simpl; [|apply Hwf].
  intros Hin. apply elem_of_app in Hin as [Hin|Hin].
  - apply list_elem_of_filter in Hin as [_ Hin]. now apply Hwf.
  - apply list_elem_of_singleton in Hin as ->. simpl.
    split; [apply TrimSpace_idempotent | assumption].
Qed.

Lemma ImportKeys_keeps_trimmed store (keys : list string) env :
  (forall k, k ∈ storage.keys store ->
     TrimSpace (storage.APIKey.Key k) = storage.APIKey.Key k
     /\ storage.APIKey.Key k <> ""%string) ->
  forall k, k ∈ storage.keys (snd (ImportKeys store keys env)) ->
    TrimSpace (storage.APIKey.Key k) = storage.APIKey.Key k
    /\ storage.APIKey.Key k <> ""%string.
Proof.
  intros Hwf. unfold ImportKeys.
  destruct (listed env); simpl; [|exact Hwf].
  assert (H : forall st,
    (forall k, k ∈ storage.keys (store_now st) ->
       TrimSpace (storage.APIKey.Key k) = storage.APIKey.Key k
       /\ storage.APIKey.Key k <> ""%string) ->
    forall i k, k ∈ storage.keys (store_now (import_loop env i keys st)) ->
       TrimSpace (storage.APIKey.Key k) = storage.APIKey.Key k
       /\ storage.APIKey.Key k <> ""%string).
  { induction keys as [|e keys IH]; intros st Hst i; simpl; [exact Hst|].
    apply IH. now apply import_one_keeps_trimmed. }
  apply H. exact Hwf.
Qed.

(** ** ImportKeys *)

Local Open Scope Z_scope.

Lemma import_one_blank env i e st :
  TrimSpace e = ""%string -> import_one env i e st = st.
Proof. intros H. unfold import_one. now rewrite H. Qed.

Lemma import_one_counts env i e st :
  TrimSpace e <> ""%string ->
  let r := result st in
  let r' := result (import_one env i e st) in
  models.ImportResult.Success r' + models.ImportResult.Failed r'
  + models.ImportResult.Duplicates r'
  = models.ImportResult.Success r + models.ImportResult.Failed r
    + models.ImportResult.Duplicates r + 1.
Proof.
  intros H. unfold import_one.
  destruct (String.eqb_spec (TrimSpace e) ""); [contradiction|].
  destruct (known _ _); simpl; [lia|].
  destruct (saved env i); simpl; lia.
Qed.

Lemma import_loop_counts env keys : forall i st,
  let r := result st in
  let r' := result (import_loop env i keys st) in
  models.ImportResult.Success r' + models.ImportResult.Failed r'
  + models.ImportResult.Duplicates r'
  = models.ImportResult.Success r + models.ImportResult.Failed r
    + models.ImportResult.Duplicates r
    + Z.of_nat (length (filter (fun e => TrimSpace e <> ""%string) keys)).
Proof.
  induction keys as [|e keys IH]; intros i st; simpl; [lia|].
  rewrite IH. rewrite filter_cons.
  destruct (decide (TrimSpace e <> ""%string)) as [Hne|Heq].
  - pose proof (import_one_counts env i e st Hne) as H. simpl in H.
    rewrite H. simpl length. lia.
  - rewrite import_one_blank; [lia|].
    destruct (String.eqb_spec (TrimSpace e) ""); [assumption|contradiction].
Qed.

Lemma import_loop_app env l1 : forall l2 i st,
  import_loop env i (l1 ++ l2) st
  = import_loop env (i + length l1) l2 (import_loop env i l1 st).
Proof.
  induction l1 as [|e l1 IH]; intros l2 i st; simpl.
  - now rewrite Nat.add_0_r.
  - rewrite IH. f_equal. lia.
Qed.

Lemma import_loop_snoc env l e i st :
  import_loop env i (l ++ [e]) st
  = import_one env (i + length l) e (import_loop env i l st).
Proof. now rewrite import_loop_app. Qed.

(** The map of known credentials only grows. *)
Lemma known_import_one env i e st k :
  known (existingMap st) k = true ->
  known (existingMap (import_one env i e st)) k = true.
Proof.
  intros H. unfold import_one.
  destruct (String.eqb _ _); [assumption|].
  destruct (known (existingMap st) (TrimSpace e)); [assumption|].
  destruct (saved env i); simpl; [|assumption].
  unfold known. destruct (decide (TrimSpace e = k)) as [->|Hne].
  - now rewrite lookup_insert_eq.
  - now rewrite lookup_insert_ne.
Qed.

Lemma known_import_loop env keys : forall i st k,
  known (existingMap st) k = true ->
  known (existingMap (import_loop env i keys st)) k = true.
Proof.
  induction keys as [|e keys IH]; intros i st k H; simpl; [assumption|].
  apply IH. now apply known_import_one.
Qed.

Lemma known_fold_insert (existingKeys : list storage.APIKey.t) : forall m k,
  known m k = true \/ (exists key, key ∈ existingKeys /\ storage.APIKey.Key key = k) ->
  known (fold_left (fun m key => <[storage.APIKey.Key key := true]> m)
           existingKeys m) k = true.
Proof.
  induction existingKeys as [|key rest IH]; intros m k H; simpl.
  - destruct H as [H|(key & Hin & _)]; [assumption|]. inversion Hin.
  - apply IH.
    destruct (decide (storage.APIKey.Key key = k)) as [<-|Hne].
    + left. unfold known. now rewrite lookup_insert_eq.
    + destruct H as [H|(key' & Hin & Hk)].
      * left. unfold known. now rewrite lookup_insert_ne.
      * apply elem_of_cons in Hin as [->|Hin]; [contradiction|].
        right. now exists key'.
Qed.

(** An entry whose save went through is known from then on. *)
Lemma import_one_success env i e st :
  models.ImportResult.Success (result (import_one env i e st))
  = models.ImportResult.Success (result st) + 1 ->
  TrimSpace e <> ""%string
  /\ known (existingMap (import_one env i e st)) (TrimSpace e) = true.
Proof.
  unfold import_one.
  destruct (String.eqb_spec (TrimSpace e) "") as [Heq|Hne]; [lia|].
  destruct (known (existingMap st) (TrimSpace e)); simpl; [lia|].
  destruct (saved env i); simpl; [|lia].
  intros _. split; [assumption|]. unfold known. now rewrite lookup_insert_eq.
Qed.

Lemma import_one_duplicate env i e st :
  TrimSpace e <> ""%string ->
  known (existingMap st) (TrimSpace e) = true ->
  import_one env i e st
  = mkImportState
      (models.ImportResult.mk
         (models.ImportResult.Success (result st))
         (models.ImportResult.Failed (result st))
         (models.ImportResult.Duplicates (result st) + 1))
      (existingMap st) (store_now st).
Proof.
  intros Hne Hk. unfold import_one.
  destruct (String.eqb_spec (TrimSpace e) ""); [contradiction|].
  now rewrite Hk.
Qed.

(** C8.  Against an empty store and with every save going through, the
    entries ["A"; "A"; "B"] give two successes, one duplicate and no
    failure.  In general, when the credentials in the store are trimmed
    and not blank (as [ImportKeys] saves them), an entry that is equal to
    a stored credential, or to an earlier entry of the batch whose import
    succeeded, adds one to the duplicates and nothing to the successes or
    the failures, and leaves the store as it is. *)
Theorem ImportKeys_duplicates :
  (forall uuid8 id_clock created_clock,
     fst (ImportKeys (storage.mkStorage [] ∅) ["A"; "A"; "B"]%string
            (mkImport storage.Done uuid8 id_clock created_clock
               (fun _ => storage.Done)))
     = (models.ImportResult.mk 2 0 1, None))
  /\ (forall store env pre e,
        (forall k, k ∈ storage.keys store ->
           TrimSpace (storage.APIKey.Key k) = storage.APIKey.Key k
           /\ storage.APIKey.Key k <> ""%string) ->
        ((exists k, k ∈ storage.keys store /\ storage.APIKey.Key k = e)
         \/ (exists j, pre !! j = Some e
               /\ models.ImportResult.Success
                    (result (import_loop env 0 (take (S j) pre)
                               (import_start store (storage.keys store))))
                  = models.ImportResult.Success
                      (result (import_loop env 0 (take j pre)
                                 (import_start store (storage.keys store))))
                    + 1)) ->
        let before :=
          import_loop env 0 pre (import_start store (storage.keys store)) in
        let after := import_one env (length pre) e before in
        result after
        = models.ImportResult.mk
            (models.ImportResult.Success (result before))
            (models.ImportResult.Failed (result before))
            (models.ImportResult.Duplicates (result before) + 1)
        /\ store_now after = store_now before
        /\ forall post,
             import_loop env 0 (pre ++ e :: post)
               (import_start store (storage.keys store))
             = import_loop env (S (length pre)) post after).
Proof.
  split.
  - intros u c1 c2. vm_compute. reflexivity.
  - intros store env pre e Hwf Hdup before after.
    assert (Hknown : TrimSpace e <> ""%string
                     /\ known (existingMap before) (TrimSpace e) = true).
    { destruct Hdup as [(k & Hin & <-)|(j & Hj & Hs)].
      - destruct (Hwf k Hin) as [Ht Hne]. rewrite Ht. split; [assumption|].
        apply known_import_loop. apply known_fold_insert. right. now exists k.
      - rewrite (take_S_r _ _ _ Hj), import_loop_snoc in Hs.
        apply import_one_success in Hs as [Hne Hk]. split; [assumption|].
        rewrite <- import_loop_snoc, <- (take_S_r _ _ _ Hj) in Hk.
        subst before. rewrite <- (take_drop (S j) pre) at 1.
        rewrite import_loop_app. now apply known_import_loop. }
    destruct Hknown as [Hne Hk].
    subst after. rewrite (import_one_duplicate _ _ _ _ Hne Hk). simpl.
    split; [reflexivity|]. split; [reflexivity|].
    intros post. rewrite import_loop_app. simpl.
    now rewrite (import_one_duplicate _ _ _ _ Hne Hk).
Qed.

Lemma ImportKeys_duplicates_witness :
  result
    (import_one sample_import 1 "A"
       (import_loop sample_import 0 ["B"%string]
          (import_start store_with_A (storage.keys store_with_A))))
  = models.ImportResult.mk 1 0 1.
Proof.
  assert (Hwf : forall k, k ∈ storage.keys store_with_A ->
            TrimSpace (storage.APIKey.Key k) = storage.APIKey.Key k
            /\ storage.APIKey.Key k <> ""%string).
  { intros k Hk. apply list_elem_of_singleton in Hk as ->.
    split; [reflexivity | discriminate]. }
  destruct (proj2 ImportKeys_duplicates store_with_A sample_import
              ["B"%string] "A"%string Hwf) as [H _].
  - left. eexists. split; [apply list_elem_of_here | reflexivity].
  - etransitivity; [exact H|]. vm_compute. reflexivity.
Defined.

(** C10.  An entry that is empty once trimmed leaves the whole state of
    the import, its three counters included, as it was; the three counts
    returned add up to the number of entries that are not blank, which is
    less than the length of the input as soon as one entry is blank. *)
Theorem ImportKeys_blank_skipped store (keys : list string) env :
  listed env = storage.Done ->
  let r := fst (fst (ImportKeys store keys env)) in
  (forall i e st, TrimSpace e = ""%string -> import_one env i e st = st)
  /\ models.ImportResult.Success r + models.ImportResult.Failed r
     + models.ImportResult.Duplicates r
     = Z.of_nat (length (filter (fun e => TrimSpace e <> ""%string) keys))
  /\ ((exists e, e ∈ keys /\ TrimSpace e = ""%string) ->
      models.ImportResult.Success r + models.ImportResult.Failed r
      + models.ImportResult.Duplicates r < Z.of_nat (length keys)).
Proof.
  intros Hl r.
  assert (Hsum : models.ImportResult.Success r + models.ImportResult.Failed r
     + models.ImportResult.Duplicates r
     = Z.of_nat (length (filter (fun e => TrimSpace e <> ""%string) keys))).
  { subst r. unfold ImportKeys. rewrite Hl. simpl.
    pose proof (import_loop_counts env keys 0
                  (import_start store (storage.keys store))) as H.
    simpl in H. rewrite H. lia. }
  split; [intros i e st; apply import_one_blank|]. split; [exact Hsum|].
  intros (e & Hin & Hblank). rewrite Hsum.
  apply list_elem_of_split in Hin as (l1 & l2 & ->).
  rewrite filter_app, filter_cons.
  destruct (decide (TrimSpace e <> ""%string)); [contradiction|].
  rewrite !length_app. simpl.
  pose proof (length_filter (fun e => TrimSpace e <> ""%string) l1).
  pose proof (length_filter (fun e => TrimSpace e <> ""%string) l2).
  lia.
Qed.

Lemma ImportKeys_blank_skipped_witness :
  fst (ImportKeys store_with_A ["B"; "  "; "C"]%string sample_import)
  = (models.ImportResult.mk 2 0 0, None)
  /\ 2 + 0 + 0 < Z.of_nat (length ["B"; "  "; "C"]%string).
Proof.
  split; [vm_compute; reflexivity|].
  pose proof (ImportKeys_blank_skipped store_with_A ["B"; "  "; "C"]%string
                sample_import eq_refl) as (_ & _ & H).
  apply H. exists "  "%string. split; [|reflexivity].
  apply list_elem_of_further, list_elem_of_here.
Defined.

(** ** BatchProcess *)

Section Batch.

Variable fmt : string -> Time -> string.

Lemma processTask_ID task x : Result.ID (processTask fmt task x) = Task.ID task.
Proof.
  unfold processTask. now destruct (fetchUsageFromAPI _ _ _ _).
Qed.

(** A result without an error carries a record, and the record carries
    the identifier of the result. *)
Lemma processTask_sound task x :
  match Result.Error (processTask fmt task x) with
  | Some _ => True
  | None =>
      exists usage,
        Result.Usage (processTask fmt task x) = Some usage
        /\ models.Usage.ID usage = Result.ID (processTask fmt task x)
  end.
Proof.
  unfold processTask.
  destruct x as [err|err|code [err|resp] now]; simpl; try exact I.
  - destruct (negb (code =? StatusOK)); simpl; [eauto | exact I].
  - destruct (negb (code =? StatusOK)); simpl; eauto.
Qed.

Lemma lookup_collect m r (id : string) :
  collect m r !! id
  = if decide (Result.ID r = id)
    then Some (match Result.Error r with
               | Some err => Some (models.Usage.failed (Result.ID r) err)
               | None => Result.Usage r
               end)
    else m !! id.
Proof.
  unfold collect. destruct (Result.Error r); rewrite lookup_insert;
    now destruct (decide (Result.ID r = id)).
Qed.



(** Results that agree on the entry they give an identifier give it that
    entry, as soon as there is one of them. *)
Lemma lookup_collect_agree rs (id : string) v : forall m,
  (forall r, r ∈ rs -> Result.ID r = id ->
     match Result.Error r with
     | Some err => Some (models.Usage.failed (Result.ID r) err)
     | None => Result.Usage r
     end = v) ->
  (m !! id = Some v \/ exists r, r ∈ rs /\ Result.ID r = id) ->
  fold_left collect rs m !! id = Some v.
Proof.
  induction rs as [|r rs IH]; intros m Hv Hex; simpl.
  - destruct Hex as [H|(r & Hin & _)]; [assumption | inversion Hin].
  - apply IH; [intros r' Hr'; apply Hv; now right|].
    rewrite lookup_collect.
    destruct (decide (Result.ID r = id)) as [Heq|Hne].
    + left. f_equal. apply Hv; [left | assumption].
    + destruct Hex as [H|(r' & Hin & Hid)]; [now left|].
      apply elem_of_cons in Hin as [->|Hin]; [contradiction|].
      right. now exists r'.
Qed.

(** Every entry of the map is a record under its own identifier. *)
Lemma collect_sound rs : forall m,
  (forall (id : string) v, m !! id = Some v ->
     exists usage, v = Some usage /\ models.Usage.ID usage = id) ->
  Forall (fun r => match Result.Error r with
                   | Some _ => True
                   | None => exists usage, Result.Usage r = Some usage
                               /\ models.Usage.ID usage = Result.ID r
                   end) rs ->
  forall (id : string) v, fold_left collect rs m !! id = Some v ->
    exists usage, v = Some usage /\ models.Usage.ID usage = id.
Proof.
  induction rs as [|r rs IH]; intros m Hm Hrs; simpl; [exact Hm|].
  apply Forall_cons in Hrs as [Hr Hrs]. apply IH; [|assumption].
  intros id v. rewrite lookup_collect.
  destruct (decide (Result.ID r = id)) as [<-|]; [|apply Hm].
  intros [= <-]. destruct (Result.Error r) as [err|]; [eauto|].
  destruct Hr as (usage & -> & Hid). eauto.
Qed.

Lemma submit_loop_app cap sched l1 : forall l2 i st,
  submit_loop cap sched i (l1 ++ l2) st
  = submit_loop cap sched (i + length l1) l2 (submit_loop cap sched i l1 st).
Proof.
  induction l1 as [|k l1 IH]; intros l2 i st; simpl.
  - now rewrite Nat.add_0_r.
  - rewrite IH. f_equal. lia.
Qed.

(** The submission loop only appends queue-full results to [resultChan]. *)
Lemma submit_one_resultChan cap sched i key st :
  resultChan (submit_one cap sched i key st) = resultChan st
  \/ resultChan (submit_one cap sched i key st)
     = resultChan st ++ [queue_full_result key].
Proof.
  unfold submit_one.
  destruct (try_send _ _ _); [now left|].
  destruct (try_send _ _ _); [now left | now right].
Qed.

Lemma submit_loop_resultChan cap sched keys : forall i st,
  exists added,
    resultChan (submit_loop cap sched i keys st) = resultChan st ++ added
    /\ Forall (fun r => exists key, key ∈ keys /\ r = queue_full_result key) added.
Proof.
  induction keys as [|key keys IH]; intros i st; simpl.
  - exists []. split; [now rewrite app_nil_r | constructor].
  - destruct (IH (S i) (submit_one cap sched i key st)) as (added & -> & Hall).
    assert (Hall' : Forall (fun r => exists k, k ∈ key :: keys
                                        /\ r = queue_full_result k) added).
    { eapply Forall_impl; [exact Hall|]. intros r (k & Hk & ->).
      exists k. split; [now right | reflexivity]. }
    destruct (submit_one_resultChan cap sched i key st) as [->| ->].
    + now exists added.
    + exists (queue_full_result key :: added). rewrite <- app_assoc.
      split; [reflexivity|]. constructor; [|assumption].
      exists key. split; [left | reflexivity].
Qed.

Lemma recorded_sound wp sched keys :
  Forall (fun r => match Result.Error r with
                   | Some _ => True
                   | None => exists usage, Result.Usage r = Some usage
                               /\ models.Usage.ID usage = Result.ID r
                   end) (recorded fmt wp sched keys).
Proof.
  unfold recorded. apply Forall_app. split.
  - unfold submit_all.
    destruct (submit_loop_resultChan (queueSize wp) sched keys 0
                (mkSubmit (taskQueue wp) [] 0 [])) as (added & -> & Hall).
    simpl. eapply Forall_impl; [exact Hall|].
    now intros r (k & _ & ->).
  - unfold forwarded. generalize 0. generalize (Z.of_nat (length keys)).
    induction (wakeups sched) as [|round rounds IH]; intros n received; simpl;
      [constructor|].
    destruct (received <? n); [|constructor].
    destruct round as [task x| |]; [|apply IH|constructor].
    specialize (IH n (received + 1)).
    destruct (collectLoop fmt n (received + 1) rounds). simpl in *.
    constructor; [apply processTask_sound | exact IH].
Qed.

Lemma lookup_ordered m keys (i : nat) key :
  keys !! i = Some key ->
  ordered m keys !! i
  = Some (match m !! storage.APIKey.ID key with
          | Some usage => usage
          | None => Some (models.Usage.failed (storage.APIKey.ID key)
                            "Processing timeout")
          end).
Proof.
  unfold ordered. revert i.
  induction keys as [|k keys IH]; intros [|i] H; try discriminate; simpl in *.
  - now injection H as ->.
  - now apply IH.
Qed.

Lemma BatchProcess_returns wp keys sched :
  maxWorkers wp <> 0 ->
  BatchProcess fmt wp keys sched
  = Returned (ordered (fold_left collect (recorded fmt wp sched keys) ∅) keys,
              None).
Proof.
  intros Hw. unfold BatchProcess.
  destruct (Z.eqb_spec (Z.of_nat (length keys)) 0) as [H0|_].
  - destruct keys; [reflexivity | simpl in H0; lia].
  - unfold batchTimeout, div64.
    destruct (Z.eqb_spec (maxWorkers wp) 0); [contradiction | reflexivity].
Qed.

(** Position by position, the results are records that carry the
    identifier of the key. *)
Lemma ordered_sound wp sched keys (i : nat) key :
  keys !! i = Some key ->
  exists usage,
    ordered (fold_left collect (recorded fmt wp sched keys) ∅) keys !! i
    = Some (Some usage)
    /\ models.Usage.ID usage = storage.APIKey.ID key.
Proof.
  intros Hi. rewrite (lookup_ordered _ _ _ _ Hi).
  destruct (fold_left collect _ _ !! storage.APIKey.ID key) as [v|] eqn:E.
  - apply (collect_sound _ ∅) in E as (usage & -> & Hid).
    + now exists usage.
    + intros id v'. rewrite lookup_empty. discriminate.
    + apply recorded_sound.
  - eexists. split; reflexivity.
Qed.


(** C5.  When the loop reaches the key at position [i], it tries a send
    that does not block.  If that goes through, nothing else happens.  If
    not, it sleeps ten milliseconds and tries once more; if that fails too,
    it puts a "task queue full" result for the key on [resultChan], and the
    task queue is what the workers alone made of it: the task is neither in
    its buffer nor with a worker.  Either way the returned list has one
    entry per key, and the entry at position [i] carries the identifier of
    the key; it is the queue-full record when both sends failed and no
    forwarded result carries that identifier. *)
Theorem BatchProcess_submission wp keys sched (i : nat) key :
  maxWorkers wp <> 0 ->
  keys !! i = Some key ->
  let cap := queueSize wp in
  let task := Task.mk (storage.APIKey.ID key) (storage.APIKey.Key key) in
  let full :=
    Result.mk (storage.APIKey.ID key) None (Some "task queue full"%string) in
  let st :=
    submit_loop cap sched 0 (take i keys) (mkSubmit (taskQueue wp) [] 0 []) in
  let st' := submit_one cap sched i key st in
  let q1 := workers_run (before_send sched i) (queue st) in
  let q2 := workers_run (during_sleep sched i) q1 in
  ((exists q', try_send cap task q1 = Some q'
               /\ st' = mkSubmit q' (resultChan st) (submitted st + 1)
                          (log st ++ [EvSend i task true]))
   \/ (try_send cap task q1 = None
       /\ exists q', try_send cap task q2 = Some q'
                     /\ st' = mkSubmit q' (resultChan st) (submitted st + 1)
                                (log st ++ [EvSend i task false;
                                            EvSleep (10 * Millisecond);
                                            EvSend i task true]))
   \/ (try_send cap task q1 = None /\ try_send cap task q2 = None
       /\ st' = mkSubmit q2 (resultChan st ++ [full]) (submitted st)
                  (log st ++ [EvSend i task false;
                              EvSleep (10 * Millisecond);
                              EvSend i task false;
                              EvQueueFull i full])))
  /\ submit_all wp sched keys
     = submit_loop cap sched (S i) (drop (S i) keys) st'
  /\ exists results usage,
       BatchProcess fmt wp keys sched = Returned (results, None)
       /\ length results = length keys
       /\ results !! i = Some (Some usage)
       /\ models.Usage.ID usage = storage.APIKey.ID key
       /\ (try_send cap task q1 = None -> try_send cap task q2 = None ->
           (forall r, r ∈ forwarded fmt sched keys ->
              Result.ID r <> storage.APIKey.ID key) ->
           usage = models.Usage.failed (storage.APIKey.ID key)
                     "task queue full").
Proof.
  intros Hw Hi cap task full st st' q1 q2.
  assert (Hall : submit_all wp sched keys
                 = submit_loop cap sched (S i) (drop (S i) keys) st').
  { unfold submit_all. rewrite <- (take_drop_middle _ _ _ Hi) at 1.
    rewrite submit_loop_app. simpl.
    rewrite length_take_le by (apply lookup_lt_Some in Hi; lia).
    reflexivity. }
  split; [|split; [exact Hall|]].
  - subst st'. unfold submit_one. fold task q1.
    destruct (try_send cap task q1) as [q'|] eqn:E1; [left; eauto|].
    fold q2. destruct (try_send cap task q2) as [q'|] eqn:E2.
    + right; left. eauto.
    + right; right. auto.
  - destruct (ordered_sound wp sched keys i key Hi) as (usage & Hu & Hid).
    eexists. exists usage. split; [now apply BatchProcess_returns|].
    split; [unfold ordered; now rewrite length_map|].
    split; [exact Hu|]. split; [exact Hid|].
    intros E1 E2 Hfw.
    rewrite (lookup_ordered _ _ _ _ Hi) in Hu.
    assert (Hlk : fold_left collect (recorded fmt wp sched keys) ∅
                    !! storage.APIKey.ID key
                  = Some (Some (models.Usage.failed (storage.APIKey.ID key)
                                  "task queue full"))).
    { apply lookup_collect_agree.
      - unfold recorded. intros r Hr Hrid.
        apply elem_of_app in Hr as [Hr|Hr]; [|now apply Hfw in Hr].
        unfold submit_all in Hr.
        destruct (submit_loop_resultChan (queueSize wp) sched keys 0
                    (mkSubmit (taskQueue wp) [] 0 [])) as (added & Heq & Hadd).
        rewrite Heq in Hr. simpl in Hr.
        rewrite Forall_forall in Hadd.
        destruct (Hadd r Hr) as (k & _ & ->). simpl in *. now rewrite Hrid.
      - right. exists full. split; [|reflexivity].
        unfold recorded. apply elem_of_app. left. rewrite Hall.
        destruct (submit_loop_resultChan cap sched (drop (S i) keys) (S i) st')
          as (added & -> & _).
        apply elem_of_app. left.
        subst st'. unfold submit_one. fold task q1. rewrite E1.
        fold q2. rewrite E2. simpl. apply elem_of_app. right. left. }
    rewrite Hlk in Hu. now injection Hu as <-.
Qed.

End Batch.

Lemma BatchProcess_submission_witness :
  exists results,
    BatchProcess layout_only sample_pool [key_1; key_2; key_3] sample_sched
    = Returned (results, None)
    /\ results !! 2%nat
       = Some (Some (models.Usage.failed "key-3" "task queue full")).
Proof.
  pose proof (BatchProcess_submission layout_only sample_pool
                [key_1; key_2; key_3] sample_sched 2 key_3) as H.
  cbv zeta in H.
  destruct H as (_ & _ & results & usage & H1 & _ & H3 & _ & H5);
    [discriminate | reflexivity |].
  exists results. split; [exact H1|]. rewrite H3. do 2 f_equal.
  apply H5; [reflexivity | reflexivity |].
  intros r Hr. vm_compute in Hr.
  repeat (apply elem_of_cons in Hr as [->|Hr]; [discriminate|]).
  inversion Hr.
Defined.

(** ** GetAggregatedData *)

Section Aggregate.

Variable fmt : string -> Time -> string.

Lemma mapM_Some (l : list models.Usage.t) :
  mapM (fun usage : option models.Usage.t => usage) (map Some l) = Some l.
Proof.
  induction l as [|u l IH]; [reflexivity|].
  simpl. rewrite IH. reflexivity.
Qed.

(** The results of a batch are records, in the order of the keys. *)
Lemma ordered_records m keys :
  (forall (id : string) v, m !! id = Some v ->
     exists usage, v = Some usage /\ models.Usage.ID usage = id) ->
  exists freshResults,
    ordered m keys = map Some freshResults
    /\ map models.Usage.ID freshResults = map storage.APIKey.ID keys.
Proof.
  intros Hm. induction keys as [|key keys (fresh & Ho & Hids)].
  - now exists [].
  - unfold ordered in *. simpl.
    destruct (m !! storage.APIKey.ID key) as [v|] eqn:E.
    + destruct (Hm _ _ E) as (usage & -> & Hid).
      exists (usage :: fresh). simpl. now rewrite Ho, Hid, Hids.
    + eexists (_ :: fresh). simpl. rewrite Ho, Hids. split; reflexivity.
Qed.

Lemma BatchProcess_records wp keys sched :
  maxWorkers wp <> 0 ->
  exists freshResults,
    BatchProcess fmt wp keys sched = Returned (map Some freshResults, None)
    /\ map models.Usage.ID freshResults = map storage.APIKey.ID keys.
Proof.
  intros Hw. rewrite BatchProcess_returns by assumption.
  destruct (ordered_records (fold_left collect (recorded fmt wp sched keys) ∅) keys)
    as (fresh & -> & Hids).
  - apply (collect_sound _ ∅); [|apply recorded_sound].
    intros id v. rewrite lookup_empty. discriminate.
  - now exists fresh.
Qed.

(** The accumulators of the partition loop are only appended to. *)
Lemma partition_loop_acc s store env keys : forall i cached uncached,
  partition_loop s store env i keys cached uncached
  = (cached ++ fst (partition_loop s store env i keys [] []),
     uncached ++ snd (partition_loop s store env i keys [] [])).
Proof.
  induction keys as [|key keys IH]; intros i cached uncached; simpl.
  - now rewrite !app_nil_r.
  - destruct (cache_hit s store env i key) as [usage|].
    + rewrite (IH (S i) (cached ++ _)), (IH (S i) [of_cache usage]).
      simpl. now rewrite <- app_assoc.
    + rewrite (IH (S i) _ (uncached ++ _)), (IH (S i) _ [key]).
      simpl. now rewrite <- app_assoc.
Qed.

Lemma partition_loop_cons s store env i key keys :
  partition_loop s store env i (key :: keys) [] []
  = match cache_hit s store env i key with
    | Some usage =>
        (of_cache usage :: fst (partition_loop s store env (S i) keys [] []),
         snd (partition_loop s store env (S i) keys [] []))
    | None =>
        (fst (partition_loop s store env (S i) keys [] []),
         key :: snd (partition_loop s store env (S i) keys [] []))
    end.
Proof.
  simpl. destruct (cache_hit s store env i key); now rewrite partition_loop_acc.
Qed.



(** The shape of a run that gets the key list. *)
Lemma GetAggregatedData_run s store env :
  listing env = storage.Done ->
  maxWorkers (workerPool s) <> 0 ->
  storage.keys store <> [] ->
  let keys := storage.keys store in
  let cachedResults := fst (partition_loop s store env 0 keys [] []) in
  let uncachedKeys := snd (partition_loop s store env 0 keys [] []) in
  exists freshResults,
    map models.Usage.ID freshResults = map storage.APIKey.ID uncachedKeys
    /\ ((uncachedKeys = [] /\ freshResults = []
         /\ GetAggregatedData fmt s store env
            = Returned ((Some (report fmt env keys (cachedResults ++ freshResults)),
                         None), mkEffects store []))
        \/ (uncachedKeys <> []
            /\ BatchProcess fmt (workerPool s) uncachedKeys (schedule env)
               = Returned (map Some freshResults, None)
            /\ GetAggregatedData fmt s store env
               = Returned
                   ((Some (report fmt env keys (cachedResults ++ freshResults)),
                     None),
                    mkEffects
                      (if Z.of_nat (length (validResults freshResults)) >? 0
                       then fst (storage.BatchSaveUsage store
                                   (validResults freshResults) (cacheTTL s)
                                   (applied env))
                       else store)
                      [uncachedKeys]))).
Proof.
  intros Hl Hw Hk keys cached uncached.
  unfold GetAggregatedData, storage.GetAllAPIKeys. rewrite Hl.
  fold keys. destruct (Z.eqb_spec (Z.of_nat (length keys)) 0) as [H0|_].
  { subst keys. destruct (storage.keys store); [congruence | simpl in H0; lia]. }
  destruct (partition_loop s store env 0 keys [] []) as [c u] eqn:E.
  subst cached uncached. simpl fst. simpl snd.
  destruct (Z.gtb_spec (Z.of_nat (length u)) 0) as [Hpos|Hzero].
  - destruct (BatchProcess_records (workerPool s) u (schedule env) Hw)
      as (fresh & HB & Hids).
    exists fresh. split; [exact Hids|]. right.
    split; [intros ->; simpl in Hpos; lia|]. split; [exact HB|].
    rewrite HB, mapM_Some. reflexivity.
  - exists []. destruct u; [|simpl in Hzero; lia].
    split; [reflexivity|]. left. auto.
Qed.

Lemma cache_hit_lookup s store env i key usage :
  cache_hit s store env i key = Some usage ->
  storage.usage store !! storage.APIKey.ID key = Some usage.
Proof.
  unfold cache_hit, storage.GetUsage.
  destruct (lookup env i); [|discriminate].
  destruct (storage.usage store !! storage.APIKey.ID key) as [u|]; [|discriminate].
  destruct (_ <? _); [now intros [= ->] | discriminate].
Qed.

(** The keys are an interleaving of the keys whose cached record was
    accepted and of the keys left to fetch. *)
Lemma partition_loop_ids s store env keys :
  (forall (id : string) usage, storage.usage store !! id = Some usage ->
     storage.Usage.ID usage = id) ->
  forall i,
    let cachedResults := fst (partition_loop s store env i keys [] []) in
    let uncachedKeys := snd (partition_loop s store env i keys [] []) in
    exists hits,
      map models.Usage.ID cachedResults = map storage.APIKey.ID hits
      /\ keys ≡ₚ hits ++ uncachedKeys
      /\ (uncachedKeys = [] -> hits = keys)
      /\ (cachedResults = [] -> uncachedKeys = keys).
Proof.
  intros Hkeyed. induction keys as [|key keys IH]; intros i.
  - exists []. simpl. auto.
  - cbv zeta. rewrite partition_loop_cons.
    destruct (IH (S i)) as (hits & Hids & Hperm & Hall & Hnone).
    destruct (cache_hit s store env i key) as [usage|] eqn:E; simpl.
    + exists (key :: hits). simpl. rewrite Hids.
      apply cache_hit_lookup, Hkeyed in E. simpl. rewrite E.
      split; [reflexivity|]. split; [now constructor|].
      split; [intros H; now rewrite Hall | discriminate].
    + exists hits. split; [exact Hids|].
      split; [now rewrite <- Permutation_middle; constructor|].
      split; [discriminate | intros H; now rewrite Hnone].
Qed.

(** C1 (as amended).  For a non-empty key list, a pool whose worker
    count is not zero and a cache that holds each record under its own
    identifier,
    the report has one record per key.  Its data is the accepted cached
    records, in the order of their keys, followed by the fetched records,
    in the order of theirs: the identifiers are those of the keys up to
    their order, and position by position the same as soon as every key
    was a cache hit or none was. *)
Theorem aggregated_data_order s store env :
  listing env = storage.Done ->
  maxWorkers (workerPool s) <> 0 ->
  storage.keys store <> [] ->
  (forall (id : string) usage, storage.usage store !! id = Some usage ->
     storage.Usage.ID usage = id) ->
  let keys := storage.keys store in
  let cachedResults := fst (partition_loop s store env 0 keys [] []) in
  let uncachedKeys := snd (partition_loop s store env 0 keys [] []) in
  exists report eff freshResults,
    GetAggregatedData fmt s store env = Returned ((Some report, None), eff)
    /\ length (models.AggregatedData.Data report) = length keys
    /\ models.AggregatedData.TotalCount report = Z.of_nat (length keys)
    /\ models.AggregatedData.Data report = cachedResults ++ freshResults
    /\ map models.Usage.ID freshResults = map storage.APIKey.ID uncachedKeys
    /\ map models.Usage.ID (models.AggregatedData.Data report)
       ≡ₚ map storage.APIKey.ID keys
    /\ (cachedResults = [] \/ uncachedKeys = [] ->
        map models.Usage.ID (models.AggregatedData.Data report)
        = map storage.APIKey.ID keys).
Proof.
  intros Hl Hw Hk Hkeyed keys cached uncached.
  destruct (GetAggregatedData_run s store env Hl Hw Hk) as (fresh & Hids & Hrun).
  fold keys in Hrun, Hids. fold cached uncached in Hrun. fold uncached in Hids.
  destruct (partition_loop_ids s store env keys Hkeyed 0)
    as (hits & Hc & Hperm & Hall & Hnone).
  fold cached uncached in Hc, Hperm, Hall, Hnone.
  assert (Hdata : map models.Usage.ID (cached ++ fresh)
                  = map storage.APIKey.ID (hits ++ uncached)).
  { now rewrite !map_app, Hc, Hids. }
  exists (report fmt env keys (cached ++ fresh)).
  assert (Hret : exists eff, GetAggregatedData fmt s store env
            = Returned ((Some (report fmt env keys (cached ++ fresh)), None), eff)).
  { destruct Hrun as [(_ & _ & H)|(_ & _ & H)]; eauto. }
  destruct Hret as [eff Hret]. exists eff, fresh.
  split; [exact Hret|]. simpl.
  split.
  { rewrite <- (length_map models.Usage.ID), Hdata, length_map.
    now rewrite <- Hperm. }
  split; [reflexivity|]. split; [reflexivity|]. split; [exact Hids|].
  split.
  { rewrite Hdata. now rewrite <- Hperm. }
  intros [Hnil|Hnil]; rewrite Hdata.
  - assert (hits = []) as ->.
    { rewrite Hnil in Hc. now destruct hits. }
    now rewrite Hnone.
  - now rewrite Hall, Hnil, app_nil_r.
Qed.


End Aggregate.

(** ** Totals and the cache *)

Section Totals.

Variable fmt : string -> Time -> string.

Lemma fold_add_totals l : forall totals,
  fold_left add_totals l totals
  = models.Totals.mk
      (fold_left PrimFloat.add
         (map models.Usage.OrgTotalUsed
            (filter (fun usage => models.Usage.Error usage = ""%string) l))
         (models.Totals.TotalOrgTotalTokensUsed totals))
      (fold_left PrimFloat.add
         (map models.Usage.TotalAllowance
            (filter (fun usage => models.Usage.Error usage = ""%string) l))
         (models.Totals.TotalAllowance totals)).
Proof.
  induction l as [|usage l IH]; intros totals; simpl.
  - now destruct totals.
  - rewrite IH, filter_cons. unfold add_totals.
    destruct (String.eqb_spec (models.Usage.Error usage) "") as [He|He];
      destruct (decide (models.Usage.Error usage = ""%string)); try contradiction;
      reflexivity.
Qed.

Lemma add_totals_error totals usage :
  models.Usage.Error usage <> ""%string -> add_totals totals usage = totals.
Proof.
  intros H. unfold add_totals.
  now destruct (String.eqb_spec (models.Usage.Error usage) "").
Qed.

(** Whatever the run, a report carries the totals of its own data. *)
Lemma GetAggregatedData_totals s store env report eff :
  GetAggregatedData fmt s store env = Returned ((Some report, None), eff) ->
  models.AggregatedData.Totals report
  = calc_totals (models.AggregatedData.Data report).
Proof.
  unfold GetAggregatedData.
  destruct (storage.GetAllAPIKeys store (listing env)) as [keys [err|]];
    [discriminate|].
  destruct (Z.of_nat (length keys) =? 0); [now intros [= <- _]|].
  destruct (partition_loop s store env 0 keys [] []) as [cached uncached].
  destruct (Z.of_nat (length uncached) >? 0); [|now intros [= <- _]].
  destruct (BatchProcess fmt (workerPool s) uncached (schedule env))
    as [[results [err|]]|msg]; try discriminate.
  destruct (mapM _ results); [|discriminate].
  now intros [= <- _].
Qed.

(** C7.  The totals of a report are the sums, from zero and in the order
    of the data, of the used amounts and of the allowances of the records
    whose error field is empty; a record whose error field is not empty
    can be taken out of the data without changing the totals, whatever its
    numbers. *)
Theorem totals_over_error_free s store env report eff :
  GetAggregatedData fmt s store env = Returned ((Some report, None), eff) ->
  let good :=
    filter (fun usage => models.Usage.Error usage = ""%string)
      (models.AggregatedData.Data report) in
  models.AggregatedData.Totals report
  = models.Totals.mk
      (fold_left PrimFloat.add (map models.Usage.OrgTotalUsed good) 0%float)
      (fold_left PrimFloat.add (map models.Usage.TotalAllowance good) 0%float)
  /\ forall l1 usage l2,
       models.AggregatedData.Data report = l1 ++ usage :: l2 ->
       models.Usage.Error usage <> ""%string ->
       models.AggregatedData.Totals report = calc_totals (l1 ++ l2).
Proof.
  intros H good. apply GetAggregatedData_totals in H. rewrite H. split.
  - unfold calc_totals. now rewrite fold_add_totals.
  - intros l1 usage l2 -> Herr. unfold calc_totals.
    rewrite !fold_left_app. simpl. now rewrite add_totals_error.
Qed.

(** What holds of every record in the cache and of every record written
    holds of every record in the cache after the write. *)
Lemma pipeline_set_invariant (P : string -> storage.Usage.t -> Prop)
    applied usages : forall i m,
  Forall (fun u => P (storage.Usage.ID u) u) usages ->
  (forall (id : string) u, m !! id = Some u -> P id u) ->
  forall (id : string) u,
    fst (storage.pipeline_set applied i usages m) !! id = Some u -> P id u.
Proof.
  induction usages as [|usage usages IH]; intros i m Hall Hm; simpl; [exact Hm|].
  apply Forall_cons in Hall as [Hu Hall].
  destruct (storage.marshals usage); [|now apply IH].
  destruct (applied i); simpl; [|now apply IH].
  apply IH; [assumption|]. intros id u.
  rewrite lookup_insert. destruct (decide (storage.Usage.ID usage = id)) as [<-|].
  - now intros [= <-].
  - apply Hm.
Qed.

Lemma BatchSaveUsage_invariant (P : string -> storage.Usage.t -> Prop)
    store usages ttl applied :
  Forall (fun u => P (storage.Usage.ID u) u) usages ->
  (forall (id : string) u, storage.usage store !! id = Some u -> P id u) ->
  forall (id : string) u,
    storage.usage (fst (storage.BatchSaveUsage store usages ttl applied)) !! id
    = Some u ->
    P id u.
Proof.
  intros Hall Hm id u. unfold storage.BatchSaveUsage.
  pose proof (pipeline_set_invariant P applied usages 0 (storage.usage store)
                Hall Hm id u) as H.
  destruct (storage.pipeline_set applied 0 usages (storage.usage store)).
  exact H.
Qed.


Lemma mapM_records (results : list (option models.Usage.t)) :
  forall freshResults,
    mapM (fun usage : option models.Usage.t => usage) results
    = Some freshResults ->
    results = map Some freshResults.
Proof.
  induction results as [|[usage|] results IH]; intros fresh; simpl.
  - now intros [= <-].
  - destruct (mapM _ results) as [rest|]; [|discriminate].
    intros [= <-]. simpl. f_equal. now apply IH.
  - discriminate.
Qed.

(** The store after a run: the store before, or the batched write into
    it of [validResults] of what [BatchProcess] returned for the keys left
    to fetch. *)
Lemma GetAggregatedData_store s store env r eff :
  GetAggregatedData fmt s store env = Returned (r, eff) ->
  store_after eff = store
  \/ exists freshResults,
       BatchProcess fmt (workerPool s)
         (snd (partition_loop s store env 0 (storage.keys store) [] []))
         (schedule env)
       = Returned (map Some freshResults, None)
       /\ store_after eff
          = fst (storage.BatchSaveUsage store (validResults freshResults)
                   (cacheTTL s) (applied env)).
Proof.
  unfold GetAggregatedData, storage.GetAllAPIKeys.
  destruct (listing env) as [|err]; [|intros [= _ <-]; now left].
  destruct (Z.of_nat (length (storage.keys store)) =? 0);
    [intros [= _ <-]; now left|].
  destruct (partition_loop s store env 0 (storage.keys store) [] [])
    as [cached uncached].
  destruct (Z.of_nat (length uncached) >? 0); [|intros [= _ <-]; now left].
  simpl snd.
  destruct (BatchProcess fmt (workerPool s) uncached (schedule env))
    as [[results [err|]]|msg]; try discriminate;
    [intros [= _ <-]; now left|].
  destruct (mapM _ results) as [fresh|] eqn:E; [|discriminate].
  apply mapM_records in E as ->.
  intros [= _ <-]. simpl.
  destruct (Z.of_nat (length (validResults fresh)) >? 0); [|now left].
  right. now exists fresh.
Qed.

(** A cache that holds each record under its own identifier stays so. *)
Lemma GetAggregatedData_keeps_keyed s store env r eff :
  GetAggregatedData fmt s store env = Returned (r, eff) ->
  (forall (id : string) u, storage.usage store !! id = Some u ->
     storage.Usage.ID u = id) ->
  forall (id : string) u, storage.usage (store_after eff) !! id = Some u ->
    storage.Usage.ID u = id.
Proof.
  intros Hrun Hm.
  destruct (GetAggregatedData_store _ _ _ _ _ Hrun) as [->|(fresh & _ & ->)];
    [exact Hm|].
  apply (BatchSaveUsage_invariant (fun id u => storage.Usage.ID u = id));
    [|exact Hm].
  now apply Forall_forall.
Qed.



End Totals.

(** ** The sample run *)

Lemma sample_store_keyed (id : string) usage :
  storage.usage sample_store !! id = Some usage ->
  storage.Usage.ID usage = id /\ storage.Usage.Error usage = ""%string.
Proof.
  unfold sample_store. simpl. intros H.
  apply lookup_singleton_Some in H as [<- <-]. split; reflexivity.
Qed.

Lemma aggregated_data_order_witness :
  exists report eff,
    GetAggregatedData layout_only sample_service sample_store sample_run
    = Returned ((Some report, None), eff)
    /\ length (models.AggregatedData.Data report) = 2%nat
    /\ map models.Usage.ID (models.AggregatedData.Data report)
       ≡ₚ ["key-1"; "key-2"]%string.
Proof.
  pose proof (aggregated_data_order layout_only sample_service sample_store
                sample_run) as H.
  cbv zeta in H.
  destruct H as (report & eff & fresh & H1 & H2 & _ & _ & _ & H6 & _);
    [reflexivity | discriminate | discriminate
    | intros id usage Hu; now apply sample_store_keyed in Hu |].
  exists report, eff. split; [exact H1|]. split; [exact H2 | exact H6].
Defined.

(** C1 (as stated) fails when a cache hit follows a key that has to be
    fetched: the keys are [key_1; key_2], the data starts with the cached
    record of [key_2]. *)
Lemma aggregated_data_order_counterexample :
  exists report eff,
    GetAggregatedData layout_only sample_service sample_store sample_run
    = Returned ((Some report, None), eff)
    /\ map storage.APIKey.ID (storage.keys sample_store)
       = ["key-1"; "key-2"]%string
    /\ map models.Usage.ID (models.AggregatedData.Data report)
       = ["key-2"; "key-1"]%string
    /\ map models.Usage.ID (models.AggregatedData.Data report)
       <> map storage.APIKey.ID (storage.keys sample_store).
Proof.
  eexists. eexists. split; [vm_compute; reflexivity|].
  split; [reflexivity|]. split; [reflexivity|]. discriminate.
Qed.


Lemma totals_over_error_free_witness :
  exists report eff,
    GetAggregatedData layout_only sample_service sample_store sample_run
    = Returned ((Some report, None), eff)
    /\ models.AggregatedData.Totals report = models.Totals.mk 625 3000.
Proof.
  eexists. eexists. split; [vm_compute; reflexivity|].
  refine (eq_trans
            (proj1 (totals_over_error_free layout_only sample_service
                      sample_store sample_run _ _ _)) _);
    [vm_compute; reflexivity | vm_compute; reflexivity].
Defined.


(** * More of the code *)

(** ** Keys and records in the store *)

Lemma find_filter_other (id id' : string) (l : list storage.APIKey.t) :
  id' <> id ->
  List.find (fun k => String.eqb (storage.APIKey.ID k) id')
    (filter (fun k => storage.APIKey.ID k <> id) l)
  = List.find (fun k => String.eqb (storage.APIKey.ID k) id') l.
Proof.
  intros Hne. induction l as [|k l IH]; [reflexivity|].
  rewrite filter_cons. simpl.
  destruct (decide (storage.APIKey.ID k <> id)) as [Hk|Hk]; simpl.
  - now rewrite IH.
  - destruct (String.eqb_spec (storage.APIKey.ID k) id') as [He|_]; [|exact IH].
    exfalso. apply Hk. congruence.
Qed.

Lemma find_filter_same (id : string) (l : list storage.APIKey.t) :
  List.find (fun k => String.eqb (storage.APIKey.ID k) id)
    (filter (fun k => storage.APIKey.ID k <> id) l) = None.
Proof.
  induction l as [|k l IH]; [reflexivity|].
  rewrite filter_cons.
  destruct (decide (storage.APIKey.ID k <> id)) as [Hk|Hk]; [|exact IH].
  simpl. now destruct (String.eqb_spec (storage.APIKey.ID k) id).
Qed.



(** What [GetAPIKey] finds is a listed key with the identifier asked
    for, and it finds one whenever there is one. *)
Lemma GetAPIKey_found s (id : string) :
  match fst (storage.GetAPIKey s id storage.Done) with
  | Some k => k ∈ storage.keys s /\ storage.APIKey.ID k = id
  | None => forall k, k ∈ storage.keys s -> storage.APIKey.ID k <> id
  end.
Proof.
  simpl. induction (storage.keys s) as [|k l IH]; simpl.
  - intros k Hk. inversion Hk.
  - destruct (String.eqb_spec (storage.APIKey.ID k) id) as [He|Hne].
    + split; [left | exact He].
    + destruct (List.find _ l) as [k'|].
      * destruct IH as [Hin Hid]. split; [now right | exact Hid].
      * intros k' Hk'. apply elem_of_cons in Hk' as [->|Hk']; auto.
Qed.

Lemma delete_cmds_keys x c (id : string) s k :
  k ∈ storage.keys (storage.delete_cmds x c id s) <->
  k ∈ storage.keys s /\ ((c < storage.ran x)%nat -> storage.APIKey.ID k <> id).
Proof.
  unfold storage.delete_cmds. cbn [storage.keys].
  destruct (Nat.ltb_spec c (storage.ran x)).
  - rewrite list_elem_of_filter. tauto.
  - split; [intros Hk; split; [exact Hk | lia] | tauto].
Qed.

(** The names of the keys: a name tells whose cached record it is, and
    the name of the hash of [id] is that of a cached record exactly when
    [id] ends in [:usage]. *)
Lemma append_inj_r (a b t : string) :
  String.append a t = String.append b t -> a = b.
Proof.
  revert b. induction a as [|c a IH]; intros [|d b] H.
  - reflexivity.
  - exfalso. apply (f_equal String.length) in H.
    rewrite append_nil_l, append_cons in H. simpl in H.
    rewrite length_append in H. lia.
  - exfalso. apply (f_equal String.length) in H.
    rewrite append_nil_l, append_cons in H. simpl in H.
    rewrite length_append in H. lia.
  - rewrite !append_cons in H. injection H as -> H. f_equal. now apply IH.
Qed.

Lemma usage_name_inj (id id' : string) :
  storage.usage_name id' = storage.usage_name id <-> id' = id.
Proof.
  split; [|now intros ->]. unfold storage.usage_name. intros H.
  injection H as H. rewrite !append_nil_l in H. now apply append_inj_r in H.
Qed.

Lemma usage_name_key_name (id K : string) :
  storage.usage_name K = storage.key_name id
  <-> id = String.append K ":usage".
Proof.
  unfold storage.usage_name, storage.key_name. split.
  - intros H. injection H as H. rewrite !append_nil_l in H. now subst id.
  - now intros ->.
Qed.

Lemma lookup_Del_usage (name : string) (m : gmap string storage.Usage.t)
    (id' : string) :
  storage.Del_usage name m !! id'
  = if decide (storage.usage_name id' = name) then None else m !! id'.
Proof.
  unfold storage.Del_usage. apply option_eq. intros u.
  rewrite map_lookup_filter_Some. cbn [fst].
  destruct (decide (storage.usage_name id' = name)) as [He|Hne].
  - split; [now intros [_ ?] | discriminate].
  - tauto.
Qed.

(** The cached records after the commands for one identifier: gone are
    the record of the identifier, when the second command ran, and the
    record that sits under the name of its hash, when the first did. *)
Lemma delete_cmds_usage x c (id id' : string) s :
  storage.usage (storage.delete_cmds x c id s) !! id'
  = if decide ((id' = id /\ (S c < storage.ran x)%nat)
               \/ (id = String.append id' ":usage"
                   /\ (c < storage.ran x)%nat))
    then None else storage.usage s !! id'.
Proof.
  pose proof (usage_name_inj id id') as Hown.
  pose proof (usage_name_key_name id id') as Hnamed.
  unfold storage.delete_cmds. cbn [storage.usage].
  destruct (Nat.ltb_spec c (storage.ran x)) as [Hc|Hc];
    destruct (Nat.ltb_spec (S c) (storage.ran x)) as [Hs|Hs];
    rewrite ?lookup_Del_usage; repeat case_decide;
    try reflexivity; exfalso; destruct Hown, Hnamed; intuition lia.
Qed.

Lemma delete_cmds_usage_Some x c (id id' : string) s u :
  storage.usage (storage.delete_cmds x c id s) !! id' = Some u ->
  storage.usage s !! id' = Some u.
Proof. rewrite delete_cmds_usage. now destruct (decide _). Qed.

(** X1.  [DeleteAPIKey] never adds a key and never changes another key.
    Of the cached records it leaves alone all but two: that of the
    identifier and, the hash of [K:usage] and the cached record of [K]
    having one name, that of [K] when the identifier is [K:usage], which
    is gone as soon as the first command ran.  When it reports no error,
    the key and the cached record of the identifier are gone: neither
    [GetAPIKey] nor [GetUsage] finds anything, and no listed key carries
    the identifier. *)
Theorem DeleteAPIKey_removes s (id : string) x :
  let s' := fst (storage.DeleteAPIKey s id x) in
  (forall id', id' <> id ->
     storage.GetAPIKey s' id' storage.Done
     = storage.GetAPIKey s id' storage.Done)
  /\ (forall id', id' <> id -> id <> String.append id' ":usage" ->
      storage.GetUsage s' id' storage.Done
      = storage.GetUsage s id' storage.Done)
  /\ (forall K, id = String.append K ":usage" ->
      (0 < storage.ran x)%nat ->
      storage.GetUsage s' K storage.Done = (None, None))
  /\ (forall k, k ∈ storage.keys s' -> k ∈ storage.keys s)
  /\ (snd (storage.DeleteAPIKey s id x) = None ->
      storage.GetAPIKey s' id storage.Done = (None, None)
      /\ storage.GetUsage s' id storage.Done = (None, None)
      /\ forall k, k ∈ storage.keys s' <->
                   k ∈ storage.keys s /\ storage.APIKey.ID k <> id).
Proof.
  cbv zeta. unfold storage.DeleteAPIKey, storage.Exec_err. cbn [fst snd].
  unfold storage.GetUsage. split; [|split; [|split; [|split]]].
  - intros id' Hne. unfold storage.GetAPIKey, storage.delete_cmds.
    cbn [storage.keys]. destruct (0 <? storage.ran x)%nat; [|reflexivity].
    now rewrite find_filter_other.
  - intros id' Hne Hna. rewrite delete_cmds_usage.
    rewrite decide_False; [reflexivity | tauto].
  - intros K HK Hran. rewrite delete_cmds_usage.
    rewrite decide_True; [reflexivity | now right].
  - intros k Hk. now apply delete_cmds_keys in Hk.
  - destruct (Nat.leb_spec 3 (storage.ran x)) as [Hran|]; [|discriminate].
    intros _. split; [|split].
    + unfold storage.GetAPIKey, storage.delete_cmds. cbn [storage.keys].
      destruct (Nat.ltb_spec 0 (storage.ran x)); [|lia].
      now rewrite find_filter_same.
    + rewrite delete_cmds_usage. rewrite decide_True; [reflexivity|].
      left. split; [reflexivity | lia].
    + intros k. rewrite delete_cmds_keys. split.
      * intros [Hk Hid]. split; [exact Hk | apply Hid; lia].
      * intros [Hk Hid]. auto.
Qed.

Lemma DeleteAPIKey_removes_witness :
  storage.GetUsage
    (fst (storage.DeleteAPIKey sample_store "key-2:usage"
            (storage.mkPipeline 1 "EOF")))
    "key-2" storage.Done = (None, None)
  /\ storage.GetUsage
       (fst (storage.DeleteAPIKey sample_store "key-2"
               (storage.mkPipeline 3 "")))
       "key-2" storage.Done = (None, None).
Proof.
  split.
  - destruct (DeleteAPIKey_removes sample_store "key-2:usage"
                (storage.mkPipeline 1 "EOF")) as (_ & _ & H & _).
    apply (H "key-2"%string); [reflexivity | simpl; lia].
  - destruct (DeleteAPIKey_removes sample_store "key-2"
                (storage.mkPipeline 3 "")) as (_ & _ & _ & _ & H).
    now destruct (H eq_refl) as (_ & H2 & _).
Defined.



(** ** Deleting a batch *)

Lemma count_deleted_sum x ncmds n : forall i success failed,
  let r := storage.count_deleted x ncmds i n success failed in
  fst r + snd r = success + failed + Z.of_nat n
  /\ success <= fst r /\ failed <= snd r.
Proof.
  induction n as [|n IH]; intros i success failed; simpl; [lia|].
  destruct (_ && _).
  - specialize (IH (S i) (success + 1) failed). simpl in IH. lia.
  - specialize (IH (S i) success (failed + 1)). simpl in IH. lia.
Qed.

Lemma count_deleted_all x ncmds n : forall i success failed,
  (3 * (i + n) <= ncmds)%nat -> (ncmds <= storage.ran x)%nat ->
  storage.count_deleted x ncmds i n success failed
  = (success + Z.of_nat n, failed).
Proof.
  induction n as [|n IH]; intros i success failed H1 H2; simpl.
  - f_equal. lia.
  - unfold storage.cmd_Err.
    destruct (Nat.ltb_spec (i * 3) ncmds); [|lia].
    destruct (Nat.ltb_spec (i * 3) (storage.ran x)); [|lia]. simpl.
    rewrite IH by lia. f_equal. lia.
Qed.

(** The keys that a batch leaves: those no command of the batch that
    ran was for. *)
Lemma batch_delete_cmds_keys x ids : forall i s k,
  k ∈ storage.keys (storage.batch_delete_cmds x i ids s) <->
  k ∈ storage.keys s
  /\ forall (j : nat) id, ids !! j = Some id ->
       (3 * (i + j) < storage.ran x)%nat -> storage.APIKey.ID k <> id.
Proof.
  induction ids as [|id ids IH]; intros i s k; simpl.
  - split; [intros Hk; split; [exact Hk|] | tauto].
    intros j id Hj. discriminate.
  - rewrite IH, delete_cmds_keys. split.
    + intros ((Hk & Hid) & Hrest). split; [exact Hk|].
      intros [|j] id' Hj Hran; simpl in Hj.
      * injection Hj as <-. apply Hid. lia.
      * apply (Hrest j id' Hj). lia.
    + intros (Hk & Hall). split; [split; [exact Hk|]|].
      * intros Hran. apply (Hall 0%nat id eq_refl). lia.
      * intros j id' Hj Hran. apply (Hall (S j) id' Hj). lia.
Qed.

Lemma batch_delete_cmds_usage x ids : forall i s (id' : string),
  (forall (j : nat), ids !! j = Some id' ->
     (3 * (i + j) + 1 < storage.ran x)%nat -> False) ->
  (forall (j : nat), ids !! j = Some (String.append id' ":usage") ->
     (3 * (i + j) < storage.ran x)%nat -> False) ->
  storage.usage (storage.batch_delete_cmds x i ids s) !! id'
  = storage.usage s !! id'.
Proof.
  induction ids as [|id ids IH]; intros i s id' H H'; simpl; [reflexivity|].
  rewrite IH.
  - rewrite delete_cmds_usage. apply decide_False. intros [[-> Hran]|[-> Hran]].
    + apply (H 0%nat eq_refl). lia.
    + apply (H' 0%nat eq_refl). lia.
  - intros j Hj Hran. apply (H (S j) Hj). lia.
  - intros j Hj Hran. apply (H' (S j) Hj). lia.
Qed.

Lemma batch_delete_cmds_usage_absent x ids : forall i s (id : string),
  storage.usage s !! id = None ->
  storage.usage (storage.batch_delete_cmds x i ids s) !! id = None.
Proof.
  induction ids as [|id1 ids IH]; intros i s id H; [exact H|].
  cbn [storage.batch_delete_cmds]. apply IH. rewrite delete_cmds_usage.
  destruct (decide _); [reflexivity | exact H].
Qed.

Lemma batch_delete_cmds_usage_gone x ids : forall i s (j : nat) (id : string),
  ids !! j = Some id -> (3 * (i + j) + 1 < storage.ran x)%nat ->
  storage.usage (storage.batch_delete_cmds x i ids s) !! id = None.
Proof.
  induction ids as [|id0 ids IH]; intros i s j id Hj Hran; [discriminate|].
  cbn [storage.batch_delete_cmds]. destruct j as [|j]; simpl in Hj.
  - injection Hj as ->. apply batch_delete_cmds_usage_absent.
    rewrite delete_cmds_usage. apply decide_True. left.
    split; [reflexivity | lia].
  - apply (IH (S i) _ j id Hj). lia.
Qed.

(** The record that sits under the name of the hash of an identifier of
    the batch is gone as soon as the first command for it ran. *)
Lemma batch_delete_cmds_usage_named x ids : forall i s (j : nat) (K : string),
  ids !! j = Some (String.append K ":usage") ->
  (3 * (i + j) < storage.ran x)%nat ->
  storage.usage (storage.batch_delete_cmds x i ids s) !! K = None.
Proof.
  induction ids as [|id0 ids IH]; intros i s j K Hj Hran; [discriminate|].
  cbn [storage.batch_delete_cmds]. destruct j as [|j]; simpl in Hj.
  - injection Hj as ->. apply batch_delete_cmds_usage_absent.
    rewrite delete_cmds_usage. apply decide_True. right.
    split; [reflexivity | lia].
  - apply (IH (S i) _ j K Hj). lia.
Qed.

(** X3.  The two counts of [BatchDeleteAPIKeys] add up to the number of
    identifiers.  With an error other than [redis.Nil] the report is all
    or nothing: every identifier a success when every command ran, every
    identifier a failure as soon as one did not, although the keys whose
    commands ran before the break are gone all the same.  The batch never
    adds a key and never removes one whose identifier is not in the list.
    It leaves the cached record of [K] alone when neither [K] nor
    [K:usage], the identifier whose hash has the name of that record, is
    in the list; with [K:usage] in the list the record is gone as soon as
    the first command for it ran. *)
Theorem BatchDeleteAPIKeys_report s ids x :
  let s' := fst (storage.BatchDeleteAPIKeys s ids x) in
  let success := fst (snd (storage.BatchDeleteAPIKeys s ids x)) in
  let failed := snd (snd (storage.BatchDeleteAPIKeys s ids x)) in
  success + failed = Z.of_nat (length ids)
  /\ 0 <= success /\ 0 <= failed
  /\ ((3 * length ids <= storage.ran x)%nat ->
      success = Z.of_nat (length ids) /\ failed = 0)
  /\ ((storage.ran x < 3 * length ids)%nat ->
      storage.broken x <> storage.redis_Nil ->
      success = 0 /\ failed = Z.of_nat (length ids))
  /\ (forall (i : nat) id, ids !! i = Some id ->
        (3 * i < storage.ran x)%nat ->
        forall k, k ∈ storage.keys s' -> storage.APIKey.ID k <> id)
  /\ (forall (i : nat) id, ids !! i = Some id ->
        (3 * i + 1 < storage.ran x)%nat -> storage.usage s' !! id = None)
  /\ (forall k, k ∈ storage.keys s' -> k ∈ storage.keys s)
  /\ (forall k, k ∈ storage.keys s -> storage.APIKey.ID k ∉ ids ->
        k ∈ storage.keys s')
  /\ (forall K : string, K ∉ ids -> String.append K ":usage" ∉ ids ->
        storage.usage s' !! K = storage.usage s !! K)
  /\ (forall (i : nat) (K : string),
        ids !! i = Some (String.append K ":usage") ->
        (3 * i < storage.ran x)%nat -> storage.usage s' !! K = None).
Proof.
  cbv zeta.
  assert (Hs : fst (storage.BatchDeleteAPIKeys s ids x)
               = storage.batch_delete_cmds x 0 ids s).
  { unfold storage.BatchDeleteAPIKeys.
    destruct (storage.Exec_err x _) as [err|]; [|reflexivity].
    now destruct (negb _). }
  rewrite Hs.
  pose proof (count_deleted_sum x (3 * length ids) (length ids) 0 0 0) as Hc.
  cbv zeta in Hc.
  unfold storage.BatchDeleteAPIKeys, storage.Exec_err.
  destruct (Nat.leb_spec (3 * length ids) (storage.ran x)) as [Hran|Hran].
  - cbn [fst snd].
    rewrite count_deleted_all by lia. cbn [fst snd].
    split; [lia|]. split; [lia|]. split; [lia|]. split; [lia|].
    split; [lia|]. split; [|split; [|split; [|split; [|split]]]].
    + intros i id Hi Hlt k Hk. apply batch_delete_cmds_keys in Hk as [_ Hk].
      apply (Hk i id Hi). simpl. lia.
    + intros i id Hi Hlt. apply (batch_delete_cmds_usage_gone x ids 0 s i id Hi).
      simpl. lia.
    + intros k Hk. now apply batch_delete_cmds_keys in Hk.
    + intros k Hk Hnot. apply batch_delete_cmds_keys. split; [exact Hk|].
      intros j id Hj _ Heq. apply Hnot. rewrite Heq.
      now apply list_elem_of_lookup_2 in Hj.
    + intros K Hnot Hnot'. apply batch_delete_cmds_usage.
      * intros j Hj _. apply Hnot. now apply list_elem_of_lookup_2 in Hj.
      * intros j Hj _. apply Hnot'. now apply list_elem_of_lookup_2 in Hj.
    + intros i K Hi Hlt.
      apply (batch_delete_cmds_usage_named x ids 0 s i K Hi). simpl. lia.
  - assert (Hcounts :
      let r := snd (if negb (String.eqb (storage.broken x) storage.redis_Nil)
                    then (storage.batch_delete_cmds x 0 ids s,
                          (0, Z.of_nat (length ids)))
                    else (storage.batch_delete_cmds x 0 ids s,
                          storage.count_deleted x (3 * length ids) 0
                            (length ids) 0 0)) in
      fst r + snd r = Z.of_nat (length ids) /\ 0 <= fst r /\ 0 <= snd r
      /\ (storage.broken x <> storage.redis_Nil ->
          fst r = 0 /\ snd r = Z.of_nat (length ids))).
    { destruct (String.eqb_spec (storage.broken x) storage.redis_Nil);
        cbn [negb fst snd]; [|lia]. split; [lia|]. split; [lia|].
      split; [lia | contradiction]. }
    cbv zeta in Hcounts. destruct Hcounts as (H1 & H2 & H3 & H4).
    split; [exact H1|]. split; [exact H2|]. split; [exact H3|].
    split; [lia|]. split; [intros _; exact H4|].
    split; [|split; [|split; [|split; [|split]]]].
    + intros i id Hi Hlt k Hk. apply batch_delete_cmds_keys in Hk as [_ Hk].
      apply (Hk i id Hi). simpl. lia.
    + intros i id Hi Hlt. apply (batch_delete_cmds_usage_gone x ids 0 s i id Hi).
      simpl. lia.
    + intros k Hk. now apply batch_delete_cmds_keys in Hk.
    + intros k Hk Hnot. apply batch_delete_cmds_keys. split; [exact Hk|].
      intros j id Hj _ Heq. apply Hnot. rewrite Heq.
      now apply list_elem_of_lookup_2 in Hj.
    + intros K Hnot Hnot'. apply batch_delete_cmds_usage.
      * intros j Hj _. apply Hnot. now apply list_elem_of_lookup_2 in Hj.
      * intros j Hj _. apply Hnot'. now apply list_elem_of_lookup_2 in Hj.
    + intros i K Hi Hlt.
      apply (batch_delete_cmds_usage_named x ids 0 s i K Hi). simpl. lia.
Qed.

Lemma BatchDeleteAPIKeys_report_witness :
  snd (storage.BatchDeleteAPIKeys sample_store
         ["key-1"; "key-2:usage"]%string (storage.mkPipeline 4 "EOF"))
  = (0, 2)
  /\ storage.usage
       (fst (storage.BatchDeleteAPIKeys sample_store
               ["key-1"; "key-2:usage"]%string (storage.mkPipeline 4 "EOF")))
     !! "key-2"%string = None.
Proof.
  pose proof (BatchDeleteAPIKeys_report sample_store
                ["key-1"; "key-2:usage"]%string
                (storage.mkPipeline 4 "EOF")) as H.
  cbv zeta in H. destruct H as (_ & _ & _ & _ & H5 & _ & _ & _ & _ & _ & H11).
  split.
  - destruct H5 as [Hs Hf]; [simpl; lia | discriminate|].
    rewrite (surjective_pairing (snd _)). now rewrite Hs, Hf.
  - apply (H11 1%nat "key-2"%string eq_refl). simpl. lia.
Defined.

(** ** Saving usage records *)






(** ** Sessions in the store *)



(** ** Sessions and the authentication service *)

(** What a [true] of [ValidateSession] means when a password is set. *)
Lemma ValidateSession_true s
    (ss : gmap string (storage.Session.t * option Time)) (sessionID : string) v :
  adminPassword s <> ""%string ->
  fst (ValidateSession s ss sessionID v) = true <->
  sessionID <> ""%string
  /\ get_reply v = storage.Done
  /\ exists session (gone : option Time),
       ss !! sessionID = Some (session, gone)
       /\ (forall t, gone = Some t -> get_at v < t)
       /\ checked_now v <= storage.Session.ExpiresAt session.
Proof.
  intros Hpw. unfold ValidateSession, storage.GetSession.
  destruct (String.eqb_spec (adminPassword s) ""); [contradiction|].
  destruct (String.eqb_spec sessionID "") as [->|Hid].
  { split; [discriminate | now intros [? _]]. }
  destruct (get_reply v) as [|err].
  2:{ split; [discriminate | now intros (_ & ? & _)]. }
  destruct (ss !! sessionID) as [[session [t|]]|] eqn:E.
  - destruct (Z.ltb_spec (get_at v) t) as [Ht|Ht].
    + destruct (Z.gtb_spec (checked_now v) (storage.Session.ExpiresAt session)).
      * split; [discriminate|]. intros (_ & _ & s' & g & [= <- <-] & _ & ?). lia.
      * split; [|reflexivity]. intros _. split; [assumption|].
        split; [reflexivity|]. exists session, (Some t).
        split; [reflexivity|]. split; [now intros ? [= <-] | lia].
    + split; [discriminate|].
      intros (_ & _ & s' & g & [= <- <-] & Hg & _).
      specialize (Hg t eq_refl). lia.
  - destruct (Z.gtb_spec (checked_now v) (storage.Session.ExpiresAt session)).
    + split; [discriminate|]. intros (_ & _ & s' & g & [= <- <-] & _ & ?). lia.
    + split; [|reflexivity]. intros _. split; [assumption|].
      split; [reflexivity|]. exists session, None.
      split; [reflexivity|]. split; [discriminate | lia].
  - split; [discriminate|]. now intros (_ & _ & s' & g & ? & _).
Qed.

(** A session is taken out of the store by nothing but its own expiry
    check. *)
Lemma ValidateSession_store s
    (ss : gmap string (storage.Session.t * option Time)) (sessionID : string) v :
  snd (ValidateSession s ss sessionID v) = ss
  \/ (fst (ValidateSession s ss sessionID v) = false
      /\ snd (ValidateSession s ss sessionID v) = delete sessionID ss).
Proof.
  unfold ValidateSession.
  destruct (String.eqb _ _); [now left|].
  destruct (String.eqb _ _); [now left|].
  destruct (storage.GetSession _ _ _ _) as [[session|] [err|]]; try now left.
  destruct (_ >? _); [|now left].
  unfold storage.DeleteSession. destruct (del_reply v); [right | left]; auto.
Qed.

(** X7.  With a password set, [ValidateSession] accepts a session
    identifier only if it is not empty, the lookup reached the store, and
    the store holds under it a session that the server has not dropped and
    whose [ExpiresAt] the clock has not passed; an accepted check leaves
    the store as it was.  So an identifier that was never stored, or whose
    session was deleted, is never accepted. *)
Theorem ValidateSession_sound s
    (ss : gmap string (storage.Session.t * option Time)) (sessionID : string) v :
  adminPassword s <> ""%string ->
  (fst (ValidateSession s ss sessionID v) = true ->
   sessionID <> ""%string
   /\ snd (ValidateSession s ss sessionID v) = ss
   /\ exists session (gone : option Time),
        ss !! sessionID = Some (session, gone)
        /\ (forall t, gone = Some t -> get_at v < t)
        /\ checked_now v <= storage.Session.ExpiresAt session)
  /\ (ss !! sessionID = None ->
      ValidateSession s ss sessionID v = (false, ss))
  /\ (forall r v',
        fst (ValidateSession s
               (fst (DeleteSession ss sessionID storage.Done)) sessionID v')
        = false
        /\ DeleteSession ss sessionID (storage.Failure r) = (ss, Some r)).
Proof.
  intros Hpw. split; [|split].
  - intros Ht.
    destruct (ValidateSession_store s ss sessionID v) as [Hs|[Hf _]];
      [|congruence].
    apply ValidateSession_true in Ht as (Hid & _ & Hex); [|assumption].
    auto.
  - intros Hnone.
    destruct (fst (ValidateSession s ss sessionID v)) eqn:E.
    + apply ValidateSession_true in E as (_ & _ & s' & g & Hs & _);
        [|assumption].
      exfalso. generalize (eq_trans (eq_sym Hnone) Hs). discriminate.
    + rewrite (surjective_pairing (ValidateSession s ss sessionID v)), E.
      f_equal.
      destruct (ValidateSession_store s ss sessionID v) as [Hs|[_ Hs]];
        [exact Hs|].
      rewrite Hs. now apply delete_id.
  - intros r v'. split; [|reflexivity].
    destruct (fst (ValidateSession s _ sessionID v')) eqn:E; [|reflexivity].
    apply ValidateSession_true in E as (_ & _ & s' & g & Hs & _);
      [|assumption].
    unfold DeleteSession, storage.DeleteSession in Hs. simpl in Hs.
    now rewrite lookup_delete_eq in Hs.
Qed.

Lemma ValidateSession_sound_witness :
  ValidateSession sample_auth ∅ "0b5cfa32-7d0e-4d3a-9a51-1c2f6f0e8a77"
    sample_validation = (false, ∅).
Proof.
  apply (ValidateSession_sound sample_auth ∅
           "0b5cfa32-7d0e-4d3a-9a51-1c2f6f0e8a77" sample_validation);
    [discriminate | reflexivity].
Defined.

Lemma CreateSession_saved
    (ss : gmap string (storage.Session.t * option Time)) c :
  storage.time_marshals (created_now c) = true ->
  storage.time_marshals (expires_now c + 7 * 24 * Hour) = true ->
  set_reply c = storage.Done ->
  CreateSession ss c
  = ((new_uuid c, None),
     <[new_uuid c :=
         (storage.Session.mk (new_uuid c) (created_now c)
            (expires_now c + 7 * 24 * Hour),
          Some (set_at c + 7 * 24 * Hour))]> ss).
Proof.
  intros H1 H2 H3. unfold CreateSession, storage.SaveSession.
  cbn [storage.Session.CreatedAt storage.Session.ExpiresAt storage.Session.ID].
  rewrite H1, H2, H3. reflexivity.
Qed.

(** X8.  With a password set, the identifier that [CreateSession]
    returns after a save that went through is accepted by a later
    [ValidateSession] exactly when the lookup reaches the store, the clock
    of the server is less than seven days past the save, and the clock of
    the process is at most seven days past the second clock reading of
    the creation. *)
Theorem session_lifecycle s
    (ss : gmap string (storage.Session.t * option Time)) c v :
  adminPassword s <> ""%string ->
  new_uuid c <> ""%string ->
  storage.time_marshals (created_now c) = true ->
  storage.time_marshals (expires_now c + 7 * 24 * Hour) = true ->
  set_reply c = storage.Done ->
  fst (CreateSession ss c) = (new_uuid c, None)
  /\ (fst (ValidateSession s (snd (CreateSession ss c)) (new_uuid c) v) = true
      <-> get_reply v = storage.Done
          /\ get_at v < set_at c + 7 * 24 * Hour
          /\ checked_now v <= expires_now c + 7 * 24 * Hour).
Proof.
  intros Hpw Hid H1 H2 H3. rewrite CreateSession_saved by assumption.
  split; [reflexivity|]. cbn [snd].
  rewrite ValidateSession_true by assumption. rewrite lookup_insert_eq.
  split.
  - intros (_ & Hr & session & gone & [= <- <-] & Hg & He).
    split; [exact Hr|]. split; [now apply Hg | exact He].
  - intros (Hr & Hg & He). split; [exact Hid|]. split; [exact Hr|].
    do 2 eexists. split; [reflexivity|]. split; [|exact He].
    now intros t [= <-].
Qed.

Lemma session_lifecycle_witness :
  fst (ValidateSession sample_auth (snd (CreateSession ∅ sample_creation))
         (new_uuid sample_creation) sample_validation) = true.
Proof.
  apply (session_lifecycle sample_auth ∅ sample_creation sample_validation);
    try reflexivity; try discriminate.
  split; [reflexivity|]. vm_compute. split; [reflexivity | discriminate].
Defined.

(** X9.  With a password set, a check that finds a session whose
    [ExpiresAt] the clock has passed answers [false] and deletes the
    session; once that deletion went through, no later check accepts the
    identifier. *)
Theorem expired_session_deleted s
    (ss : gmap string (storage.Session.t * option Time)) (sessionID : string)
    session v :
  adminPassword s <> ""%string ->
  sessionID <> ""%string ->
  storage.GetSession ss sessionID (get_at v) (get_reply v)
  = (Some session, None) ->
  storage.Session.ExpiresAt session < checked_now v ->
  fst (ValidateSession s ss sessionID v) = false
  /\ (del_reply v = storage.Done ->
      snd (ValidateSession s ss sessionID v) = delete sessionID ss
      /\ forall v',
           ValidateSession s (snd (ValidateSession s ss sessionID v))
             sessionID v'
           = (false, delete sessionID ss)).
Proof.
  intros Hpw Hid Hget Hexp.
  assert (Hv : ValidateSession s ss sessionID v
               = (false, fst (storage.DeleteSession ss sessionID (del_reply v)))).
  { unfold ValidateSession.
    destruct (String.eqb_spec (adminPassword s) ""); [contradiction|].
    destruct (String.eqb_spec sessionID ""); [contradiction|].
    rewrite Hget.
    destruct (Z.gtb_spec (checked_now v) (storage.Session.ExpiresAt session));
      [reflexivity | lia]. }
  rewrite Hv. split; [reflexivity|]. intros ->. simpl.
  split; [reflexivity|]. intros v'.
  destruct (fst (ValidateSession s (delete sessionID ss) sessionID v')) eqn:E.
  - apply ValidateSession_true in E as (_ & _ & s' & g & Hs & _);
      [|assumption].
    now rewrite lookup_delete_eq in Hs.
  - rewrite (surjective_pairing (ValidateSession _ _ _ _)), E. f_equal.
    destruct (ValidateSession_store s (delete sessionID ss) sessionID v')
      as [Hs|[_ Hs]]; [exact Hs|].
    rewrite Hs. apply delete_id, lookup_delete_eq.
Qed.

Lemma expired_session_deleted_witness :
  ValidateSession sample_auth (snd (CreateSession ∅ sample_creation))
    (new_uuid sample_creation)
    (mkValidation (1700000060 * Second) storage.Done (1800000000 * Second)
       storage.Done)
  = (false, ∅).
Proof.
  pose proof (expired_session_deleted sample_auth
                (snd (CreateSession ∅ sample_creation))
                (new_uuid sample_creation)
                (storage.Session.mk (new_uuid sample_creation)
                   (1700000000 * Second)
                   (1700000000 * Second + 7 * 24 * Hour))
                (mkValidation (1700000060 * Second) storage.Done
                   (1800000000 * Second) storage.Done)) as H.
  destruct H as [Hf Hd]; [discriminate | discriminate | reflexivity
                         | reflexivity |].
  destruct (Hd eq_refl) as [Hs _].
  rewrite (surjective_pairing (ValidateSession _ _ _ _)), Hf, Hs.
  reflexivity.
Defined.

(** ** The middleware, the error handler and the handlers *)

Lemma substring_prefix (pre rest : string) :
  substring 0 (String.length pre) (String.append pre rest) = pre.
Proof.
  induction pre as [|a pre IH].
  - apply substring_none.
  - rewrite append_cons. simpl. now f_equal.
Qed.

Lemma substring_suffix (pre rest : string) :
  substring (String.length pre) (String.length rest) (String.append pre rest)
  = rest.
Proof.
  induction pre as [|a pre IH].
  - rewrite append_nil_l. apply substring_all.
  - rewrite append_cons. simpl. exact IH.
Qed.

(** [len p > n && p[:n] == pre], for a [pre] of [n] bytes: [p] is [pre]
    followed by something, which is [p[n:]]. *)
Lemma starts_with (pre p : string) :
  (len p >? len pre) && String.eqb (slice p 0 (len pre)) pre = true <->
  exists rest, rest <> ""%string /\ p = String.append pre rest
               /\ slice p (len pre) (len p) = rest.
Proof.
  unfold len, slice. rewrite andb_true_iff, String.eqb_eq. split.
  - intros [Hlen Hpre]. apply Z.gtb_lt in Hlen.
    destruct (substring_split (String.length pre) p ltac:(lia)) as [Hp _].
    replace (Z.to_nat (Z.of_nat (String.length pre) - 0))
      with (String.length pre) in Hpre by lia.
    change (Z.to_nat 0) with 0%nat in Hpre. rewrite Hpre in Hp.
    exists (substring (String.length pre)
              (String.length p - String.length pre) p).
    split; [|split; [exact Hp|]].
    + intros Hnil. rewrite Hnil, append_nil_r in Hp. subst p. lia.
    + f_equal; lia.
  - intros (rest & Hne & -> & _). rewrite length_append. split.
    + apply Z.gtb_lt. destruct rest; [contradiction|]. simpl. lia.
    + replace (Z.to_nat (Z.of_nat (String.length pre) - 0))
        with (String.length pre) by lia.
      apply substring_prefix.
Qed.

(** X10.  The middleware lets every request to [/health] and
    [/api/login] through, and every request when no password is set.
    Otherwise a request goes through exactly when its session cookie is
    accepted by [ValidateSession] or its [Authorization] header is
    ["Bearer "] followed by a non-empty token that [jwt.Parse] accepts; a
    request that does not go through gets the 401 answer when its path is
    ["/api"] followed by something, and the redirection to [/login]
    otherwise, the path ["/api"] itself included. *)
Theorem AuthMiddleware_guards authService
    (ss : gmap string (storage.Session.t * option Time)) c v parsed :
  let r := api.AuthMiddleware authService ss c v parsed in
  ((api.Path c = "/health"%string \/ api.Path c = "/api/login"%string
    \/ adminPassword authService = ""%string) ->
   r = (api.Next, ss))
  /\ (api.Path c <> "/health"%string -> api.Path c <> "/api/login"%string ->
      adminPassword authService <> ""%string ->
      (fst r = api.Next <->
       fst (ValidateSession authService ss (api.session_cookie c) v) = true
       \/ exists token,
            token <> ""%string
            /\ api.Authorization c = String.append "Bearer " token
            /\ parsed (jwtSecret authService) token = true)
      /\ (fst r <> api.Next ->
          ((exists rest, rest <> ""%string
                         /\ api.Path c = String.append "/api" rest)
           /\ fst r = api.Unauthorized)
          \/ ((forall rest, rest <> ""%string ->
                 api.Path c <> String.append "/api" rest)
              /\ fst r = api.Redirect "/login"))).
Proof.
  cbv zeta. unfold api.AuthMiddleware, IsAuthRequired. split.
  - intros [-> | [-> | ->]]; try reflexivity. now destruct (_ || _).
  - intros H1 H2 Hpw.
    destruct (String.eqb_spec (api.Path c) "/health"); [contradiction|].
    destruct (String.eqb_spec (api.Path c) "/api/login"); [contradiction|].
    destruct (String.eqb_spec (adminPassword authService) ""); [contradiction|].
    cbn [orb negb].
    assert (Hcookie :
      (if negb (String.eqb (api.session_cookie c) "")
       then ValidateSession authService ss (api.session_cookie c) v
       else (false, ss))
      = ValidateSession authService ss (api.session_cookie c) v).
    { destruct (String.eqb_spec (api.session_cookie c) "") as [He|];
        [|reflexivity].
      rewrite He. unfold ValidateSession.
      destruct (String.eqb_spec (adminPassword authService) "");
        [contradiction | reflexivity]. }
    rewrite Hcookie.
    destruct (ValidateSession authService ss (api.session_cookie c) v)
      as [[|] ss'].
    { cbn [fst]. split; [split; auto | congruence]. }
    cbn [fst].
    pose proof (starts_with "Bearer " (api.Authorization c)) as Hb.
    pose proof (starts_with "/api" (api.Path c)) as Hp.
    change (len "Bearer ") with 7 in Hb. change (len "/api") with 4 in Hp.
    assert (Htoken :
      negb (String.eqb (api.Authorization c) "")
      && (len (api.Authorization c) >? 7)
      && String.eqb (slice (api.Authorization c) 0 7) "Bearer "
      && ValidateJWT authService
           (slice (api.Authorization c) 7 (len (api.Authorization c))) parsed
      = true
      <-> exists token,
            token <> ""%string
            /\ api.Authorization c = String.append "Bearer " token
            /\ parsed (jwtSecret authService) token = true).
    { unfold ValidateJWT.
      destruct (String.eqb_spec (adminPassword authService) "");
        [contradiction|].
      rewrite !andb_true_iff. rewrite andb_true_iff in Hb. split.
      - intros [[[_ Hlen] Hpre] Hj].
        destruct (proj1 Hb (conj Hlen Hpre)) as (rest & Hne & Heq & Hs).
        exists rest. rewrite Hs in Hj. auto.
      - intros (token & Hne & Heq & Hj).
        assert (Hsl : slice (api.Authorization c) 7 (len (api.Authorization c))
                      = token).
        { rewrite Heq. unfold len, slice. rewrite length_append.
          replace (Z.to_nat (Z.of_nat
                     (String.length "Bearer " + String.length token)
                   - 7)) with (String.length token) by (simpl; lia).
          apply (substring_suffix "Bearer " token). }
        destruct (proj2 Hb) as [Hlen Hpre]; [exists token; auto|].
        rewrite Hsl.
        split; [split; [split|]|]; auto.
        rewrite Heq. reflexivity. }
    destruct (negb (String.eqb (api.Authorization c) "")
              && (len (api.Authorization c) >? 7)
              && String.eqb (slice (api.Authorization c) 0 7) "Bearer "
              && ValidateJWT authService
                   (slice (api.Authorization c) 7 (len (api.Authorization c)))
                   parsed) eqn:Ejwt.
    { cbn [fst]. split; [|congruence].
      split; [intros _; right; now apply Htoken | reflexivity]. }
    assert (Hno : ~ (false = true
                     \/ exists token,
                          token <> ""%string
                          /\ api.Authorization c = String.append "Bearer " token
                          /\ parsed (jwtSecret authService) token = true)).
    { intros [?|Hex]; [discriminate|]. apply Htoken in Hex. discriminate. }
    destruct ((len (api.Path c) >? 4)
              && String.eqb (slice (api.Path c) 0 4) "/api") eqn:Epath;
      cbn [fst].
    + split; [split; [discriminate | intros H; now destruct Hno]|].
      intros _. left. split; [|reflexivity].
      destruct (proj1 Hp eq_refl) as (rest & Hne & Heq & _). eauto.
    + split; [split; [discriminate | intros H; now destruct Hno]|].
      intros _. right. split; [|reflexivity].
      intros rest Hne Heq.
      assert (Ht : false = true); [|discriminate].
      apply Hp. exists rest. split; [exact Hne|]. split; [exact Heq|].
      rewrite Heq. unfold len, slice. rewrite length_append.
      replace (Z.to_nat (Z.of_nat (String.length "/api" + String.length rest)
                         - 4)) with (String.length rest) by (simpl; lia).
      apply (substring_suffix "/api" rest).
Qed.

Lemma AuthMiddleware_guards_witness :
  fst (api.AuthMiddleware sample_auth ∅
         (api.mkRequest "/api" "" "") sample_validation (fun _ _ => false))
  = api.Redirect "/login"
  /\ fst (api.AuthMiddleware sample_auth ∅
            (api.mkRequest "/api/keys" "" "") sample_validation
            (fun _ _ => false))
     = api.Unauthorized.
Proof.
  split.
  - pose proof (AuthMiddleware_guards sample_auth ∅
                  (api.mkRequest "/api" "" "") sample_validation
                  (fun _ _ => false)) as H.
    cbv zeta in H. apply proj2 in H.
    specialize (H ltac:(discriminate) ltac:(discriminate) ltac:(discriminate)).
    apply proj2 in H.
    destruct (H ltac:(discriminate)) as [[[rest [Hr E]] _]|[_ E]];
      [|exact E].
    destruct rest; [now elim Hr | cbv in E; discriminate E].
  - pose proof (AuthMiddleware_guards sample_auth ∅
                  (api.mkRequest "/api/keys" "" "") sample_validation
                  (fun _ _ => false)) as H.
    cbv zeta in H. apply proj2 in H.
    specialize (H ltac:(discriminate) ltac:(discriminate) ltac:(discriminate)).
    apply proj2 in H.
    destruct (H ltac:(discriminate)) as [[_ E]|[E _]];
      [exact E | exfalso; now apply (E "/keys"%string)].
Defined.

Lemma CreateSession_failed
    (ss : gmap string (storage.Session.t * option Time)) c err :
  snd (fst (CreateSession ss c)) = Some err -> snd (CreateSession ss c) = ss.
Proof.
  unfold CreateSession, storage.SaveSession.
  destruct (_ && _); [|reflexivity].
  destruct (set_reply c); [discriminate | reflexivity].
Qed.

Lemma CreateSession_id
    (ss : gmap string (storage.Session.t * option Time)) c :
  snd (fst (CreateSession ss c)) = None ->
  fst (fst (CreateSession ss c)) = new_uuid c
  /\ exists entry, snd (CreateSession ss c) = <[new_uuid c := entry]> ss
       /\ fst entry
          = storage.Session.mk (new_uuid c) (created_now c)
              (expires_now c + 7 * 24 * Hour)
       /\ snd entry = Some (set_at c + 7 * 24 * Hour).
Proof.
  unfold CreateSession, storage.SaveSession.
  cbn [storage.Session.ID].
  destruct (_ && _); [|discriminate].
  destruct (set_reply c); [|discriminate].
  intros _. split; [reflexivity|]. eexists. split; [reflexivity|].
  split; reflexivity.
Qed.

(** X11.  [Login] answers 200 exactly when the body parses, the
    password is accepted (any password when none is set, the set one
    otherwise) and the session was saved; only then does it set the
    session cookie, whose value is the new session identifier.  On any
    other answer it sets no cookie and the session store is as it was. *)
Theorem Login_spec authService
    (ss : gmap string (storage.Session.t * option Time)) req c cookie_now :
  let r := api.Login authService ss req c cookie_now in
  (api.Status (fst r) = 200 <->
   exists password,
     req = Some password
     /\ (adminPassword authService = ""%string
         \/ password = adminPassword authService)
     /\ snd (fst (CreateSession ss c)) = None)
  /\ (api.Status (fst r) = 200 ->
      snd r = snd (CreateSession ss c)
      /\ exists cookie,
           api.SetCookie (fst r) = Some cookie
           /\ api.Name cookie = "session"%string
           /\ api.Value cookie = new_uuid c
           /\ api.Expires cookie = cookie_now + 7 * 24 * Hour)
  /\ (api.Status (fst r) <> 200 ->
      api.SetCookie (fst r) = None /\ snd r = ss
      /\ (api.Status (fst r) = 400 \/ api.Status (fst r) = 401
          \/ api.Status (fst r) = 500)).
Proof.
  cbv zeta. unfold api.Login.
  destruct req as [password|]; cbn [fst snd api.Status api.SetCookie].
  2:{ split; [split; [discriminate | now intros (p & ? & _)]|].
      split; [discriminate | auto]. }
  assert (Hpw : ValidatePassword authService password = true
                <-> adminPassword authService = ""%string
                    \/ password = adminPassword authService).
  { unfold ValidatePassword.
    destruct (String.eqb_spec (adminPassword authService) "");
      [split; auto|].
    rewrite String.eqb_eq. split; [auto | now intros [?|?]]. }
  destruct (ValidatePassword authService password);
    cbn [negb fst snd api.Status api.SetCookie].
  2:{ split; [split; [discriminate|]|].
      - intros (p & [= <-] & Hp & _). apply Hpw in Hp. discriminate.
      - split; [discriminate | auto]. }
  pose proof (CreateSession_failed ss c) as Hfail.
  pose proof (CreateSession_id ss c) as Hid.
  destruct (CreateSession ss c) as [[sessionID [err|]] ss'];
    cbn [fst snd api.Status api.SetCookie api.Name api.Value api.Expires] in *.
  - split; [split; [discriminate | now intros (p & _ & _ & ?)]|].
    split; [discriminate|]. intros _. split; [reflexivity|].
    split; [now apply (Hfail err) | auto].
  - destruct (Hid eq_refl) as [-> _].
    split; [split; [|reflexivity]|].
    + intros _. exists password. split; [reflexivity|].
      split; [now apply Hpw | reflexivity].
    + split; [|congruence]. intros _. split; [reflexivity|].
      eexists. split; [reflexivity|]. auto.
Qed.

Lemma Login_spec_witness :
  exists cookie,
    api.SetCookie (fst (api.Login sample_auth ∅ (Some "s3cret"%string)
                          sample_creation (1700000000 * Second)))
    = Some cookie
    /\ api.Value cookie = new_uuid sample_creation.
Proof.
  destruct (Login_spec sample_auth ∅ (Some "s3cret"%string) sample_creation
              (1700000000 * Second)) as (_ & H & _).
  destruct H as (_ & cookie & H1 & _ & H2 & _); [reflexivity|].
  exists cookie. split; assumption.
Defined.

(** X12.  With a password set, after a [Login] that answered 200 a
    request that carries the cookie it set goes through the middleware on
    any path, as long as the lookup reaches the store, the server is less
    than seven days past the save and the clock of the process at most
    seven days past the creation; the check leaves the session in
    place. *)
Theorem login_then_request authService
    (ss : gmap string (storage.Session.t * option Time)) password c cookie_now
    request v parsed :
  adminPassword authService <> ""%string ->
  new_uuid c <> ""%string ->
  let r := api.Login authService ss (Some password) c cookie_now in
  api.Status (fst r) = 200 ->
  option_map api.Value (api.SetCookie (fst r))
  = Some (api.session_cookie request) ->
  get_reply v = storage.Done ->
  get_at v < set_at c + 7 * 24 * Hour ->
  checked_now v <= expires_now c + 7 * 24 * Hour ->
  api.AuthMiddleware authService (snd r) request v parsed = (api.Next, snd r).
Proof.
  intros Hpw Huuid r H200 Hcookie Hr Hg He. subst r.
  revert H200 Hcookie. unfold api.Login.
  destruct (ValidatePassword authService password);
    cbn [negb fst snd api.Status]; [|discriminate].
  pose proof (CreateSession_id ss c) as Hid.
  destruct (CreateSession ss c) as [[sessionID [err|]] ss'];
    cbn [fst snd api.Status api.SetCookie option_map api.Value] in *;
    [discriminate|].
  destruct (Hid eq_refl) as (-> & [session gone] & -> & Hs & Hgone).
  cbn [fst snd] in Hs, Hgone. subst session gone.
  intros _ [= Hc]. unfold api.AuthMiddleware, IsAuthRequired.
  destruct (_ || _); [reflexivity|].
  destruct (String.eqb_spec (adminPassword authService) ""); [contradiction|].
  cbn [negb]. rewrite <- Hc.
  destruct (String.eqb_spec (new_uuid c) ""); [contradiction|]. cbn [negb].
  assert (Hv : fst (ValidateSession authService
                      (<[new_uuid c :=
                           (storage.Session.mk (new_uuid c) (created_now c)
                              (expires_now c + 7 * 24 * Hour),
                            Some (set_at c + 7 * 24 * Hour))]> ss)
                      (new_uuid c) v) = true).
  { apply ValidateSession_true; [assumption|]. split; [assumption|].
    split; [assumption|]. do 2 eexists.
    split; [apply lookup_insert_eq|]. split; [now intros t [= <-] | exact He]. }
  pose proof (ValidateSession_store authService
                (<[new_uuid c :=
                     (storage.Session.mk (new_uuid c) (created_now c)
                        (expires_now c + 7 * 24 * Hour),
                      Some (set_at c + 7 * 24 * Hour))]> ss)
                (new_uuid c) v) as [Hs|[Hf _]]; [|congruence].
  destruct (ValidateSession _ _ _ _) as [valid ss'']. cbn [fst snd] in *.
  subst. reflexivity.
Qed.

Lemma login_then_request_witness :
  api.AuthMiddleware sample_auth
    (snd (api.Login sample_auth ∅ (Some "s3cret"%string) sample_creation
            (1700000000 * Second)))
    (api.mkRequest "/api/data" "0b5cfa32-7d0e-4d3a-9a51-1c2f6f0e8a77" "")
    sample_validation (fun _ _ => false)
  = (api.Next,
     snd (api.Login sample_auth ∅ (Some "s3cret"%string) sample_creation
            (1700000000 * Second))).
Proof.
  apply (login_then_request sample_auth ∅ "s3cret"%string sample_creation
           (1700000000 * Second)
           (api.mkRequest "/api/data" "0b5cfa32-7d0e-4d3a-9a51-1c2f6f0e8a77" "")
           sample_validation (fun _ _ => false));
    try reflexivity; discriminate.
Defined.

(** X13.  With a password set, after a [Logout] whose deletion went
    through, a request that carries the identifier of that session as its
    cookie and no [Authorization] header does not go through the
    middleware on any path but [/health] and [/api/login]. *)
Theorem logout_then_request authService
    (ss : gmap string (storage.Session.t * option Time)) (sessionID : string)
    cookie_now request v parsed :
  adminPassword authService <> ""%string ->
  sessionID <> ""%string ->
  api.Path request <> "/health"%string ->
  api.Path request <> "/api/login"%string ->
  api.session_cookie request = sessionID ->
  api.Authorization request = ""%string ->
  let ss' := snd (api.Logout ss sessionID storage.Done cookie_now) in
  ss' !! sessionID = None
  /\ fst (api.AuthMiddleware authService ss' request v parsed) <> api.Next
  /\ snd (api.AuthMiddleware authService ss' request v parsed) = ss'.
Proof.
  intros Hpw Hid H1 H2 Hc Ha. cbv zeta. unfold api.Logout. cbn [snd].
  destruct (String.eqb_spec sessionID ""); [contradiction|]. cbn [negb].
  unfold DeleteSession, storage.DeleteSession. cbn [fst].
  split; [apply lookup_delete_eq|].
  unfold api.AuthMiddleware, IsAuthRequired.
  destruct (String.eqb_spec (api.Path request) "/health"); [contradiction|].
  destruct (String.eqb_spec (api.Path request) "/api/login"); [contradiction|].
  destruct (String.eqb_spec (adminPassword authService) ""); [contradiction|].
  cbn [orb negb]. rewrite Hc, Ha, (String.eqb_refl "").
  destruct (String.eqb_spec sessionID ""); [contradiction|]. cbn [negb andb].
  destruct (fst (ValidateSession authService (delete sessionID ss) sessionID v))
    eqn:E.
  { apply ValidateSession_true in E as (_ & _ & s' & g & Hs & _);
      [|assumption].
    now rewrite lookup_delete_eq in Hs. }
  pose proof (ValidateSession_store authService (delete sessionID ss)
                sessionID v) as Hst.
  destruct (ValidateSession authService (delete sessionID ss) sessionID v)
    as [valid ss'']. cbn [fst snd] in *. subst valid.
  assert (Hss : ss'' = delete sessionID ss).
  { destruct Hst as [?|[_ ->]]; [assumption|].
    apply delete_id, lookup_delete_eq. }
  subst ss''. destruct (_ && _); cbn [fst snd]; split;
    try discriminate; reflexivity.
Qed.

Lemma logout_then_request_witness :
  fst (api.AuthMiddleware sample_auth
         (snd (api.Logout
                 (snd (CreateSession ∅ sample_creation))
                 (new_uuid sample_creation) storage.Done
                 (1700000100 * Second)))
         (api.mkRequest "/api/data" (new_uuid sample_creation) "")
         sample_validation (fun _ _ => true))
  <> api.Next.
Proof.
  apply (logout_then_request sample_auth
           (snd (CreateSession ∅ sample_creation))
           (new_uuid sample_creation) (1700000100 * Second)
           (api.mkRequest "/api/data" (new_uuid sample_creation) "")
           sample_validation (fun _ _ => true));
    try reflexivity; discriminate.
Defined.

(** X14.  [ErrorHandler] panics on a path of fewer than four bytes,
    such as [/].  Otherwise it answers with the code and message of a
    [fiber.Error], and with 500 and a fixed message for any other error,
    whose own message is not sent; the answer is JSON exactly when the
    path starts with [/api]. *)
Theorem ErrorHandler_spec path err :
  let code :=
    match err with api.FiberError c _ => c | api.OtherError _ => 500 end in
  let message :=
    match err with
    | api.FiberError _ m => m
    | api.OtherError _ => "Internal Server Error"%string
    end in
  (len path < 4 ->
   api.ErrorHandler path err
   = Panicked
       (String.append
          "runtime error: slice bounds out of range [:4] with length "
          (pretty (len path))))
  /\ (forall rest, path = String.append "/api" rest ->
        api.ErrorHandler path err
        = Returned (api.mkResponse code (api.ErrorResponse message) None))
  /\ (4 <= len path ->
      (forall rest, path <> String.append "/api" rest) ->
      api.ErrorHandler path err
      = Returned (api.mkResponse code (api.Text message) None)).
Proof.
  cbv zeta. unfold api.ErrorHandler, api.StatusInternalServerError.
  split; [|split].
  - intros H. destruct (Z.ltb_spec (len path) 4); [|lia]. now destruct err.
  - intros rest ->. unfold len, slice. rewrite length_append.
    change (String.length "/api") with 4%nat.
    destruct (Z.ltb_spec (Z.of_nat (4 + String.length rest)) 4); [lia|].
    change (Z.to_nat 0) with 0%nat. change (Z.to_nat (4 - 0)) with 4%nat.
    pose proof (substring_prefix "/api" rest) as Hpre.
    change (String.length "/api") with 4%nat in Hpre.
    rewrite Hpre. now destruct err.
  - intros Hlen Hno. destruct (Z.ltb_spec (len path) 4); [lia|].
    destruct (String.eqb_spec (slice path 0 4) "/api") as [He|_];
      [|now destruct err].
    exfalso. unfold len, slice in *.
    change (Z.to_nat 0) with 0%nat in He.
    change (Z.to_nat (4 - 0)) with 4%nat in He.
    destruct (substring_split 4 path ltac:(lia)) as [Hp _].
    rewrite He in Hp. exact (Hno _ Hp).
Qed.

Lemma ErrorHandler_spec_witness :
  api.ErrorHandler "/" (api.FiberError 404 "Cannot GET /")
  = Panicked "runtime error: slice bounds out of range [:4] with length 1".
Proof.
  apply (ErrorHandler_spec "/" (api.FiberError 404 "Cannot GET /")).
  reflexivity.
Defined.

(** The state after the only round of the loop of [ImportKeys] on a
    single entry that is counted as a success. *)
Lemma import_single_success env (Key : string) st :
  models.ImportResult.Success (result st) = 0 ->
  (models.ImportResult.Success (result (import_one env 0 Key st)) >? 0) = true ->
  TrimSpace Key <> ""%string
  /\ known (existingMap st) (TrimSpace Key) = false
  /\ saved env 0%nat = storage.Done
  /\ store_now (import_one env 0 Key st)
     = storage.mkStorage
         (filter (fun k => storage.APIKey.ID k <> new_id env 0)
            (storage.keys (store_now st))
          ++ [storage.APIKey.mk (new_id env 0) (TrimSpace Key)
                (String.append "Key " (new_id env 0)) (created_clock env 0)])
         (storage.usage (store_now st)).
Proof.
  intros H0. unfold import_one.
  destruct (String.eqb_spec (TrimSpace Key) "") as [He|Hne].
  { rewrite H0. discriminate. }
  destruct (known (existingMap st) (TrimSpace Key)).
  { cbn [result models.ImportResult.Success]. rewrite H0. discriminate. }
  unfold storage.SaveAPIKey. destruct (saved env 0).
  - intros _. cbn [store_now storage.APIKey.ID]. auto.
  - cbn [result models.ImportResult.Success]. rewrite H0. discriminate.
Qed.

(** X15.  [AddKey] answers 500 with [Failed to add key] for a key that
    is not empty but only white space, when the listing of the stored keys
    went through: the import skips it without counting it, so neither
    count the handler looks at is positive.  The store is as it was. *)
Theorem AddKey_blank store (Key Name : string) env :
  Key <> ""%string -> TrimSpace Key = ""%string ->
  listed env = storage.Done ->
  api.AddKey store (Some (Key, Name)) env
  = (api.mkResponse 500 (api.ErrorResponse "Failed to add key") None, store).
Proof.
  intros Hne Hblank Hl. unfold api.AddKey, ImportKeys, storage.GetAllAPIKeys.
  destruct (String.eqb_spec Key ""); [contradiction|]. rewrite Hl.
  cbn [import_loop]. rewrite import_one_blank by assumption. reflexivity.
Qed.

Lemma AddKey_blank_witness :
  api.AddKey store_with_A (Some ("  "%string, "spare"%string)) sample_import
  = (api.mkResponse 500 (api.ErrorResponse "Failed to add key") None,
     store_with_A).
Proof.
  apply (AddKey_blank store_with_A "  " "spare" sample_import);
    [discriminate | reflexivity | reflexivity].
Defined.





(** X18.  After [DeleteKey] has answered 200 for an identifier,
    [GetFullKey] answers 404 for it, and answers for every other
    identifier as before.  The three commands are not one step: when the
    pipeline breaks after the first of them, [DeleteKey] answers 500 and
    the key is gone all the same. *)
Theorem DeleteKey_then_GetFullKey store (id : string) x :
  id <> ""%string ->
  let r := api.DeleteKey store id x in
  (forall id', id' <> id ->
     api.GetFullKey (snd r) id' storage.Done
     = api.GetFullKey store id' storage.Done)
  /\ (api.Status (fst r) = 200 ->
      api.GetFullKey (snd r) id storage.Done
      = api.mkResponse 404 (api.ErrorResponse "Key not found") None)
  /\ ((1 <= storage.ran x < 3)%nat ->
      fst r = api.mkResponse 500 (api.ErrorResponse (storage.broken x)) None
      /\ api.GetFullKey (snd r) id storage.Done
         = api.mkResponse 404 (api.ErrorResponse "Key not found") None).
Proof.
  intros Hid. cbv zeta.
  unfold api.DeleteKey, DeleteKey, storage.DeleteAPIKey, storage.Exec_err.
  destruct (String.eqb_spec id ""); [contradiction|].
  assert (Hgone : (0 < storage.ran x)%nat ->
            api.GetFullKey (storage.delete_cmds x 0 id store) id storage.Done
            = api.mkResponse 404 (api.ErrorResponse "Key not found") None).
  { intros Hran. unfold api.GetFullKey, GetFullKey, storage.GetAPIKey.
    destruct (String.eqb_spec id ""); [contradiction|].
    unfold storage.delete_cmds. cbn [storage.keys].
    destruct (Nat.ltb_spec 0 (storage.ran x)); [|lia].
    now rewrite find_filter_same. }
  split; [|split].
  - intros id' Hne.
    assert (Hsame : api.GetFullKey (storage.delete_cmds x 0 id store) id'
                      storage.Done
                    = api.GetFullKey store id' storage.Done).
    { unfold api.GetFullKey, GetFullKey, storage.GetAPIKey.
      unfold storage.delete_cmds. cbn [storage.keys].
      destruct (0 <? storage.ran x)%nat; [|reflexivity].
      now rewrite find_filter_other. }
    destruct (3 <=? storage.ran x)%nat; exact Hsame.
  - destruct (Nat.leb_spec 3 (storage.ran x)); cbn [fst snd api.Status];
      [|discriminate].
    intros _. apply Hgone. lia.
  - intros Hran. destruct (Nat.leb_spec 3 (storage.ran x)); [lia|].
    cbn [fst snd]. split; [reflexivity|]. apply Hgone. lia.
Qed.

Lemma DeleteKey_then_GetFullKey_witness :
  fst (api.DeleteKey sample_store "key-2" (storage.mkPipeline 1 "EOF"))
  = api.mkResponse 500 (api.ErrorResponse "EOF") None
  /\ api.GetFullKey
       (snd (api.DeleteKey sample_store "key-2" (storage.mkPipeline 1 "EOF")))
       "key-2" storage.Done
     = api.mkResponse 404 (api.ErrorResponse "Key not found") None.
Proof.
  apply (DeleteKey_then_GetFullKey sample_store "key-2"
           (storage.mkPipeline 1 "EOF")); [discriminate|].
  simpl. lia.
Defined.

(** ** Deleting a key and reporting *)

(** The records of a batch that returned carry the identifiers of its
    keys, in their order, whatever the worker count. *)
Lemma BatchProcess_ids fmt wp keys sched results freshResults :
  BatchProcess fmt wp keys sched = Returned (results, None) ->
  mapM (fun usage : option models.Usage.t => usage) results
  = Some freshResults ->
  map models.Usage.ID freshResults = map storage.APIKey.ID keys.
Proof.
  unfold BatchProcess.
  destruct (Z.eqb_spec (Z.of_nat (length keys)) 0) as [H0|_].
  { intros [= <-] [= <-]. destruct keys; [reflexivity | simpl in H0; lia]. }
  destruct (batchTimeout _ _); [|discriminate]. intros [= <-].
  destruct (ordered_records
              (fold_left collect (recorded fmt wp sched keys) ∅) keys)
    as (fresh & -> & Hids).
  - apply (collect_sound _ ∅); [|apply recorded_sound].
    intros id v. rewrite lookup_empty. discriminate.
  - rewrite mapM_Some. now intros [= <-].
Qed.

(** A report has a record for stored keys only, and what the run writes
    to the cache is under identifiers of stored keys. *)
Lemma GetAggregatedData_ids fmt s store env report eff :
  (forall (id : string) usage, storage.usage store !! id = Some usage ->
     storage.Usage.ID usage = id) ->
  GetAggregatedData fmt s store env = Returned ((Some report, None), eff) ->
  map models.Usage.ID (models.AggregatedData.Data report)
  ≡ₚ map storage.APIKey.ID (storage.keys store)
  /\ storage.keys (store_after eff) = storage.keys store
  /\ forall (id : string),
       (forall k, k ∈ storage.keys store -> storage.APIKey.ID k <> id) ->
       storage.usage store !! id = None ->
       storage.usage (store_after eff) !! id = None.
Proof.
  intros Hkeyed. unfold GetAggregatedData, storage.GetAllAPIKeys.
  destruct (listing env); [|discriminate]. cbn [fst snd].
  destruct (Z.eqb_spec (Z.of_nat (length (storage.keys store))) 0) as [H0|_].
  { intros [= <- <-]. cbn. destruct (storage.keys store);
      [auto | simpl in H0; lia]. }
  destruct (partition_loop_ids s store env (storage.keys store) Hkeyed 0)
    as (hits & Hc & Hperm & _).
  destruct (partition_loop s store env 0 (storage.keys store) [] [])
    as [cached uncached]. cbn [fst snd] in Hc, Hperm.
  destruct (Z.gtb_spec (Z.of_nat (length uncached)) 0) as [_|Hnil].
  2:{ intros [= <- <-]. cbn. rewrite app_nil_r, Hc.
      destruct uncached; [|simpl in Hnil; lia]. rewrite app_nil_r in Hperm.
      split; [now rewrite Hperm | auto]. }
  destruct (BatchProcess fmt (workerPool s) uncached (schedule env))
    as [[results [err|]]|msg] eqn:HB; try discriminate.
  destruct (mapM _ results) as [fresh|] eqn:Hm; [|discriminate].
  pose proof (BatchProcess_ids _ _ _ _ _ _ HB Hm) as Hids.
  intros [= <- <-]. cbn.
  split; [now rewrite map_app, Hc, Hids, <- map_app, Hperm|].
  destruct (_ >? 0); [|auto]. split.
  { unfold storage.BatchSaveUsage.
    now destruct (storage.pipeline_set _ _ _ _). }
  intros id Hno Hnone.
  destruct (storage.usage
              (fst (storage.BatchSaveUsage store (validResults fresh)
                      (cacheTTL s) (applied env))) !! id) as [u|] eqn:E;
    [|reflexivity].
  exfalso.
  apply (BatchSaveUsage_invariant (fun id' _ => id' <> id)) in E;
    [now apply E | | intros id' u' Hu' ->; congruence].
  unfold validResults. apply Forall_map, Forall_forall. intros usage Hin.
  apply list_elem_of_filter in Hin as [_ Hin]. cbn.
  assert (Hid : models.Usage.ID usage ∈ map storage.APIKey.ID uncached).
  { rewrite <- Hids. now apply list_elem_of_fmap_2. }
  apply list_elem_of_fmap in Hid as (k & -> & Hk).
  apply Hno. rewrite Hperm. apply elem_of_app. now right.
Qed.

(** X19.  With a cache that holds each record under its own identifier,
    once the service has deleted a key without an error, a report made
    from the store has no record for that identifier, and the run that
    makes it puts neither the key nor a cached record for it back. *)
Theorem deleted_key_not_reported fmt s store (id : string) x env report eff :
  (forall (id' : string) usage, storage.usage store !! id' = Some usage ->
     storage.Usage.ID usage = id') ->
  snd (DeleteKey store id x) = None ->
  GetAggregatedData fmt s (fst (DeleteKey store id x)) env
  = Returned ((Some report, None), eff) ->
  (forall usage, usage ∈ models.AggregatedData.Data report ->
     models.Usage.ID usage <> id)
  /\ models.AggregatedData.TotalCount report
     = Z.of_nat (length (filter (fun k => storage.APIKey.ID k <> id)
                           (storage.keys store)))
  /\ (forall k, k ∈ storage.keys (store_after eff) -> storage.APIKey.ID k <> id)
  /\ storage.usage (store_after eff) !! id = None.
Proof.
  intros Hkeyed. unfold DeleteKey, storage.DeleteAPIKey, storage.Exec_err.
  cbn [fst snd].
  destruct (Nat.leb_spec 3 (storage.ran x)) as [Hran|]; [|discriminate].
  intros _ Hrun.
  assert (Hk : storage.keys (storage.delete_cmds x 0 id store)
               = filter (fun k => storage.APIKey.ID k <> id)
                   (storage.keys store)).
  { unfold storage.delete_cmds. cbn [storage.keys].
    destruct (Nat.ltb_spec 0 (storage.ran x)); [reflexivity | lia]. }
  assert (Hu : forall (id' : string) usage,
            storage.usage (storage.delete_cmds x 0 id store) !! id'
            = Some usage ->
            storage.Usage.ID usage = id').
  { intros id' usage Hl. apply delete_cmds_usage_Some in Hl.
    now apply Hkeyed. }
  assert (Hn : storage.usage (storage.delete_cmds x 0 id store) !! id = None).
  { rewrite delete_cmds_usage. apply decide_True. left.
    split; [reflexivity | lia]. }
  generalize dependent (storage.delete_cmds x 0 id store).
  intros deleted Hrun Hk Hu Hn.
  assert (Hcount : models.AggregatedData.TotalCount report
                   = Z.of_nat (length (filter
                                         (fun k => storage.APIKey.ID k <> id)
                                         (storage.keys store)))).
  { rewrite <- Hk. revert Hrun.
    unfold GetAggregatedData, storage.GetAllAPIKeys.
    destruct (listing env); [|discriminate]. cbn [fst snd].
    destruct (Z.eqb_spec (Z.of_nat (length (storage.keys deleted))) 0)
      as [H0|_].
    { intros [= <- _]. now rewrite H0. }
    destruct (partition_loop _ _ _ _ _ _ _) as [cached uncached].
    destruct (_ >? 0); [|now intros [= <- _]].
    destruct (BatchProcess _ _ _ _) as [[results [err|]]|msg];
      try discriminate.
    destruct (mapM _ results); [|discriminate]. now intros [= <- _]. }
  apply GetAggregatedData_ids in Hrun as (Hperm & Hkeys & Husage);
    [|exact Hu].
  assert (Hno : forall k, k ∈ storage.keys deleted ->
            storage.APIKey.ID k <> id).
  { intros k Hin. rewrite Hk in Hin.
    now apply list_elem_of_filter in Hin as [Hin _]. }
  split; [|split; [exact Hcount|split]].
  - intros usage Hin Heq.
    assert (Hid : id ∈ map models.Usage.ID (models.AggregatedData.Data report)).
    { rewrite <- Heq. now apply list_elem_of_fmap_2. }
    rewrite Hperm in Hid. apply list_elem_of_fmap in Hid as (k & Hk' & Hin').
    now apply (Hno k).
  - rewrite Hkeys. exact Hno.
  - apply Husage; [exact Hno | exact Hn].
Qed.

Lemma deleted_key_not_reported_witness :
  exists report eff,
    GetAggregatedData layout_only sample_service
      (fst (DeleteKey sample_store "key-2" (storage.mkPipeline 3 "")))
      sample_run
    = Returned ((Some report, None), eff)
    /\ models.AggregatedData.TotalCount report = 1
    /\ storage.usage (store_after eff) !! "key-2"%string = None.
Proof.
  eexists. eexists. split; [vm_compute; reflexivity|].
  destruct (deleted_key_not_reported layout_only sample_service sample_store
              "key-2" (storage.mkPipeline 3 "") sample_run _ _
              (fun id' usage Hu => proj1 (sample_store_keyed id' usage Hu))
              eq_refl ltac:(vm_compute; reflexivity)) as (_ & H2 & _ & H4).
  split; [exact H2 | exact H4].
Defined.

(** ** Submitting with a deadline, and the earlier BatchProcess *)

(** A worker blocks only on an empty buffer, so as long as one is
    blocked the buffer is empty. *)
Lemma worker_run_parked q w :
  ((0 < parked q)%nat -> buffered q = []) ->
  ((0 < parked (worker_run q w))%nat -> buffered (worker_run q w) = [])
  /\ taken (worker_run q w) ++ buffered (worker_run q w)
     = taken q ++ buffered q
  /\ (length (buffered (worker_run q w)) <= length (buffered q))%nat.
Proof.
  intros Hq. unfold worker_run.
  destruct w, (buffered q) as [|task rest] eqn:E.
  - rewrite E. auto.
  - cbn. split; [intros H; specialize (Hq H); discriminate|].
    split; [now rewrite <- app_assoc | lia].
  - cbn. auto.
  - rewrite E. auto.
Qed.

(** What a [SubmitTask] leaves on the queue: the task behind what was
    there when it returned no error, nothing more when it returned one. *)
Lemma SubmitTask_queue cap task ws : forall q,
  ((0 < parked q)%nat -> buffered q = []) ->
  let r := SubmitTask cap task ws q in
  ((0 < parked (fst r))%nat -> buffered (fst r) = [])
  /\ taken (fst r) ++ buffered (fst r)
     = (taken q ++ buffered q)
       ++ match snd r with None => [task] | Some _ => [] end.
Proof.
  assert (Hsend : forall q q',
            ((0 < parked q)%nat -> buffered q = []) ->
            try_send cap task q = Some q' ->
            ((0 < parked q')%nat -> buffered q' = [])
            /\ taken q' ++ buffered q' = (taken q ++ buffered q) ++ [task]).
  { intros q q' Hq. unfold try_send. destruct (parked q) as [|n] eqn:Ep.
    - destruct (_ <? _); [|discriminate].
      intros [= <-]. cbn. split; [lia | now rewrite app_assoc].
    - intros [= <-]. cbn. rewrite (Hq ltac:(lia)).
      split; [reflexivity | now rewrite !app_nil_r]. }
  induction ws as [|w ws IH]; intros q Hq; cbn [SubmitTask].
  - destruct (try_send cap task q) as [q'|] eqn:E; cbn [fst snd].
    + exact (Hsend q q' Hq E).
    + split; [exact Hq | now rewrite app_nil_r].
  - destruct (try_send cap task q) as [q'|] eqn:E; cbn [fst snd].
    + exact (Hsend q q' Hq E).
    + destruct (worker_run_parked q w Hq) as (Hw1 & Hw2 & _).
      specialize (IH (worker_run q w) Hw1). cbv zeta in IH.
      destruct IH as (I1 & I2). split; [exact I1|]. now rewrite I2, Hw2.
Qed.

(** The submission loop of the earlier [BatchProcess] queues the tasks
    of some of the keys, in the order of the keys. *)
Lemma earlier_submit_loop_queue cap sched keys : forall i q,
  ((0 < parked q)%nat -> buffered q = []) ->
  exists sent,
    sent `sublist_of`
      map (fun key => Task.mk (storage.APIKey.ID key) (storage.APIKey.Key key))
        keys
    /\ taken (earlier.submit_loop cap sched i keys q)
       ++ buffered (earlier.submit_loop cap sched i keys q)
       = (taken q ++ buffered q) ++ sent.
Proof.
  induction keys as [|key keys IH]; intros i q Hq; cbn [earlier.submit_loop].
  - exists []. split; [constructor | now rewrite app_nil_r].
  - pose proof (SubmitTask_queue cap
                  (Task.mk (storage.APIKey.ID key) (storage.APIKey.Key key))
                  (earlier.during_submit sched i) q Hq) as H.
    cbv zeta in H. destruct H as [Hwf Hq'].
    destruct (IH (S i) _ Hwf) as (sent & Hsub & Hsent).
    rewrite Hsent, Hq'. cbn [map].
    destruct (snd (SubmitTask _ _ _ _)).
    + exists sent. split; [now apply sublist_cons | now rewrite app_nil_r].
    + eexists (_ :: sent). split; [now apply sublist_skip|].
      now rewrite <- app_assoc.
Qed.

(** X20.  [SubmitTask] neither loses nor duplicates a task.  Starting
    from a queue on which a worker blocks only when the buffer is empty,
    a call that returns no error has put the task behind everything that
    was queued, in the buffer or straight into the hands of a blocked
    worker; a call that returns an error is the [task queue is full]
    one, has queued nothing, and at its deadline no worker was blocked and
    the buffer was at its capacity.  The buffer never grows beyond the
    larger of its capacity and its length at the start. *)
Theorem SubmitTask_spec cap task ws : forall q,
  ((0 < parked q)%nat -> buffered q = []) ->
  let r := SubmitTask cap task ws q in
  ((0 < parked (fst r))%nat -> buffered (fst r) = [])
  /\ (snd r = None ->
      taken (fst r) ++ buffered (fst r) = taken q ++ buffered q ++ [task])
  /\ (snd r <> None ->
      snd r = Some "task queue is full"%string
      /\ taken (fst r) ++ buffered (fst r) = taken q ++ buffered q
      /\ parked (fst r) = 0%nat
      /\ cap <= Z.of_nat (length (buffered (fst r))))
  /\ Z.of_nat (length (buffered (fst r)))
     <= Z.max cap (Z.of_nat (length (buffered q))).
Proof.
  assert (Hsend : forall q q',
            ((0 < parked q)%nat -> buffered q = []) ->
            try_send cap task q = Some q' ->
            ((0 < parked q')%nat -> buffered q' = [])
            /\ taken q' ++ buffered q' = taken q ++ buffered q ++ [task]
            /\ Z.of_nat (length (buffered q'))
               <= Z.max cap (Z.of_nat (length (buffered q)))).
  { intros q q' Hq. unfold try_send. destruct (parked q) as [|n] eqn:Ep.
    - destruct (Z.ltb_spec (Z.of_nat (length (buffered q))) cap);
        [|discriminate].
      intros [= <-]. cbn. split; [lia|]. split; [reflexivity|].
      rewrite length_app. simpl. lia.
    - intros [= <-]. cbn. rewrite (Hq ltac:(lia)).
      split; [reflexivity|]. split; [now rewrite !app_nil_r | simpl; lia]. }
  assert (Hfull : forall q,
            try_send cap task q = None ->
            parked q = 0%nat /\ cap <= Z.of_nat (length (buffered q))).
  { intros q. unfold try_send. destruct (parked q); [|discriminate].
    destruct (Z.ltb_spec (Z.of_nat (length (buffered q))) cap);
      [discriminate | auto]. }
  induction ws as [|w ws IH]; intros q Hq; cbn [SubmitTask].
  - destruct (try_send cap task q) as [q'|] eqn:E; cbn [fst snd].
    + destruct (Hsend q q' Hq E) as (H1 & H2 & H3).
      split; [exact H1|]. split; [auto|]. split; [congruence | exact H3].
    + destruct (Hfull q E) as [H1 H2].
      split; [exact Hq|]. split; [discriminate|]. split; [auto | lia].
  - destruct (try_send cap task q) as [q'|] eqn:E; cbn [fst snd].
    + destruct (Hsend q q' Hq E) as (H1 & H2 & H3).
      split; [exact H1|]. split; [auto|]. split; [congruence | exact H3].
    + destruct (worker_run_parked q w Hq) as (Hw1 & Hw2 & Hw3).
      specialize (IH (worker_run q w) Hw1). cbv zeta in IH.
      destruct IH as (I1 & I2 & I3 & I4).
      split; [exact I1|].
      split; [intros H; now rewrite (I2 H), !app_assoc, Hw2|].
      split; [rewrite <- Hw2; exact I3 | lia].
Qed.

Lemma SubmitTask_spec_witness :
  snd (SubmitTask 1 (Task.mk "key-3" "fk-eeeeffff00001111") [Park; Park]
         (mkQueue [Task.mk "key-1" "fk-0123456789abcdef"] 0 []))
  = Some "task queue is full"%string.
Proof.
  apply (SubmitTask_spec 1 (Task.mk "key-3" "fk-eeeeffff00001111") [Park; Park]
           (mkQueue [Task.mk "key-1" "fk-0123456789abcdef"] 0 []));
    [simpl; lia | discriminate].
Defined.

(** The collection loop of the earlier [BatchProcess] ends exactly when
    enough results have arrived. *)
Lemma earlier_collectLoop_ends fmt n rs : forall received m,
  (exists m', earlier.collectLoop fmt n received rs m = Some m')
  <-> n - received
      <= Z.of_nat (length (List.filter
                             (fun r => match r with
                                       | earlier.Arrived _ _ => true
                                       | _ => false
                                       end) rs)).
Proof.
  induction rs as [|r rs IH]; intros received m; cbn [earlier.collectLoop].
  - destruct (Z.ltb_spec received n); simpl.
    + split; [now intros [m' ?] | lia].
    + split; [lia | eauto].
  - destruct (Z.ltb_spec received n).
    + destruct r; cbn [List.filter]; rewrite IH; [|reflexivity..].
      cbn [length]. lia.
    + split; [|eauto]. intros _.
      pose proof (Nat2Z.is_nonneg (length (List.filter
                    (fun r => match r with
                              | earlier.Arrived _ _ => true
                              | _ => false
                              end) (r :: rs)))). lia.
Qed.

(** X21.  The earlier [BatchProcess] returns exactly when as many
    results have arrived as there are keys: the thirty-second timer and a
    closed result queue leave the [select], not the loop, so with fewer
    arrivals the call is still in its loop however many rounds pass.
    That count does not depend on the submission, which queues the tasks
    of only some of the keys, in their order, and drops the error of the
    others.  When the call returns, it returns one entry per key and no
    error. *)
Theorem earlier_BatchProcess_waits fmt wp keys sched :
  let r := earlier.BatchProcess fmt wp keys sched in
  ((exists v, snd r = Some v)
   <-> (length keys
        <= length (List.filter
                     (fun r => match r with
                               | earlier.Arrived _ _ => true
                               | _ => false
                               end) (earlier.rounds sched)))%nat)
  /\ (forall v, snd r = Some v ->
        length (fst v) = length keys /\ snd v = None)
  /\ (keys <> [] ->
      Forall (fun r => match r with
                       | earlier.Arrived _ _ => False
                       | _ => True
                       end) (earlier.rounds sched) ->
      snd r = None)
  /\ (((0 < parked (taskQueue wp))%nat -> buffered (taskQueue wp) = []) ->
      exists sent,
        sent `sublist_of`
          map (fun key =>
                 Task.mk (storage.APIKey.ID key) (storage.APIKey.Key key))
            keys
        /\ taken (fst r) ++ buffered (fst r)
           = (taken (taskQueue wp) ++ buffered (taskQueue wp)) ++ sent).
Proof.
  cbv zeta.
  pose proof (earlier_collectLoop_ends fmt (Z.of_nat (length keys))
                (earlier.rounds sched) 0 ∅) as Hends.
  assert (Hq : fst (earlier.BatchProcess fmt wp keys sched)
               = earlier.submit_loop (queueSize wp) sched 0 keys
                   (taskQueue wp)).
  { unfold earlier.BatchProcess. now destruct (earlier.collectLoop _ _ _ _ _). }
  rewrite Hq. clear Hq.
  assert (Hsub := earlier_submit_loop_queue (queueSize wp) sched keys 0
                    (taskQueue wp)).
  unfold earlier.BatchProcess.
  destruct (earlier.collectLoop fmt _ 0 (earlier.rounds sched) ∅)
    as [resultMap|]; cbn [snd].
  - split; [|split; [|split; [|exact Hsub]]].
    + split; [intros _ | eauto].
      assert (H : exists m', Some resultMap = Some m') by eauto.
      apply Hends in H. lia.
    + intros v [= <-]. cbn. unfold ordered. now rewrite length_map.
    + intros Hne Hall. exfalso.
      assert (H : exists m', Some resultMap = Some m') by eauto.
      apply Hends in H.
      assert (Hz : List.filter
                (fun r => match r with
                          | earlier.Arrived _ _ => true
                          | _ => false
                          end) (earlier.rounds sched) = []).
      { clear -Hall. induction Hall as [|r rs Hr _ IH]; [reflexivity|].
        destruct r; [contradiction | exact IH | exact IH]. }
      rewrite Hz in H. destruct keys; [congruence | simpl in H; lia].
  - split; [|split; [discriminate | split; [reflexivity | exact Hsub]]].
    split; [now intros [v ?]|]. intros H.
    assert (Hex : exists m' : gmap string (option models.Usage.t),
              None = Some m') by (apply Hends; lia).
    now destruct Hex.
Qed.

Lemma earlier_BatchProcess_waits_witness :
  snd (earlier.BatchProcess layout_only sample_pool [key_1; key_2]
         (earlier.mkSchedule (fun _ => [])
            [earlier.Arrived (Task.mk "key-1" "fk-0123456789abcdef")
               (DoFailed "i/o timeout");
             earlier.TimedOut; earlier.Closed; earlier.Closed]))
  = None.
Proof.
  destruct (snd (earlier.BatchProcess layout_only sample_pool [key_1; key_2]
                   (earlier.mkSchedule (fun _ => [])
                      [earlier.Arrived (Task.mk "key-1" "fk-0123456789abcdef")
                         (DoFailed "i/o timeout");
                       earlier.TimedOut; earlier.Closed; earlier.Closed])))
    as [v|] eqn:E; [|reflexivity].
  exfalso.
  assert (H : (2 <= 1)%nat); [|lia].
  apply (proj1 (earlier_BatchProcess_waits layout_only sample_pool
                  [key_1; key_2]
                  (earlier.mkSchedule (fun _ => [])
                     [earlier.Arrived (Task.mk "key-1" "fk-0123456789abcdef")
                        (DoFailed "i/o timeout");
                      earlier.TimedOut; earlier.Closed; earlier.Closed]))).
  now exists v.
Defined.

(** ** Reading the configuration *)

Lemma digits_app l1 : forall acc l2,
  config.digits acc (l1 ++ l2)
  = match config.digits acc l1 with
    | Some v => config.digits v l2
    | None => None
    end.
Proof.
  induction l1 as [|c l1 IH]; intros acc l2; simpl; [reflexivity|].
  destruct (config.digit c); [apply IH | reflexivity].
Qed.

Lemma digit_pretty_N_char (x : N) :
  (x < 10)%N -> config.digit (pretty_N_char x) = Some (Z.of_N x).
Proof.
  intros H.
  assert (x = 0 \/ x = 1 \/ x = 2 \/ x = 3 \/ x = 4 \/ x = 5 \/ x = 6
          \/ x = 7 \/ x = 8 \/ x = 9)%N as Hx by lia.
  repeat (destruct Hx as [->|Hx]; [reflexivity|]). now subst.
Qed.

(** The digits that [pretty] puts in front of what it is given read back
    as the number. *)
Lemma digits_pretty_N_go (x : N) : forall s,
  exists l,
    list_ascii_of_string (pretty_N_go x s) = l ++ list_ascii_of_string s
    /\ ((0 < x)%N -> l <> [])
    /\ forall acc, config.digits acc l
                   = Some (acc * 10 ^ Z.of_nat (length l) + Z.of_N x).
Proof.
  induction (N.lt_wf_0 x) as [x _ IH]; intros s.
  destruct (N.eq_dec x 0%N) as [->|Hx].
  - exists []. rewrite pretty_N_go_0. split; [reflexivity|].
    split; [lia|]. intros acc. simpl. f_equal. lia.
  - rewrite pretty_N_go_step by lia.
    destruct (IH (x `div` 10)%N ltac:(apply N.div_lt; lia)
                (String (pretty_N_char (x `mod` 10)) s))
      as (l & Hl & _ & Hd).
    exists (l ++ [pretty_N_char (x `mod` 10)%N]).
    split; [rewrite Hl; simpl; now rewrite <- app_assoc|].
    split; [intros _; now destruct l|].
    intros acc. rewrite digits_app, Hd. simpl.
    rewrite digit_pretty_N_char by (apply N.mod_lt; lia). f_equal.
    rewrite length_app. simpl length.
    rewrite Nat2Z.inj_add, Z.pow_add_r by lia. change (10 ^ Z.of_nat 1) with 10.
    rewrite (N.div_mod x 10) at 3 by lia.
    rewrite N2Z.inj_add, N2Z.inj_mul. change (Z.of_N 10) with 10. ring.
Qed.

Lemma magnitude_pretty_pos (p : positive) :
  exists c l,
    list_ascii_of_string (pretty (N.pos p)) = c :: l
    /\ config.digit c <> None
    /\ config.magnitude (c :: l) = Some (Z.pos p).
Proof.
  unfold pretty, pretty_N. rewrite decide_False by discriminate.
  destruct (digits_pretty_N_go (N.pos p) "") as (l & Hl & Hne & Hd).
  simpl in Hl. rewrite app_nil_r in Hl.
  destruct l as [|c l]; [now destruct Hne|].
  exists c, l. split; [exact Hl|].
  pose proof (Hd 0) as H0. split.
  - simpl in H0. now destruct (config.digit c).
  - unfold config.magnitude. rewrite H0. f_equal.
Qed.

Lemma digit_not_sign c :
  config.digit c <> None -> c <> "-"%char /\ c <> "+"%char.
Proof. intros H. split; intros ->; now apply H. Qed.

Lemma Atoi_pretty (n : Z) :
  MinInt64 <= n <= MaxInt64 -> config.Atoi (pretty n) = Some n.
Proof.
  intros Hn. unfold config.Atoi.
  assert (Hr : (MinInt64 <=? n) && (n <=? MaxInt64) = true).
  { apply andb_true_iff. split; apply Z.leb_le; lia. }
  destruct n as [|p|p].
  - reflexivity.
  - change (pretty (Z.pos p)) with (pretty (N.pos p)).
    destruct (magnitude_pretty_pos p) as (c & l & -> & Hc & Hm).
    apply digit_not_sign in Hc as [H1 H2].
    assert (Hsel : match c :: l with
                   | "-"%char :: rest => option_map Z.opp (config.magnitude rest)
                   | "+"%char :: rest => config.magnitude rest
                   | l0 => config.magnitude l0
                   end = config.magnitude (c :: l)).
    { destruct c as [[] [] [] [] [] [] [] []]; try reflexivity;
        contradiction. }
    rewrite Hsel, Hm, Hr. reflexivity.
  - change (pretty (Z.neg p)) with ("-" +:+ pretty (N.pos p)).
    change (list_ascii_of_string ("-" +:+ pretty (N.pos p)))
      with ("-"%char :: list_ascii_of_string (pretty (N.pos p))).
    destruct (magnitude_pretty_pos p) as (c & l & -> & _ & Hm).
    rewrite Hm. cbn [option_map]. change (- Z.pos p) with (Z.neg p).
    rewrite Hr. reflexivity.
Qed.

Lemma getEnv_set (environ : gmap string string) (key v d : string) :
  environ !! key = Some v -> v <> ""%string -> config.getEnv environ key d = v.
Proof.
  intros He Hv. unfold config.getEnv, config.Getenv. rewrite He.
  change (default ""%string (Some v)) with v.
  now destruct (String.eqb_spec v "").
Qed.

Lemma pretty_not_empty (n : Z) :
  MinInt64 <= n <= MaxInt64 -> pretty n <> ""%string.
Proof.
  intros Hn He. pose proof (Atoi_pretty n Hn) as H. rewrite He in H.
  discriminate.
Qed.

Lemma getEnvAsInt_pretty (environ : gmap string string) (key : string) d n :
  MinInt64 <= n <= MaxInt64 ->
  environ !! key = Some (pretty n) -> config.getEnvAsInt environ key d = n.
Proof.
  intros Hn He. unfold config.getEnvAsInt.
  rewrite (getEnv_set environ key (pretty n)) by
    (try assumption; now apply pretty_not_empty).
  now rewrite Atoi_pretty.
Qed.

(** X22.  [getEnvAsInt] gives the default for a variable that is not
    set or is empty, and reads a variable that holds a 64-bit integer
    written in decimal as that integer, whatever its sign: nothing keeps a
    count or a size above zero.  What it gives is the default or a 64-bit
    integer. *)
Theorem getEnvAsInt_spec (environ : gmap string string) (key : string)
    (defaultValue : Z) :
  (environ !! key = None \/ environ !! key = Some ""%string ->
   config.getEnvAsInt environ key defaultValue = defaultValue)
  /\ (forall n, MinInt64 <= n <= MaxInt64 ->
        environ !! key = Some (pretty n) ->
        config.getEnvAsInt environ key defaultValue = n)
  /\ (config.getEnvAsInt environ key defaultValue = defaultValue
      \/ MinInt64 <= config.getEnvAsInt environ key defaultValue <= MaxInt64).
Proof.
  split; [|split].
  - unfold config.getEnvAsInt, config.getEnv, config.Getenv.
    intros [->| ->]; reflexivity.
  - intros n Hn He. fold (config.Getenv environ key).
    fold (config.getEnv environ key "").
    fold (config.getEnvAsInt environ key defaultValue).
    now apply getEnvAsInt_pretty.
  - unfold config.getEnvAsInt.
    destruct (config.Atoi _) as [v|] eqn:E; [right | now left].
    unfold config.Atoi in E.
    destruct (match list_ascii_of_string _ with [] => _ | _ => _ end);
      [|discriminate].
    destruct (_ && _) eqn:Hr; [|discriminate]. injection E as <-.
    apply andb_true_iff in Hr as [H1 H2].
    apply Z.leb_le in H1, H2. lia.
Qed.

Lemma getEnvAsInt_spec_witness :
  config.getEnvAsInt {[ "MAX_WORKERS"%string := pretty (-5) ]} "MAX_WORKERS" 100
  = -5.
Proof.
  apply (getEnvAsInt_spec {[ "MAX_WORKERS"%string := pretty (-5) ]}
           "MAX_WORKERS" 100); [vm_compute; split; discriminate|].
  reflexivity.
Defined.

(** X23.  The configuration is handed to the worker pool as read.  With
    [QUEUE_SIZE] set to a negative 64-bit integer, making the pool panics.
    With [MAX_WORKERS] set to zero the pool is made, and then every
    [BatchProcess] on a non-empty key list panics on the division by the
    worker count. *)
Theorem Load_unchecked_pool ParseDuration (environ : gmap string string) fmt :
  let cfg := config.Load ParseDuration environ in
  (forall n, MinInt64 <= n < 0 ->
     environ !! "QUEUE_SIZE"%string = Some (pretty n) ->
     NewWorkerPool (config.MaxWorkers cfg) (config.QueueSize cfg)
     = Panicked "makechan: size out of range")
  /\ (environ !! "MAX_WORKERS"%string = Some "0"%string ->
      forall wp keys sched,
        NewWorkerPool (config.MaxWorkers cfg) (config.QueueSize cfg)
        = Returned wp ->
        keys <> [] ->
        BatchProcess fmt wp keys sched
        = Panicked "runtime error: integer divide by zero").
Proof.
  cbv zeta. unfold config.Load. cbn [config.MaxWorkers config.QueueSize].
  split.
  - intros n Hn He.
    rewrite (getEnvAsInt_pretty environ "QUEUE_SIZE" 10000 n)
      by (try assumption; unfold MaxInt64; lia).
    unfold NewWorkerPool.
    destruct (Z.ltb_spec n 0); [reflexivity | lia].
  - intros He wp keys sched.
    assert (Hw : config.getEnvAsInt environ "MAX_WORKERS" 100 = 0).
    { unfold config.getEnvAsInt, config.getEnv, config.Getenv. now rewrite He. }
    rewrite Hw. unfold NewWorkerPool.
    destruct (_ <? 0); [discriminate|]. intros [= <-] Hk.
    unfold BatchProcess.
    destruct (Z.eqb_spec (Z.of_nat (length keys)) 0) as [H0|_].
    { destruct keys; [congruence | simpl in H0; lia]. }
    reflexivity.
Qed.

Lemma Load_unchecked_pool_witness :
  BatchProcess layout_only
    (mkPool 0 10000 (mkQueue [] 0 [])) [key_1] sample_sched
  = Panicked "runtime error: integer divide by zero".
Proof.
  apply (proj2 (Load_unchecked_pool (fun _ => None)
                  {[ "MAX_WORKERS"%string := "0"%string ]} layout_only));
    [reflexivity | reflexivity | discriminate].
Defined.

(** X24.  Without [ADMIN_PASSWORD] in the environment, or with an empty
    one, the service made from the configuration guards nothing: the
    middleware lets every request through on every path without looking
    at the session store, and [ValidatePassword] accepts every
    password. *)
Theorem no_password_open ParseDuration (environ : gmap string string) :
  environ !! "ADMIN_PASSWORD"%string = None
  \/ environ !! "ADMIN_PASSWORD"%string = Some ""%string ->
  let authService :=
    NewAuthService (config.AdminPassword (config.Load ParseDuration environ)) in
  (forall ss request v parsed,
     api.AuthMiddleware authService ss request v parsed = (api.Next, ss))
  /\ (forall password, ValidatePassword authService password = true)
  /\ forall ss sessionID v, ValidateSession authService ss sessionID v = (true, ss).
Proof.
  intros He. cbv zeta. unfold config.Load. cbn [config.AdminPassword].
  assert (Hp : config.getEnv environ "ADMIN_PASSWORD" "" = ""%string).
  { unfold config.getEnv, config.Getenv. now destruct He as [-> | ->]. }
  rewrite Hp. split; [|split].
  - intros ss request v parsed. unfold api.AuthMiddleware.
    now destruct (_ || _).
  - reflexivity.
  - reflexivity.
Qed.

Lemma no_password_open_witness :
  api.AuthMiddleware
    (NewAuthService
       (config.AdminPassword (config.Load (fun _ => None) ∅)))
    ∅ (api.mkRequest "/api/keys/key-1" "" "") sample_validation
    (fun _ _ => false)
  = (api.Next, ∅).
Proof.
  apply (no_password_open (fun _ => None) ∅). now left.
Defined.

(** ** A key from its addition to its deletion *)

Lemma new_id_not_empty env i : new_id env i <> ""%string.
Proof. unfold new_id. discriminate. Qed.

(** A credential that no listed key has is not known at the start of an
    import. *)
Lemma unknown_fold_insert (existingKeys : list storage.APIKey.t) :
  forall m (k : string),
    known m k = false ->
    (forall key, key ∈ existingKeys -> storage.APIKey.Key key <> k) ->
    known (fold_left (fun m key => <[storage.APIKey.Key key := true]> m)
             existingKeys m) k = false.
Proof.
  induction existingKeys as [|key rest IH]; intros m k Hm Hno; simpl;
    [exact Hm|].
  apply IH.
  - unfold known. rewrite lookup_insert_ne; [exact Hm|].
    apply Hno. left.
  - intros key' Hin. apply Hno. now right.
Qed.



(** X26.  A key that was added and then deleted can be added again:
    after [AddKey] has answered 200 and [DeleteKey] has answered 200 for
    the identifier it made, the store lists the keys it listed before the
    addition, and an [AddKey] of the same key whose listing and save go
    through answers 200, not [Key already exists]. *)
Theorem add_delete_add store (Key Name Key' Name' : string) env x env' :
  api.Status (fst (api.AddKey store (Some (Key, Name)) env)) = 200 ->
  let added := snd (api.AddKey store (Some (Key, Name)) env) in
  api.Status (fst (api.DeleteKey added (new_id env 0) x)) = 200 ->
  let deleted := snd (api.DeleteKey added (new_id env 0) x) in
  Key' <> ""%string -> TrimSpace Key' = TrimSpace Key ->
  listed env' = storage.Done -> saved env' 0%nat = storage.Done ->
  (forall k, k ∈ storage.keys deleted <->
             k ∈ storage.keys store /\ storage.APIKey.ID k <> new_id env 0)
  /\ fst (api.AddKey deleted (Some (Key', Name')) env')
     = api.mkResponse 200 (api.SuccessResponse true "Key added successfully")
         None.
Proof.
  intros H200. cbv zeta.
  assert (Hs : snd (api.AddKey store (Some (Key, Name)) env)
               = storage.mkStorage
                   (filter (fun k => storage.APIKey.ID k <> new_id env 0)
                      (storage.keys store)
                    ++ [storage.APIKey.mk (new_id env 0) (TrimSpace Key)
                          (String.append "Key " (new_id env 0))
                          (created_clock env 0)])
                   (storage.usage store)
               /\ Key <> ""%string /\ TrimSpace Key <> ""%string
               /\ forall k, k ∈ storage.keys store ->
                    storage.APIKey.Key k <> TrimSpace Key).
  { revert H200. unfold api.AddKey, ImportKeys, storage.GetAllAPIKeys.
    destruct (String.eqb_spec Key ""); [discriminate|].
    destruct (listed env); [|discriminate].
    cbn [import_loop].
    pose proof (import_single_success env Key
                  (import_start store (storage.keys store)) eq_refl) as H.
    destruct (_ >? 0); [|destruct (_ >? 0); discriminate].
    intros _. destruct (H eq_refl) as (Hne & Hk & _ & Hs).
    split; [exact Hs|]. split; [assumption|]. split; [exact Hne|].
    intros k Hin Heq. unfold import_start in Hk. cbn [existingMap] in Hk.
    rewrite known_fold_insert in Hk; [discriminate|]. right. now exists k. }
  destruct Hs as (-> & HKey & Htrim & Hfresh).
  unfold api.DeleteKey, DeleteKey, storage.DeleteAPIKey, storage.Exec_err.
  destruct (String.eqb_spec (new_id env 0) "") as [He|_];
    [now apply new_id_not_empty in He|].
  destruct (Nat.leb_spec 3 (storage.ran x)) as [Hran|];
    cbn [fst snd api.Status]; [|discriminate].
  intros _ HKey' Htrim' Hl Hsv.
  assert (Hkeys : forall k,
            k ∈ storage.keys
                  (storage.delete_cmds x 0 (new_id env 0)
                     (storage.mkStorage
                        (filter (fun k => storage.APIKey.ID k <> new_id env 0)
                           (storage.keys store)
                         ++ [storage.APIKey.mk (new_id env 0) (TrimSpace Key)
                               (String.append "Key " (new_id env 0))
                               (created_clock env 0)])
                        (storage.usage store)))
            <-> k ∈ storage.keys store
                /\ storage.APIKey.ID k <> new_id env 0).
  { intros k. rewrite delete_cmds_keys. cbn [storage.keys].
    rewrite elem_of_app, list_elem_of_filter, list_elem_of_singleton.
    split.
    - intros [[[Hne Hin] | ->] Hid]; [auto|].
      exfalso. apply Hid; [lia | reflexivity].
    - intros [Hin Hne]. split; [left; auto | auto]. }
  split; [exact Hkeys|].
  generalize dependent (storage.delete_cmds x 0 (new_id env 0)
    (storage.mkStorage
       (filter (fun k => storage.APIKey.ID k <> new_id env 0)
          (storage.keys store)
        ++ [storage.APIKey.mk (new_id env 0) (TrimSpace Key)
              (String.append "Key " (new_id env 0)) (created_clock env 0)])
       (storage.usage store))).
  intros deleted Hkeys.
  unfold api.AddKey, ImportKeys, storage.GetAllAPIKeys.
  destruct (String.eqb_spec Key' ""); [contradiction|]. rewrite Hl.
  cbn [import_loop]. unfold import_one. rewrite Htrim'.
  destruct (String.eqb_spec (TrimSpace Key) ""); [contradiction|].
  unfold import_start at 1. cbn [existingMap].
  rewrite unknown_fold_insert.
  - cbn [store_now import_start]. rewrite Hsv. reflexivity.
  - reflexivity.
  - intros k Hk. apply Hkeys in Hk as [Hk _]. now apply Hfresh.
Qed.

Lemma add_delete_add_witness :
  fst (api.AddKey
         (snd (api.DeleteKey
                 (snd (api.AddKey store_with_A
                         (Some (" B "%string, "mine"%string)) sample_import))
                 (new_id sample_import 0) (storage.mkPipeline 3 "")))
         (Some ("B"%string, "again"%string)) sample_import)
  = api.mkResponse 200 (api.SuccessResponse true "Key added successfully") None.
Proof.
  apply (add_delete_add store_with_A " B " "mine" "B" "again" sample_import
           (storage.mkPipeline 3 "") sample_import);
    try reflexivity; discriminate.
Defined.

(** ** The signing secret *)

(** X27.  The service signs and checks tokens with one constant secret,
    whatever the password.  So a request with [Authorization: Bearer]
    followed by a non-empty token that parses as valid under that
    constant goes through the middleware on every path, for every
    password, without a session and without touching the session store
    when it carries no session cookie. *)
Theorem fixed_secret_bearer (password : string)
    (ss : gmap string (storage.Session.t * option Time)) request v parsed
    (token : string) :
  token <> ""%string ->
  api.Authorization request = String.append "Bearer " token ->
  parsed "your-secret-key-change-this-in-production"%string token = true ->
  fst (api.AuthMiddleware (NewAuthService password) ss request v parsed)
  = api.Next
  /\ (api.session_cookie request = ""%string ->
      api.AuthMiddleware (NewAuthService password) ss request v parsed
      = (api.Next, ss)).
Proof.
  intros Htoken Hauth Hparsed.
  assert (HB : negb (String.eqb (api.Authorization request) "")
               && (len (api.Authorization request) >? 7)
               && String.eqb (slice (api.Authorization request) 0 7) "Bearer "
               && ValidateJWT (NewAuthService password)
                    (slice (api.Authorization request) 7
                       (len (api.Authorization request))) parsed = true).
  { assert (Hb : (len (api.Authorization request) >? len "Bearer ")
                   && String.eqb
                        (slice (api.Authorization request) 0 (len "Bearer "))
                        "Bearer " = true).
    { apply starts_with. exists token. split; [exact Htoken|].
      split; [exact Hauth|].
      rewrite Hauth. unfold len, slice. rewrite length_append.
      change (String.length "Bearer ") with 7%nat.
      replace (Z.to_nat (Z.of_nat 7)) with (String.length "Bearer ")
        by reflexivity.
      replace (Z.to_nat (Z.of_nat (7 + String.length token) - Z.of_nat 7))
        with (String.length token) by lia.
      apply substring_suffix. }
    apply andb_true_iff in Hb as [Hlen Hpre].
    change (len "Bearer ") with 7 in Hlen, Hpre.
    rewrite Hlen, Hpre.
    assert (Hne : String.eqb (api.Authorization request) "" = false).
    { rewrite Hauth. reflexivity. }
    rewrite Hne. cbn [negb andb].
    assert (Htok : slice (api.Authorization request) 7
                     (len (api.Authorization request)) = token).
    { rewrite Hauth. unfold len, slice. rewrite length_append.
      change (String.length "Bearer ") with 7%nat.
      replace (Z.to_nat 7) with (String.length "Bearer ") by reflexivity.
      replace (Z.to_nat (Z.of_nat (7 + String.length token) - 7))
        with (String.length token) by lia.
      apply substring_suffix. }
    rewrite Htok. unfold ValidateJWT, NewAuthService.
    cbn [adminPassword jwtSecret]. rewrite Hparsed.
    now destruct (String.eqb password ""). }
  unfold api.AuthMiddleware.
  destruct (_ || _); [auto|].
  destruct (negb (IsAuthRequired _)); [auto|].
  split.
  - destruct (negb (String.eqb (api.session_cookie request) "")).
    + destruct (ValidateSession _ _ _ _) as [[] ss']; [reflexivity|].
      now rewrite HB.
    + now rewrite HB.
  - intros ->. cbn [String.eqb negb]. now rewrite HB.
Qed.

Lemma fixed_secret_bearer_witness :
  api.AuthMiddleware (NewAuthService "s3cret") ∅
    (api.mkRequest "/api/keys/key-1" "" "Bearer e30.e30.c2ln")
    sample_validation
    (fun secret token =>
       String.eqb secret "your-secret-key-change-this-in-production"
       && String.eqb token "e30.e30.c2ln")
  = (api.Next, ∅).
Proof.
  apply (fixed_secret_bearer "s3cret" ∅
           (api.mkRequest "/api/keys/key-1" "" "Bearer e30.e30.c2ln")
           sample_validation
           (fun secret token =>
              String.eqb secret "your-secret-key-change-this-in-production"
              && String.eqb token "e30.e30.c2ln")
           "e30.e30.c2ln");
    try reflexivity; discriminate.
Defined.

(** ** Importing blank entries, and the metrics *)

Lemma import_loop_blank env keys : forall i st,
  Forall (fun e => TrimSpace e = ""%string) keys ->
  import_loop env i keys st = st.
Proof.
  induction keys as [|e keys IH]; intros i st Hall; [reflexivity|].
  apply Forall_cons in Hall as [He Hall]. cbn [import_loop].
  rewrite import_one_blank by exact He. now apply IH.
Qed.

(** X28.  The [ImportKeys] handler answers 400 for a body that does not
    parse or has no entry, and otherwise takes its answer from the
    service: 500 when the listing of the stored keys fails, 200 when it
    goes through.  A list whose entries are all empty or white space gets
    200 with three zero counts and leaves the store as it was, where
    [AddKey] refuses an empty key and fails on a blank one. *)
Theorem ImportKeys_handler store req env :
  let r := api.ImportKeys store req env in
  (api.Status (fst r) = 200 <->
   exists Keys, req = Some Keys /\ Keys <> [] /\ listed env = storage.Done)
  /\ (forall Keys, req = Some Keys -> Keys <> [] ->
      listed env = storage.Done ->
      Forall (fun e => TrimSpace e = ""%string) Keys ->
      r = (api.mkResponse 200
             (api.ImportResult (models.ImportResult.mk 0 0 0)) None,
           store))
  /\ (api.Status (fst r) <> 200 -> snd r = store).
Proof.
  cbv zeta. unfold api.ImportKeys, ImportKeys, storage.GetAllAPIKeys.
  destruct req as [Keys|].
  2:{ split; [split; [discriminate | now intros (? & ? & _)]|].
      split; [discriminate | reflexivity]. }
  destruct (Z.eqb_spec (Z.of_nat (length Keys)) 0) as [H0|Hn].
  { assert (Keys = []) as -> by (destruct Keys; [reflexivity | simpl in H0; lia]).
    split; [split; [discriminate | now intros (? & [= <-] & ? & _)]|].
    split; [intros ? [= <-] ?; contradiction | reflexivity]. }
  destruct (listed env) as [|err]; cbn [fst snd api.Status].
  - split; [split; [|reflexivity]|split].
    + intros _. exists Keys. split; [reflexivity|]. split; [|reflexivity].
      intros ->. now apply Hn.
    + intros ? [= <-] _ _ Hall. now rewrite import_loop_blank.
    + contradiction.
  - split; [split; [discriminate | now intros (? & _ & _ & ?)]|].
    split; [discriminate | reflexivity].
Qed.

Lemma ImportKeys_handler_witness :
  api.ImportKeys store_with_A (Some [" "; ""]%string) sample_import
  = (api.mkResponse 200 (api.ImportResult (models.ImportResult.mk 0 0 0)) None,
     store_with_A).
Proof.
  pose proof (ImportKeys_handler store_with_A (Some [" "; ""]%string)
                sample_import) as H.
  cbv zeta in H. destruct H as (_ & H & _).
  apply (H [" "; ""]%string); [reflexivity | discriminate | reflexivity|].
  repeat constructor.
Defined.

(** X29.  A metric that was never incremented reads as zero, without an
    error.  An increment that goes through on a metric below the largest
    64-bit integer adds one to what [GetMetric] reads for it and leaves
    every other metric as it was; at the largest 64-bit integer, and when
    the command fails, it returns an error and changes nothing. *)
Theorem metric_counts (ms : gmap string Z) (metric : string) :
  (ms !! metric = None ->
   storage.GetMetric ms metric storage.Done = (0, None))
  /\ (fst (storage.GetMetric ms metric storage.Done) < MaxInt64 ->
      let ms' := fst (storage.IncrementMetric ms metric storage.Done) in
      snd (storage.IncrementMetric ms metric storage.Done) = None
      /\ storage.GetMetric ms' metric storage.Done
         = (fst (storage.GetMetric ms metric storage.Done) + 1, None)
      /\ forall other, other <> metric ->
           storage.GetMetric ms' other storage.Done
           = storage.GetMetric ms other storage.Done)
  /\ (MaxInt64 <= fst (storage.GetMetric ms metric storage.Done) ->
      fst (storage.IncrementMetric ms metric storage.Done) = ms
      /\ snd (storage.IncrementMetric ms metric storage.Done) <> None)
  /\ forall err,
       storage.IncrementMetric ms metric (storage.Failure err) = (ms, Some err).
Proof.
  unfold storage.GetMetric, storage.IncrementMetric. cbn [fst snd].
  split; [intros ->; reflexivity|]. split; [|split; [|reflexivity]].
  - intros Hlt. destruct (Z.ltb_spec (default 0 (ms !! metric)) MaxInt64);
      [|lia].
    cbn [fst snd]. split; [reflexivity|]. split.
    + now rewrite lookup_insert_eq.
    + intros other Hne. now rewrite lookup_insert_ne.
  - intros Hge. destruct (Z.ltb_spec (default 0 (ms !! metric)) MaxInt64);
      [lia|].
    cbn [fst snd]. split; [reflexivity | discriminate].
Qed.

Lemma metric_counts_witness :
  storage.GetMetric
    (fst (storage.IncrementMetric
            (fst (storage.IncrementMetric ∅ "requests" storage.Done))
            "requests" storage.Done))
    "requests" storage.Done
  = (2, None).
Proof.
  destruct (metric_counts
              (fst (storage.IncrementMetric ∅ "requests" storage.Done))
              "requests") as (_ & H & _).
  destruct H as (_ & H & _); [vm_compute; reflexivity|].
  rewrite H. reflexivity.
Defined.
